(** * Download_Dropbox: a shallow embedding of [download_dropbox_files.py]

    The file has two layers.

    - [PyStr] and [Sanitizer] embed the pure string code
      ([DropboxDownloader.sanitize_filename], lines 168-176).
    - [Downloader] embeds the browser automation.  Every call into the
      Selenium driver, the clock and the file system is answered by an
      arbitrary environment: a world state and a response function that
      returns a value or raises a Python exception.  Each method is a
      function in a small monad that threads the world and the fields of
      the [DropboxDownloader] instance, emits the calls with their replies
      and the log records in order, and propagates exceptions through
      [try]/[except]/[finally] as Python does.  The polling loop of
      [verify_download] takes fuel; running out of it is an outcome of its
      own, which no [except] catches.

    File names are modelled as lists of [ascii] characters, that is, as
    Python strings whose code points lie in the Latin-1 range 0..255,
    with [str.lower] and [str.strip] as Python defines them there.

    The definitions come first; the properties follow from
    [Properties of the sanitizer] on. *)

From Stdlib Require Import List String Ascii ZArith Lia Bool Arith.
Import ListNotations.

Set Implicit Arguments.

(* ================================================================== *)
(** ** Python strings over Latin-1 *)

Module PyStr.

Definition pystr := list ascii.

(** A source literal. *)
Definition lit (s : string) : pystr := list_ascii_of_string s.

Definition code (c : ascii) : N := N_of_ascii c.

Local Open Scope N_scope.

(** [str.isspace] on one character of the Latin-1 range: TAB..CR,
    FS..US, SPACE, NEL (0x85) and NBSP (0xA0); this is the set
    [str.strip()] removes. *)
Definition isspace (c : ascii) : bool :=
  let n := code c in
  ((9 <=? n) && (n <=? 13)) || ((28 <=? n) && (n <=? 32))
  || (n =? 133) || (n =? 160).

(** [str.lower] on one character of the Latin-1 range: A..Z and the
    upper-case letters 0xC0..0xDE except the multiplication sign 0xD7
    move up by 32. *)
Definition lower_char (c : ascii) : ascii :=
  let n := code c in
  if ((65 <=? n) && (n <=? 90))
     || ((192 <=? n) && (n <=? 222) && negb (n =? 215))
  then ascii_of_N (n + 32) else c.

Definition lower (s : pystr) : pystr := map lower_char s.

Fixpoint lstrip (s : pystr) : pystr :=
  match s with
  | c :: s' => if isspace c then lstrip s' else s
  | [] => []
  end.

Definition rstrip (s : pystr) : pystr := rev (lstrip (rev s)).

(** [s.strip()] *)
Definition strip (s : pystr) : pystr := rstrip (lstrip s).

Definition ascii_eqb (a b : ascii) : bool := (code a =? code b).

Fixpoint eqb (a b : pystr) : bool :=
  match a, b with
  | [], [] => true
  | x :: a', y :: b' => ascii_eqb x y && eqb a' b'
  | _, _ => false
  end.

Fixpoint startswith (s p : pystr) : bool :=
  match p, s with
  | [], _ => true
  | y :: p', x :: s' => ascii_eqb x y && startswith s' p'
  | _ :: _, [] => false
  end.

(** [s.endswith(suffix)] *)
Definition endswith (s suffix : pystr) : bool :=
  startswith (rev s) (rev suffix).

(** Truth value of an optional string: [None] and [''] are falsy. *)
Definition truthy (v : option pystr) : bool :=
  match v with
  | Some (_ :: _) => true
  | _ => false
  end.

End PyStr.
Import PyStr.

(* ================================================================== *)
(** ** The sanitizer (lines 168-176) *)

Module Sanitizer.

Definition underscore : ascii := "_"%char.

(** The character class of the pattern given to [re.sub]: the ten
    characters less-than, greater-than, colon, double quote (code 34),
    slash, backslash, bar, question mark, star and comma. *)
Definition forbidden (c : ascii) : bool :=
  existsb (ascii_eqb c)
    ["<"; ">"; ":"; ascii_of_nat 34; "/"; "\"; "|"; "?"; "*"; ","]%char.

Definition replace_char (c : ascii) : ascii :=
  if forbidden c then underscore else c.

(** [re.sub(pattern, '_', filename)] *)
Definition re_sub (filename : pystr) : pystr := map replace_char filename.

(** The literal tested against [filename.lower()]. *)
Definition legacy_lowered : pystr :=
  lit "file, f1-00094_76399_0000000000_ssr.cwa".

Definition legacy_target : pystr :=
  lit "f1-00094_76399_0000000000_ssr.cwa".

Definition sanitize_filename (filename : option pystr) : option pystr :=
  if negb (truthy filename) then None
  else
    match filename with
    | None => None
    | Some name =>
        if eqb (lower name) legacy_lowered then Some legacy_target
        else Some (strip (re_sub name))
    end.

(** The legacy name as the specification spells it. *)
Definition legacy_name : pystr :=
  lit "File, F1-00094_76399_0000000000_SSR.cwa".

(** Case-insensitive equality of two names. *)
Definition eq_nocase (a b : pystr) : Prop := lower a = lower b.

(** [t] is [s] with every forbidden character replaced by an underscore. *)
Definition replaced (s t : pystr) : Prop :=
  Forall2 (fun c d => d = if forbidden c then underscore else c) s t.

(** [r] is [t] without its leading and trailing whitespace. *)
Definition trimmed (t r : pystr) : Prop :=
  exists pre post,
    t = pre ++ r ++ post
    /\ forallb isspace pre = true /\ forallb isspace post = true
    /\ (forall c, hd_error r = Some c -> isspace c = false)
    /\ (forall c, hd_error (rev r) = Some c -> isspace c = false).

End Sanitizer.
Import Sanitizer.

(* ================================================================== *)
(** ** The environment: driver, clock and file system *)

Module Downloader.

(** A reference to a [WebElement]. *)
Definition handle := nat.

(** Python exceptions.  All but [KeyboardInterrupt] derive from
    [Exception]; the Selenium ones derive from [WebDriverException]. *)
Inductive exn :=
| TimeoutException
| NoSuchElementException
| StaleElementReferenceException
| WebDriverException
| AttributeError (name : string)
| TypeError
| OSError
| PyException (message : string)
| KeyboardInterrupt.

Definition is_Exception (e : exn) : bool :=
  match e with
  | KeyboardInterrupt => false
  | _ => true
  end.

Definition is_TimeoutException (e : exn) : bool :=
  match e with
  | TimeoutException => true
  | _ => false
  end.

(** How a call ends: with a value, with an exception, or not at all
    (the polling loop of [verify_download] out of fuel). *)
Inductive outcome (A : Type) :=
| Ret (a : A)
| Raise (e : exn)
| Diverge.
Arguments Raise {A} e.
Arguments Diverge {A}.

(** How the environment answers a call. *)
Inductive reply (T : Type) :=
| Returns (v : T)
| Raises (e : exn).
Arguments Raises {T} e.

Definition outcome_of {T} (r : reply T) : outcome T :=
  match r with
  | Returns v => Ret v
  | Raises e => Raise e
  end.

Inductive by_ := CSS_SELECTOR | XPATH | TAG_NAME.

(** [driver.find_element] searches the page, [element.find_element]
    below an element. *)
Inductive scope := Page | Within (h : handle).

Inductive keys := KeyText (s : pystr) | ESCAPE | RETURN.

(** The calls the program makes into its collaborators, indexed by the
    type of the value they return. *)
Inductive call : Type -> Type :=
| ReadCsvColumn (path column : string) : call (list pystr)
| Makedirs (folder : pystr) : call unit
| Chrome (download_directory : pystr) : call unit
| MaximizeWindow : call unit
| Get (url : string) : call unit
| Input (prompt : string) : call unit
| WaitAnyPresent (selectors : list string) : call unit
| WaitClickable (selector : string) : call handle
| FindElement (sc : scope) (b : by_) (selector : string) : call handle
| FindElements (b : by_) (selector : string) : call (list handle)
| Click (h : handle) : call unit
| ExecuteScriptClick (h : handle) : call unit
| ContextClick (h : handle) : call unit
| DoubleClick (h : handle) : call unit
| Clear (h : handle) : call unit
| SendKeys (h : handle) (k : keys) : call unit
| ElementText (h : handle) : call pystr
| GetAttribute (h : handle) (attr : string) : call (option pystr)
| Back : call unit
| Quit : call unit
| PathExists (p : pystr) : call bool
| Time : call Z
| Sleep (secs : Z) : call unit.

Inductive level := DEBUG | INFO | WARNING | ERROR.

(** A value formatted into a message. *)
Inductive arg :=
| AStr (s : pystr)
| AName (v : option pystr)
| AText (s : string)
| AInt (n : Z)
| AExn (e : exn).

(** What an execution leaves behind, in order: the calls with their
    replies, the log records and the console lines. *)
Inductive event :=
| Called (T : Type) (c : call T) (r : reply T)
| Logged (lvl : level) (template : string) (args : list arg)
| Printed (template : string) (args : list arg).

(** The fields of the [DropboxDownloader] instance. *)
Record instance := {
  keyword : pystr;
  download_folder : pystr;
  delay : Z;
  driver : bool   (* [false] is [None] *)
}.

(** The names bound in the body of [class DropboxDownloader]
    (lines 15-402) and by its [__init__]. *)
Definition DropboxDownloader_methods : list string :=
  ["__init__"; "setup_driver"; "login_to_dropbox"; "clear_search_context";
   "get_search_input"; "sanitize_filename"; "verify_download";
   "attempt_download"; "search_and_download"]%string.

Definition instance_attributes : list string :=
  ["keyword"; "download_folder"; "delay"; "driver"; "wait"; "logger"]%string.

(** The functions defined at module level (lines 403 and 409 start in
    column 0, after the class body has ended). *)
Definition module_functions : list string := ["cleanup"; "run"]%string.

(** [needle in hay] *)
Fixpoint str_in (needle hay : string) : bool :=
  if String.prefix needle hay then true
  else match hay with
       | EmptyString => false
       | String _ hay' => str_in needle hay'
       end.

(** [range(lo, hi)] *)
Definition py_range (lo hi : Z) : list Z :=
  map (fun i => (lo + Z.of_nat i)%Z) (seq 0 (Z.to_nat (hi - lo))).

Definition name_of (v : option pystr) : pystr :=
  match v with
  | Some s => s
  | None => []
  end.

(** The body of a [for] loop either falls through to the next item or
    leaves the loop with a value ([return], or [break] with the variable
    it has just assigned). *)
Inductive flow (A : Type) :=
| Next
| Stop (a : A).
Arguments Next {A}.

Section Monad.

(** The state of the environment. *)
Variable W : Type.

Record state := {
  world : W;
  self : instance
}.

Record result (A : Type) := {
  res : outcome A;
  final : state;
  emitted : list event
}.

Definition M (A : Type) := state -> result A.

Definition ret {A} (a : A) : M A :=
  fun st => {| res := Ret a; final := st; emitted := [] |}.

Definition raise {A} (e : exn) : M A :=
  fun st => {| res := Raise e; final := st; emitted := [] |}.

Definition diverge {A} : M A :=
  fun st => {| res := Diverge; final := st; emitted := [] |}.

(** The result [r] after the events [evs]. *)
Definition prepend {A} (evs : list event) (r : result A) : result A :=
  {| res := res r; final := final r; emitted := evs ++ emitted r |}.

Definition bind {A B} (m : M A) (f : A -> M B) : M B :=
  fun st =>
    let r := m st in
    match res r with
    | Ret a =>
        let r' := f a (final r) in
        {| res := res r'; final := final r';
           emitted := emitted r ++ emitted r' |}
    | Raise e =>
        {| res := Raise e; final := final r; emitted := emitted r |}
    | Diverge =>
        {| res := Diverge; final := final r; emitted := emitted r |}
    end.

(** [try: m / except <class>: h], for the exceptions [catch] accepts. *)
Definition try_except {A} (catch : exn -> bool) (m : M A)
           (h : exn -> M A) : M A :=
  fun st =>
    let r := m st in
    match res r with
    | Raise e =>
        if catch e then
          let r' := h e (final r) in
          {| res := res r'; final := final r';
             emitted := emitted r ++ emitted r' |}
        else r
    | _ => r
    end.

(** A bare [except:] catches every exception. *)
Definition try_except_all {A} := @try_except A (fun _ => true).
(** [except Exception as e:] lets [KeyboardInterrupt] through. *)
Definition try_except_Exception {A} := @try_except A is_Exception.

(** [try: m / finally: fin]; an exception of [fin] replaces the
    outcome of [m]. *)
Definition try_finally {A} (m : M A) (fin : M unit) : M A :=
  fun st =>
    let r := m st in
    match res r with
    | Diverge => r
    | _ =>
        let r' := fin (final r) in
        {| res := match res r' with
                  | Ret _ => res r
                  | Raise e => Raise e
                  | Diverge => Diverge
                  end;
           final := final r';
           emitted := emitted r ++ emitted r' |}
    end.

Definition log (lvl : level) (template : string) (args : list arg)
  : M unit :=
  fun st => {| res := Ret tt; final := st;
               emitted := [Logged lvl template args] |}.

Definition print (template : string) (args : list arg) : M unit :=
  fun st => {| res := Ret tt; final := st;
               emitted := [Printed template args] |}.

Definition get_self : M instance :=
  fun st => {| res := Ret (self st); final := st; emitted := [] |}.

Definition set_self (i : instance) : M unit :=
  fun st => {| res := Ret tt;
               final := {| world := world st; self := i |};
               emitted := [] |}.

Fixpoint for_each {X A} (xs : list X) (body : X -> M (flow A))
  : M (flow A) :=
  match xs with
  | [] => ret Next
  | x :: xs' =>
      bind (body x) (fun f =>
      match f with
      | Next => for_each xs' body
      | Stop a => ret (Stop a)
      end)
  end.

End Monad.

Arguments ret {W A} a.
Arguments raise {W A} e.
Arguments diverge {W A}.
Arguments get_self {W}.
Arguments log {W} lvl template args.
Arguments print {W} template args.

Declare Scope py_scope.
Delimit Scope py_scope with py.
Notation "x <- m ;; k" := (bind m (fun x => k))
  (at level 61, m at next level, right associativity) : py_scope.
Notation "m ;; k" := (bind m (fun _ => k))
  (at level 61, right associativity) : py_scope.

Section Program.

Local Open Scope py_scope.
Local Open Scope string_scope.
Local Open Scope Z_scope.

(** The environment: a state and its answer to each call. *)
Variable W : Type.
Variable respond : forall T, call T -> W -> reply T * W.

(** [os.path.join] and [os.path.abspath] of the platform. *)
Variable os_path_join : pystr -> pystr -> pystr.
Variable os_path_abspath : pystr -> pystr.

Definition do_call {T} (c : call T) : M W T :=
  fun st =>
    let (r, w) := respond c (world st) in
    {| res := outcome_of r;
       final := {| world := w; self := self st |};
       emitted := [Called c r] |}.

(** Attribute lookup [first_downloader.<name>] on the instance. *)
Definition getattr (name : string) : M W unit :=
  if existsb (String.eqb name)
       (instance_attributes ++ DropboxDownloader_methods)
  then ret tt
  else raise (AttributeError name).

Definition call_method {A} (name : string) (body : M W A) : M W A :=
  getattr name ;; body.


(** *** [get_search_input] (lines 150-166) *)

Definition search_selectors : list string :=
  ["[data-testid='search-input']";
   "input[placeholder*='Search']";
   ".search-input";
   "input[type='search']";
   "#search-input"].

Definition get_search_input : M W (option handle) :=
  f <- for_each search_selectors (fun selector =>
         try_except_all
           (search_input <- do_call (WaitClickable selector) ;;
            ret (Stop (Some search_input)))
           (fun _ => ret Next)) ;;
  match f with
  | Stop search_input => ret search_input
  | Next => ret None
  end.

(** *** [clear_search_context] (lines 113-148) *)

Definition clear_selectors : list string :=
  ["[data-testid='search-clear-button']";
   ".search-clear-button";
   "button[title*='Clear']";
   "button[aria-label*='Clear']"].

Definition clear_search_context : M W bool :=
  try_except_Exception
    (f <- for_each clear_selectors (fun selector =>
           try_except_all
             (clear_button <- do_call (FindElement Page CSS_SELECTOR selector) ;;
              do_call (Click clear_button) ;;
              log INFO "Cleared search context" [] ;;
              do_call (Sleep 1) ;;
              ret (Stop true))
             (fun _ => ret Next)) ;;
     match f with
     | Stop b => ret b
     | Next =>
         search_input <- get_search_input ;;
         match search_input with
         | Some h =>
             do_call (Clear h) ;;
             do_call (SendKeys h ESCAPE) ;;
             log INFO "Cleared search context via search input" [] ;;
             do_call (Sleep 1) ;;
             ret true
         | None =>
             log WARNING
               "Could not find clear button or search input to clear context" [] ;;
             ret false
         end
     end)
    (fun e =>
       log WARNING "Error clearing search context: {}" [AExn e] ;;
       ret false).

(** *** [verify_download] (lines 178-197) *)

(** The [while] loop; [fuel] bounds the number of times its condition
    is evaluated. *)
Fixpoint verify_loop (fuel : nat) (expected_path : pystr)
         (start_time timeout : Z) : M W bool :=
  match fuel with
  | O => diverge
  | S fuel' =>
      now <- do_call Time ;;
      if now - start_time <? timeout then
        found <- do_call (PathExists expected_path) ;;
        if found : bool then
          log INFO "Download verified: {}" [AStr expected_path] ;;
          ret true
        else
          partial <- do_call (PathExists (expected_path ++ lit ".crdownload")%list) ;;
          (if partial : bool then
             log INFO "Download in progress: {}.crdownload" [AStr expected_path]
           else ret tt) ;;
          do_call (Sleep 1) ;;
          verify_loop fuel' expected_path start_time timeout
      else
        log WARNING "Download not found: {}" [AStr expected_path] ;;
        ret false
  end.

Definition verify_download (fuel : nat) (filename : pystr) (timeout : Z)
  : M W bool :=
  let sanitized_filename := sanitize_filename (Some filename) in
  if negb (truthy sanitized_filename) then ret false
  else
    self <- get_self ;;
    let expected_path :=
      os_path_join (download_folder self) (name_of sanitized_filename) in
    start_time <- do_call Time ;;
    verify_loop fuel expected_path start_time timeout.

(** *** [attempt_download] (lines 199-282) *)

Definition max_attempts : Z := 2.

Definition download_selectors : list string :=
  ["[data-testid='download-menu-item']";
   "span:contains('Download')";
   ".download-option";
   "*[title*='Download']";
   "*[aria-label*='Download']";
   "button[class*='download']";
   "[role='menuitem'][data-action*='download']"].

Definition download_btn_xpath : string :=
  "//button[contains(text(), 'Download') or @title='Download' or @aria-label='Download']".

(** [try: element.click() / except: execute_script(...)]
    (lines 229-232 and 249-252). *)
Definition click_or_script (element : handle) : M W unit :=
  try_except_all (do_call (Click element))
                 (fun _ => do_call (ExecuteScriptClick element)).

(** One pass of the loop over [download_selectors] (lines 221-241). *)
Definition context_menu_step (fuel : nat) (file_name : pystr)
           (sanitized_file_name : option pystr) (index attempt : Z)
           (download_selector : string) : M W (flow bool) :=
  try_except_all
    (download_option <-
       (if str_in "contains" download_selector
        then do_call (FindElement Page XPATH
                        "//span[contains(text(), 'Download')]")
        else do_call (FindElement Page CSS_SELECTOR download_selector)) ;;
     click_or_script download_option ;;
     log INFO "Initiated download for .cwa file {} ({}) on attempt {}"
       [AInt (index + 1); AName sanitized_file_name; AInt attempt] ;;
     verified <- verify_download fuel file_name 30 ;;
     if verified : bool then ret (Stop true)
     else
       log WARNING "Download verification failed for {} on attempt {}"
         [AName sanitized_file_name; AInt attempt] ;;
       ret Next)
    (fun _ => ret Next).

(** The alternative through the file view (lines 243-265). *)
Definition file_view_step (fuel : nat) (file_element : handle)
           (file_name : pystr) (sanitized_file_name : option pystr)
           (index attempt : Z) : M W (flow bool) :=
  try_except_all
    (do_call (DoubleClick file_element) ;;
     do_call (Sleep 2) ;;
     download_btn <- do_call (FindElement Page XPATH download_btn_xpath) ;;
     click_or_script download_btn ;;
     log INFO "Downloaded .cwa file {} ({}) via file view on attempt {}"
       [AInt (index + 1); AName sanitized_file_name; AInt attempt] ;;
     verified <- verify_download fuel file_name 30 ;;
     if verified : bool then
       do_call Back ;;
       do_call (Sleep 2) ;;
       ret (Stop true)
     else
       log WARNING
         "Download verification failed for {} via file view on attempt {}"
         [AName sanitized_file_name; AInt attempt] ;;
       do_call Back ;;
       do_call (Sleep 2) ;;
       ret Next)
    (fun _ =>
       log WARNING "Could not download via file view on attempt {}"
         [AInt attempt] ;;
       ret Next).

(** The body of the loop over the attempts (lines 205-279). *)
Definition attempt_body (fuel : nat) (file_element : handle)
           (file_name : pystr) (sanitized_file_name : option pystr)
           (index attempt : Z) : M W (flow bool) :=
  f <- try_except_Exception
         (do_call (ContextClick file_element) ;;
          do_call (Sleep 1) ;;
          f <- for_each download_selectors
                 (context_menu_step fuel file_name sanitized_file_name
                                    index attempt) ;;
          match f with
          | Stop b => ret (Stop b)
          | Next =>
              file_view_step fuel file_element file_name
                             sanitized_file_name index attempt
          end)
         (fun e =>
            log WARNING "Download attempt {} failed for file {} ({}): {}"
              [AInt attempt; AInt (index + 1); AName sanitized_file_name;
               AExn e] ;;
            ret Next) ;;
  match f with
  | Stop b => ret (Stop b)
  | Next =>
      try_except_all
        (body <- do_call (FindElement Page TAG_NAME "body") ;;
         do_call (Click body) ;;
         do_call (Sleep 1))
        (fun _ => ret tt) ;;
      (if attempt <? max_attempts then
         log INFO "Retrying download for file {} ({})..."
           [AInt (index + 1); AName sanitized_file_name] ;;
         do_call (Sleep 2)
       else ret tt) ;;
      ret Next
  end.

Definition attempt_download (fuel : nat) (file_element : handle)
           (file_name : pystr) (index : Z) : M W bool :=
  let sanitized_file_name := sanitize_filename (Some file_name) in
  f <- for_each (py_range 1 (max_attempts + 1))
         (attempt_body fuel file_element file_name sanitized_file_name
                       index) ;;
  match f with
  | Stop b => ret b
  | Next =>
      log WARNING "Could not download .cwa file {} ({}) after {} attempts"
        [AInt (index + 1); AName sanitized_file_name; AInt max_attempts] ;;
      ret false
  end.


(** *** [search_and_download] (lines 284-402) *)

Definition file_selectors : list string :=
  ["[data-testid='virtual-list-item']";
   ".file-row";
   ".brws-file-name-cell";
   "[role='row']";
   ".sl-react-shared-file-row"].

Definition name_selectors : list string :=
  [".brws-file-name-cell-filename";
   ".file-name";
   "span[data-testid='file-name']";
   "[data-testid='file-name-text']";
   ".mc-media-cell-text";
   "span[class*='file-name']";
   ".brws-file-name";
   "[class*='filename']";
   ".mc-media-row-main-content";
   "[data-testid*='file-row'] span"].

Definition name_attributes : list string :=
  ["title"; "aria-label"; "data-filename"; "data-testid"].

(** One pass of the loop over [name_selectors] (lines 349-356): the
    [break] leaves the loop with the name just assigned. *)
Definition name_selector_step (file_element : handle)
           (name_selector : string) : M W (flow pystr) :=
  try_except_all
    (file_name_element <-
       do_call (FindElement (Within file_element) CSS_SELECTOR
                            name_selector) ;;
     text <- do_call (ElementText file_name_element) ;;
     let file_name := lower (strip text) in
     log INFO "Found file name '{}' using selector: {}"
       [AStr file_name; AText name_selector] ;;
     ret (Stop file_name))
    (fun _ => ret Next).

(** The loop over the attributes (lines 361-366).  The whole loop sits
    in one [try] whose handler is [pass]: an exception of
    [get_attribute] ends the loop and leaves [file_name] as it was
    last assigned. *)
Fixpoint name_from_attributes (file_element : handle)
         (attrs : list string) (file_name : option pystr)
  : M W (option pystr) :=
  match attrs with
  | [] => ret file_name
  | attr :: attrs' =>
      got <- try_except_all
               (v <- do_call (GetAttribute file_element attr) ;;
                ret (Some v))
               (fun _ => ret None) ;;
      match got with
      | None => ret file_name
      | Some v =>
          if truthy v then
            let file_name := lower (strip (name_of v)) in
            log INFO "Found file name '{}' using attribute: {}"
              [AStr file_name; AText attr] ;;
            ret (Some file_name)
          else name_from_attributes file_element attrs' v
      end
  end.

(** Lines 335-368: the display name derived for a result row. *)
Definition derive_file_name (file_element : handle)
  : M W (option pystr) :=
  f <- for_each name_selectors (name_selector_step file_element) ;;
  let file_name := match f with
                   | Stop n => Some n
                   | Next => None
                   end in
  if negb (truthy file_name)
  then name_from_attributes file_element name_attributes file_name
  else ret file_name.

(** Lines 372-376 and 390-394. *)
Definition log_element_html (file_element : handle) : M W unit :=
  try_except_all
    (v <- do_call (GetAttribute file_element "outerHTML") ;;
     match v with
     | None => raise TypeError
     | Some html =>
         log DEBUG "File element HTML: {}" [AStr (firstn 200 html)]
     end)
    (fun _ => log DEBUG "Could not retrieve file element HTML" []).

(** The body of the loop over the result rows (lines 333-395); the
    value is [downloaded_count] after the row. *)
Definition process_file (fuel : nat) (i : Z) (file_element : handle)
           (downloaded_count : Z) : M W Z :=
  try_except_Exception
    (file_name <- derive_file_name file_element ;;
     if negb (truthy file_name) then
       log WARNING "Could not determine file name for file {}"
         [AInt (i + 1)] ;;
       log_element_html file_element ;;
       ret downloaded_count
     else if negb (endswith (name_of file_name) (lit ".cwa")) then
       log INFO "Skipping file {} - does not end with .cwa"
         [AName file_name] ;;
       ret downloaded_count
     else
       ok <- attempt_download fuel file_element (name_of file_name) i ;;
       if ok : bool then ret (downloaded_count + 1)
       else ret downloaded_count)
    (fun e =>
       self <- get_self ;;
       log WARNING "Error processing file {} for keyword '{}': {}"
         [AInt (i + 1); AStr (keyword self); AExn e] ;;
       log_element_html file_element ;;
       ret downloaded_count).

(** [for i, file_element in enumerate(rows)] *)
Fixpoint process_files (fuel : nat) (i : Z) (rows : list handle)
         (downloaded_count : Z) : M W Z :=
  match rows with
  | [] => ret downloaded_count
  | file_element :: rows' =>
      downloaded_count <- process_file fuel i file_element
                                       downloaded_count ;;
      process_files fuel (i + 1) rows' downloaded_count
  end.

(** Lines 314-322: the first selector with a non-empty result. *)
Definition find_files : M W (list handle) :=
  f <- for_each file_selectors (fun selector =>
         try_except_all
           (files_found <- do_call (FindElements CSS_SELECTOR selector) ;;
            match files_found with
            | [] => ret Next
            | _ :: _ =>
                log INFO "Found files using selector: {}" [AText selector] ;;
                ret (Stop files_found)
            end)
           (fun _ => ret Next)) ;;
  match f with
  | Stop files_found => ret files_found
  | Next => ret []
  end.

(** Lines 324-398, from the rows found on. *)
Definition process_results (fuel : nat) (files_found : list handle)
  : M W bool :=
  self <- get_self ;;
  match files_found with
  | [] =>
      log WARNING "No files found for keyword: {}" [AStr (keyword self)] ;;
      ret true
  | _ :: _ =>
      log INFO "Found {} potential results for: {}"
        [AInt (Z.of_nat (List.length files_found)); AStr (keyword self)] ;;
      downloaded_count <- process_files fuel 0 (firstn 5 files_found) 0 ;;
      log INFO "Completed search for '{}': {} .cwa downloads initiated"
        [AStr (keyword self); AInt downloaded_count] ;;
      ret true
  end.

Definition search_and_download (fuel : nat) : M W bool :=
  try_except_Exception
    (clear_search_context ;;
     search_input <- get_search_input ;;
     match search_input with
     | None =>
         log ERROR "Could not find search input field" [] ;;
         ret false
     | Some h =>
         self <- get_self ;;
         do_call (SendKeys h (KeyText (keyword self))) ;;
         do_call (SendKeys h RETURN) ;;
         log INFO "Searching for: {}" [AStr (keyword self)] ;;
         do_call (Sleep 5) ;;
         files_found <- find_files ;;
         process_results fuel files_found
     end)
    (fun e =>
       self <- get_self ;;
       log ERROR "Error searching for keyword '{}': {}"
         [AStr (keyword self); AExn e] ;;
       ret false).


(** *** [__init__], [setup_driver], [login_to_dropbox]
    (lines 15-111) *)

Definition __init__ (keyword download_folder : pystr)
           (delay_between_searches : Z) : M W unit :=
  let folder := os_path_abspath download_folder in
  set_self {| keyword := keyword; download_folder := folder;
              delay := delay_between_searches; driver := false |} ;;
  do_call (Makedirs folder) ;;
  log INFO "Initialized with keyword: {}" [AStr keyword].

Definition setup_driver : M W unit :=
  try_except_Exception
    (self <- get_self ;;
     do_call (Chrome (download_folder self)) ;;
     set_self {| keyword := keyword self;
                 download_folder := download_folder self;
                 delay := delay self; driver := true |} ;;
     do_call MaximizeWindow ;;
     log INFO "Chrome driver initialized successfully" [])
    (fun e =>
       log ERROR "Error setting up Chrome driver: {}" [AExn e] ;;
       log ERROR "Make sure ChromeDriver is installed and in PATH" [] ;;
       raise e).

Definition rule60 : string :=
  "============================================================".

Definition login_to_dropbox : M W bool :=
  try_except_Exception
    (do_call (Get "https://www.dropbox.com/login") ;;
     log INFO "Navigated to Dropbox login page" [] ;;
     print "{}{}" [AText (String (ascii_of_nat 10) ""); AText rule60] ;;
     print "MANUAL LOGIN REQUIRED" [] ;;
     print "{}" [AText rule60] ;;
     print "1. Complete the SSO login process in the browser window" [] ;;
     print "2. Make sure you reach the main Dropbox interface" [] ;;
     print "3. Press ENTER in this console when login is complete..." [] ;;
     print "{}" [AText rule60] ;;
     do_call (Input "Press ENTER after completing login...") ;;
     try_except is_TimeoutException
       (do_call (WaitAnyPresent ["[data-testid='search-input']";
                                 "input[placeholder*='Search']";
                                 ".search-input"]) ;;
        log INFO "Successfully logged in to Dropbox" [] ;;
        ret true)
       (fun _ =>
          log ERROR
            "Could not find search input. Please make sure you're on the main Dropbox page" [] ;;
          ret false))
    (fun e =>
       log ERROR "Error during login process: {}" [AExn e] ;;
       ret false).

(** *** The module-level function [cleanup] (lines 403-407) *)

Definition cleanup : M W unit :=
  self <- get_self ;;
  if driver self then
    do_call Quit ;;
    log INFO "Browser closed and resources cleaned up" []
  else ret tt.

(** *** The main block (lines 426-478) *)

Definition DOWNLOAD_FOLDER : pystr := lit "E:\dropbox".
Definition DELAY_BETWEEN_SEARCHES : Z := 3.
Definition csv_path : string :=
  "C:\Users\kaiyijin\NUS Dropbox\Kaiyi Jin\COBRA_Kaiyi\ID_Mapping\dropbox_files.csv".

(** The body of the loop over the keywords (lines 452-467). *)
Definition keyword_step (fuel : nat) (kw : pystr) : M W (flow unit) :=
  try_except_Exception
    (self <- get_self ;;
     set_self {| keyword := kw; download_folder := download_folder self;
                 delay := delay self; driver := driver self |} ;;
     ok <- call_method "search_and_download" (search_and_download fuel) ;;
     (if ok : bool then
        log INFO "Successfully processed keyword: {}" [AStr kw]
      else
        log ERROR "Failed to process keyword: {}" [AStr kw]) ;;
     do_call (Sleep DELAY_BETWEEN_SEARCHES) ;;
     ret Next)
    (fun e =>
       log ERROR "Error processing keyword '{}': {}" [AStr kw; AExn e] ;;
       ret Next).

Definition main (fuel : nat) : M W unit :=
  try_except_Exception
    (keywords <- do_call (ReadCsvColumn csv_path "filename") ;;
     match keywords with
     | [] => ret tt
     | first_keyword :: _ =>
         __init__ first_keyword DOWNLOAD_FOLDER DELAY_BETWEEN_SEARCHES ;;
         try_finally
           (call_method "setup_driver" setup_driver ;;
            logged_in <- call_method "login_to_dropbox" login_to_dropbox ;;
            (if logged_in : bool then ret tt
             else raise (PyException "Failed to login to Dropbox")) ;;
            for_each keywords (keyword_step fuel) ;;
            ret tt)
           (call_method "cleanup" cleanup)
     end)
    (fun e =>
       print "Error: {}" [AExn e] ;;
       print "{}Make sure you have:" [AText (String (ascii_of_nat 10) "")] ;;
       print "1. Installed the required packages: pip install selenium pandas" [] ;;
       print "2. ChromeDriver is installed and in your PATH" [] ;;
       print "3. Provided the correct CSV file path with a 'filename' column" []).

End Program.

(* ---------------------------------------------------------------- *)
(** *** Observations on what an execution emitted *)

Definition is_quit (e : event) : bool :=
  match e with
  | Called c _ => match c with Quit => true | _ => false end
  | _ => false
  end.

Definition is_back (e : event) : bool :=
  match e with
  | Called c _ => match c with Back => true | _ => false end
  | _ => false
  end.

Definition is_double_click (e : event) : bool :=
  match e with
  | Called c _ => match c with DoubleClick _ => true | _ => false end
  | _ => false
  end.

(** Every attempt of [attempt_download] opens with one context click. *)
Definition is_context_click (e : event) : bool :=
  match e with
  | Called c _ => match c with ContextClick _ => true | _ => false end
  | _ => false
  end.

Definition is_sleep (e : event) : bool :=
  match e with
  | Called c _ => match c with Sleep _ => true | _ => false end
  | _ => false
  end.

Definition count (f : event -> bool) (evs : list event) : nat :=
  List.length (filter f evs).

(** The result row an event touches: a lookup below the row, a read of
    one of its attributes, a context click or a double click on it. *)
Definition row_target (e : event) : option handle :=
  match e with
  | Called c _ =>
      match c with
      | FindElement (Within h) _ _ => Some h
      | GetAttribute h _ => Some h
      | ContextClick h => Some h
      | DoubleClick h => Some h
      | _ => None
      end
  | _ => None
  end.

(** What deriving the name of the row [h] may emit: lookups below the
    row, reads of a text, reads of an attribute of the row, log records. *)
Definition lookup_event (h : handle) (e : event) : bool :=
  match e with
  | Called c _ =>
      match c with
      | FindElement (Within h') CSS_SELECTOR _ => Nat.eqb h' h
      | ElementText _ => true
      | GetAttribute h' _ => Nat.eqb h' h
      | _ => false
      end
  | Logged _ _ _ => true
  | Printed _ _ => false
  end.

(** What a download attempt on the row [h] may emit. *)
Definition attempt_event (h : handle) (e : event) : bool :=
  match e with
  | Called c _ =>
      match c with
      | ContextClick h' => Nat.eqb h' h
      | DoubleClick h' => Nat.eqb h' h
      | FindElement Page _ _ => true
      | Click _ => true
      | ExecuteScriptClick _ => true
      | Back => true
      | Sleep _ => true
      | Time => true
      | PathExists _ => true
      | _ => false
      end
  | Logged _ _ _ => true
  | Printed _ _ => false
  end.

(** What the two download strategies on the row [h] may emit once the
    context menu is open: everything a download attempt may emit except
    a context click. *)
Definition strategy_event (h : handle) (e : event) : bool :=
  attempt_event h e && negb (is_context_click e).

Definition row_event (h : handle) (e : event) : bool :=
  lookup_event h e || attempt_event h e.

(** The answer of [os.path.exists(p)], when [e] is such a call. *)
Definition poll_reply (p : pystr) (e : event) : option bool :=
  match e with
  | Called c r =>
      match c in call T return reply T -> option bool with
      | PathExists q =>
          fun r => if eqb q p
                   then match r with Returns b => Some b | Raises _ => None end
                   else None
      | _ => fun _ => None
      end r
  | _ => None
  end.

(** The value of [time.time()], when [e] is such a call. *)
Definition time_reading (e : event) : option Z :=
  match e with
  | Called c r =>
      match c in call T return reply T -> option Z with
      | Time => fun r => match r with Returns t => Some t | Raises _ => None end
      | _ => fun _ => None
      end r
  | _ => None
  end.

Fixpoint collect {A} (f : event -> option A) (evs : list event) : list A :=
  match evs with
  | [] => []
  | e :: evs' =>
      match f e with
      | Some a => a :: collect f evs'
      | None => collect f evs'
      end
  end.

Definition polls (p : pystr) := collect (poll_reply p).
Definition time_readings := collect time_reading.

(** A lookup of a name selector below the row [h], with its answer. *)
Definition name_probe (h : handle) (e : event)
  : option (string * reply handle) :=
  match e with
  | Called c r =>
      match c in call T return reply T -> option (string * reply handle) with
      | FindElement (Within h') CSS_SELECTOR selector =>
          fun r => if Nat.eqb h' h then Some (selector, r) else None
      | _ => fun _ => None
      end r
  | _ => None
  end.

Definition name_probes (h : handle) := collect (name_probe h).

Definition resolved {A} (r : reply A) : bool :=
  match r with
  | Returns _ => true
  | Raises _ => false
  end.

(** The first-match rule read on the selectors alone: no selector is
    looked up after one that resolved to an element. *)
Definition resolved_probe_is_last (probes : list (string * reply handle))
  : Prop :=
  forall i selector r,
    nth_error probes i = Some (selector, r) ->
    resolved r = true -> List.length probes = S i.

(** The first thing done with a row: the lookup of the first name
    selector below it. *)
Definition is_first_probe (h : handle) (e : event) : bool :=
  match name_probe h e with
  | Some (selector, _) =>
      String.eqb selector ".brws-file-name-cell-filename"
  | None => false
  end.

(* ---------------------------------------------------------------- *)
(** *** The shape of a run of a locator loop *)

(** What the loop of [get_search_input] emits for a selector that does
    not resolve. *)
Definition search_probe_failed (selector : string) (evs : list event)
  : Prop :=
  exists e, evs = [Called (WaitClickable selector) (Raises e)].

(** The run of [get_search_input]: misses for the selectors before the
    first that resolves, then that one and its element; or a miss for
    every selector, each once and in order, and [None]. *)
Definition search_input_located (o : outcome (option handle))
           (evs : list event) : Prop :=
  (exists pre selector post h misses,
      search_selectors = pre ++ selector :: post
      /\ Forall2 search_probe_failed pre misses
      /\ o = Ret (Some h)
      /\ evs = List.concat misses ++ [Called (WaitClickable selector) (Returns h)])
  \/ (exists misses,
         Forall2 search_probe_failed search_selectors misses
         /\ o = Ret None
         /\ evs = List.concat misses).

(** What one pass of the name loop emits when it does not yield a name:
    the selector does not resolve below the row, or it resolves to an
    element whose text cannot be read. *)
Definition name_step_failed (row : handle) (selector : string)
           (evs : list event) : Prop :=
  (exists e,
      evs = [Called (FindElement (Within row) CSS_SELECTOR selector)
                    (Raises e)])
  \/ (exists el e,
         evs = [Called (FindElement (Within row) CSS_SELECTOR selector)
                       (Returns el);
                Called (ElementText el) (Raises e)]).

Definition name_step_succeeded (row : handle) (selector : string)
           (file_name : pystr) (evs : list event) : Prop :=
  exists el text,
    file_name = lower (strip text)
    /\ evs = [Called (FindElement (Within row) CSS_SELECTOR selector)
                     (Returns el);
              Called (ElementText el) (Returns text);
              Logged INFO "Found file name '{}' using selector: {}"
                     [AStr file_name; AText selector]].

(** The run of the loop over [name_selectors] for a row. *)
Definition name_located (row : handle) (o : outcome (flow pystr))
           (evs : list event) : Prop :=
  (exists pre selector post file_name misses hit,
      name_selectors = pre ++ selector :: post
      /\ Forall2 (name_step_failed row) pre misses
      /\ name_step_succeeded row selector file_name hit
      /\ o = Ret (Stop file_name)
      /\ evs = List.concat misses ++ hit)
  \/ (exists misses,
         Forall2 (name_step_failed row) name_selectors misses
         /\ o = Ret Next
         /\ evs = List.concat misses).

(* ---------------------------------------------------------------- *)
(** *** Specifications of computations *)

Section Specs.
Variable W : Type.

(** Every event [m] emits, from any state, satisfies [P]. *)
Definition emits {A} (P : event -> Prop) (m : M W A) : Prop :=
  forall st, Forall P (emitted (m st)).

(** From any state, [m] returns a value in [Q], raises an exception in
    [E], or, when [D] holds, may fail to terminate. *)
Definition hoare {A} (D : Prop) (E : exn -> Prop) (m : M W A)
           (Q : A -> Prop) : Prop :=
  forall st,
    match res (m st) with
    | Ret a => Q a
    | Raise e => E e
    | Diverge => D
    end.

(** From any state, [m] emits at most [n] events that satisfy [f]. *)
Definition at_most {A} (n : nat) (f : event -> bool) (m : M W A) : Prop :=
  forall st, (count f (emitted (m st)) <= n)%nat.

(** [m] returns a value in [Q]. *)
Definition total {A} (m : M W A) (Q : A -> Prop) : Prop :=
  hoare False (fun _ => False) m Q.

(** [m] returns a value in [Q] or raises an exception of class
    [Exception]. *)
Definition guarded {A} (m : M W A) (Q : A -> Prop) : Prop :=
  hoare False (fun e => is_Exception e = true) m Q.

(** An outcome that is a value or an exception outside the class
    [Exception], that is, a keyboard interrupt. *)
Definition faultless {A} (o : outcome A) : Prop :=
  match o with
  | Ret _ => True
  | Raise e => is_Exception e = false
  | Diverge => False
  end.

(** An optional name that, when present, is in lower case. *)
Definition lowered (v : option pystr) : Prop :=
  forall n, v = Some n -> lower n = n.

Definition leaving {A} (Q : A -> Prop) (f : flow A) : Prop :=
  match f with
  | Next => True
  | Stop a => Q a
  end.

End Specs.

(* ---------------------------------------------------------------- *)
(** *** Assumptions on the environment *)

Section Assumptions.
Variable W : Type.
Variable respond : forall T, call T -> W -> reply T * W.

(** The clock, the file system probe and [time.sleep] return
    normally; the clock never runs backwards and [time.sleep(d)]
    lets at least [d] seconds pass. *)
Definition well_timed (clock : W -> Z) : Prop :=
  (forall w, exists w',
       respond Time w = (Returns (clock w'), w')
       /\ (clock w <= clock w')%Z)
  /\ (forall p w, exists b w',
         respond (PathExists p) w = (Returns b, w')
         /\ (clock w <= clock w')%Z)
  /\ (forall d w, exists w',
         respond (Sleep d) w = (Returns tt, w')
         /\ (clock w + d <= clock w')%Z).

(** No call is interrupted from the keyboard. *)
Definition no_interrupt : Prop :=
  forall T (c : call T) w, fst (respond c w) <> Raises KeyboardInterrupt.

End Assumptions.

(* ---------------------------------------------------------------- *)
(** *** Scripted environments

    A scripted environment keeps a clock, advanced by [time.sleep]
    only.  The search box is element 1, the result rows are
    [rows], the page body is element 30. *)

Record script := {
  keywords_in_csv : list pystr;
  rows : list handle;
(** clock value from which the downloaded file is on disk *)
file_appears_at : option Z;
(** the context menu has the item [data-testid='download-menu-item'] *)
menu_item : bool;
(** the file view has a download button *)
view_button : bool;
back_fails : bool;
name_element : string -> reply handle;
text_of : handle -> reply pystr
}.

Definition scripted (s : script) (T : Type) (c : call T) (w : Z)
  : reply T * Z :=
  match c in call T return reply T * Z with
  | ReadCsvColumn _ _ => (Returns (keywords_in_csv s), w)
  | Makedirs _ => (Returns tt, w)
  | Chrome _ => (Returns tt, w)
  | MaximizeWindow => (Returns tt, w)
  | Get _ => (Returns tt, w)
  | Input _ => (Returns tt, w)
  | WaitAnyPresent _ => (Returns tt, w)
  | WaitClickable _ => (Returns 1%nat, w)
  | FindElement Page CSS_SELECTOR selector =>
      (if menu_item s
          && String.eqb selector "[data-testid='download-menu-item']"
       then Returns 20%nat else Raises NoSuchElementException, w)
  | FindElement Page XPATH selector =>
      (if view_button s && String.eqb selector download_btn_xpath
       then Returns 21%nat else Raises NoSuchElementException, w)
  | FindElement Page TAG_NAME _ => (Returns 30%nat, w)
  | FindElement (Within _) CSS_SELECTOR selector => (name_element s selector, w)
  | FindElement (Within _) _ _ => (Raises NoSuchElementException, w)
  | FindElements _ selector =>
      (Returns (if String.eqb selector "[data-testid='virtual-list-item']"
                then rows s else []), w)
  | Click _ => (Returns tt, w)
  | ExecuteScriptClick _ => (Returns tt, w)
  | ContextClick _ => (Returns tt, w)
  | DoubleClick _ => (Returns tt, w)
  | Clear _ => (Returns tt, w)
  | SendKeys _ _ => (Returns tt, w)
  | ElementText h => (text_of s h, w)
  | GetAttribute _ _ => (Returns None, w)
  | Back =>
      (if back_fails s then Raises WebDriverException else Returns tt, w)
  | Quit => (Returns tt, w)
  | PathExists p =>
      (Returns (if endswith p (lit ".crdownload") then false
                else match file_appears_at s with
                     | Some t => (t <=? w)%Z
                     | None => false
                     end), w)
  | Time => (Returns w, w)
  | Sleep d => (Returns tt, (w + d)%Z)
  end.

(** [os.path.join] with the separator of the configured folder. *)
Definition join_backslash (folder name : pystr) : pystr :=
  folder ++ "\"%char :: name.

Definition start_state (keyword : pystr) : state Z :=
  {| world := 0%Z;
     self := {| keyword := keyword; download_folder := lit "E:\dropbox";
                delay := 3; driver := true |} |}.

(** One row named [report_jan.cwa] under the first name selector. *)
Definition one_row : script :=
  {| keywords_in_csv := [lit "report_jan.cwa"];
     rows := [10%nat];
     file_appears_at := None;
     menu_item := false;
     view_button := false;
     back_fails := false;
     name_element := fun selector =>
       if String.eqb selector ".brws-file-name-cell-filename"
       then Returns 11%nat else Raises NoSuchElementException;
     text_of := fun _ => Returns (lit " Report_Jan.CWA ") |}.

(** The file is on disk from second 2 on; the context menu offers the
    download item. *)
Definition appears_at_2 : script :=
  {| keywords_in_csv := keywords_in_csv one_row; rows := rows one_row;
     file_appears_at := Some 2%Z; menu_item := true;
     view_button := false; back_fails := false;
     name_element := name_element one_row; text_of := text_of one_row |}.

(** The file never appears and no download control is found. *)
Definition never_appears : script := one_row.

(** No context-menu item; the file view opens but has no download
    button. *)
Definition view_without_button : script := one_row.

(** No context-menu item; the download through the file view is on
    disk at once, and [driver.back()] then fails. *)
Definition back_fails_after_download : script :=
  {| keywords_in_csv := keywords_in_csv one_row; rows := rows one_row;
     file_appears_at := Some 0%Z; menu_item := false;
     view_button := true; back_fails := true;
     name_element := name_element one_row; text_of := text_of one_row |}.

(** No context-menu item; the file view has a download button, and the
    file never appears. *)
Definition button_but_no_file : script :=
  {| keywords_in_csv := keywords_in_csv one_row; rows := rows one_row;
     file_appears_at := None; menu_item := false;
     view_button := true; back_fails := false;
     name_element := name_element one_row; text_of := text_of one_row |}.

(** The context menu has its download item, and the file never
    appears. *)
Definition item_but_no_file : script :=
  {| keywords_in_csv := keywords_in_csv one_row; rows := rows one_row;
     file_appears_at := None; menu_item := true;
     view_button := false; back_fails := false;
     name_element := name_element one_row; text_of := text_of one_row |}.

(** The first name selector resolves to element 11, whose text cannot
    be read; the second resolves to element 12. *)
Definition stale_first_name : script :=
  {| keywords_in_csv := keywords_in_csv one_row; rows := rows one_row;
     file_appears_at := None; menu_item := false;
     view_button := false; back_fails := false;
     name_element := fun selector =>
       if String.eqb selector ".brws-file-name-cell-filename"
       then Returns 11%nat
       else if String.eqb selector ".file-name" then Returns 12%nat
       else Raises NoSuchElementException;
     text_of := fun h =>
       if Nat.eqb h 11 then Raises StaleElementReferenceException
       else Returns (lit "report_jan.cwa") |}.

(** A row whose name does not end in [.cwa]. *)
Definition notes_row : script :=
  {| keywords_in_csv := [lit "notes.txt"]; rows := [10%nat];
     file_appears_at := None; menu_item := true;
     view_button := true; back_fails := false;
     name_element := name_element one_row;
     text_of := fun _ => Returns (lit "Notes.TXT") |}.

(** A row under which no name selector resolves; the attributes are
    all absent. *)
Definition nameless_row : script :=
  {| keywords_in_csv := keywords_in_csv one_row; rows := rows one_row;
     file_appears_at := Some 0%Z; menu_item := true;
     view_button := true; back_fails := false;
     name_element := fun _ => Raises NoSuchElementException;
     text_of := text_of one_row |}.

(** The environment of [one_row] in which the search box cannot be
    cleared. *)
Definition clear_fails (T : Type) (c : call T) (w : Z) : reply T * Z :=
  match c in call T return reply T * Z with
  | Clear _ => (Raises WebDriverException, w)
  | c' => scripted one_row c' w
  end.

(** The environment of [one_row] in which the search box does not
    appear after the login. *)
Definition login_times_out (T : Type) (c : call T) (w : Z) : reply T * Z :=
  match c in call T return reply T * Z with
  | WaitAnyPresent _ => (Raises TimeoutException, w)
  | c' => scripted one_row c' w
  end.

(** The environment of [one_row] in which the context click on a row
    fails. *)
Definition context_click_faults (T : Type) (c : call T) (w : Z)
  : reply T * Z :=
  match c in call T return reply T * Z with
  | ContextClick _ => (Raises WebDriverException, w)
  | c' => scripted one_row c' w
  end.

(** The environment of [appears_at_2] in which the lookup of the first
    item of the context menu fails with a fault of the driver and the
    third selector finds the item. *)
Definition menu_lookup_faults (T : Type) (c : call T) (w : Z)
  : reply T * Z :=
  match c in call T return reply T * Z with
  | FindElement Page CSS_SELECTOR selector =>
      (if String.eqb selector "[data-testid='download-menu-item']"
       then Raises WebDriverException
       else if String.eqb selector ".download-option"
            then Returns 20%nat
            else Raises NoSuchElementException, w)
  | c' => scripted appears_at_2 c' w
  end.

(** Seven rows, all named [report_jan.cwa]. *)
Definition seven_rows : script :=
  {| keywords_in_csv := keywords_in_csv one_row;
     rows := [10; 11; 12; 13; 14; 15; 16]%nat;
     file_appears_at := Some 0%Z; menu_item := true;
     view_button := false; back_fails := false;
     name_element := name_element one_row; text_of := text_of one_row |}.

(* ---------------------------------------------------------------- *)
(** *** The module-level function [run] (lines 409-423)

    [run] is bound in the module like [cleanup], and nothing calls it.
    Its two handlers are the clauses of one [try]: the first takes
    [KeyboardInterrupt], the second every exception of class
    [Exception]. *)

Section Run.
Variable W : Type.
Variable respond : forall T, call T -> W -> reply T * W.
Variable os_path_join : pystr -> pystr -> pystr.

Definition run (fuel : nat) : M W unit :=
  try_except (fun _ => true)
    (bind (log INFO "Starting search for keyword: {self.keyword}" [])
       (fun _ =>
          bind (search_and_download respond os_path_join fuel)
            (fun ok =>
               if ok : bool
               then log INFO "Keyword processed successfully" []
               else log ERROR "Keyword processing failed" [])))
    (fun e =>
       match e with
       | KeyboardInterrupt => log INFO "Process interrupted by user" []
       | _ => log ERROR "Unexpected error: {}" [AExn e]
       end).

End Run.

(* ---------------------------------------------------------------- *)
(** *** More observations and specifications *)

(** The path [verify_download] polls for a file name. *)
Definition expected_path (os_path_join : pystr -> pystr -> pystr)
           (i : instance) (file_name : pystr) : pystr :=
  os_path_join (download_folder i)
               (name_of (sanitize_filename (Some file_name))).

(** [os.path.exists(p)] answered [True]. *)
Definition saw_file (p : pystr) (e : event) : bool :=
  match poll_reply p e with
  | Some true => true
  | _ => false
  end.

(** Some poll of the path expected for [file_name] saw the file. *)
Definition verified (os_path_join : pystr -> pystr -> pystr)
           (file_name : pystr) (i : instance) (evs : list event) : Prop :=
  existsb (saw_file (expected_path os_path_join i file_name)) evs = true.

(** The folder an event names: the directory given to Chrome or to
    [os.makedirs], the directory of a path polled. *)
Definition in_folder (os_path_join : pystr -> pystr -> pystr)
           (folder : pystr) (e : event) : Prop :=
  match e with
  | Called c _ =>
      match c with
      | Chrome d => d = folder
      | Makedirs d => d = folder
      | PathExists p =>
          exists name,
            p = os_path_join folder name
            \/ p = (os_path_join folder name ++ lit ".crdownload")%list
      | _ => True
      end
  | _ => True
  end.

(** The keyword named by a closing record of the keyword loop
    (lines 458, 460 and 466). *)
Definition keyword_logged (e : event) : option pystr :=
  match e with
  | Logged _ template args =>
      if String.eqb template "Successfully processed keyword: {}"
         || String.eqb template "Failed to process keyword: {}"
         || String.eqb template "Error processing keyword '{}': {}"
      then match args with
           | AStr kw :: _ => Some kw
           | _ => None
           end
      else None
  | _ => None
  end.

Definition is_error_log (e : event) : Prop :=
  match e with
  | Logged ERROR _ _ => True
  | _ => False
  end.

(** The record of line 268: attempt [attempt] on file [index + 1]
    failed with the exception [x]. *)
Definition attempt_fault_record (attempt index : Z)
           (sanitized_file_name : option pystr) (x : exn) : event :=
  Logged WARNING "Download attempt {} failed for file {} ({}): {}"
         [AInt attempt; AInt (index + 1)%Z; AName sanitized_file_name;
          AExn x].

(** The warnings by which an attempt tells that it failed: the record
    of line 268 and the two of the file view (lines 261 and 265). *)
Definition is_attempt_warning (e : event) : bool :=
  match e with
  | Logged WARNING template _ =>
      String.eqb template "Download attempt {} failed for file {} ({}): {}"
      || String.eqb template
           "Download verification failed for {} via file view on attempt {}"
      || String.eqb template "Could not download via file view on attempt {}"
  | _ => false
  end.

(** A pass of a loop that fell through to the next item. *)
Definition fell_through {A} (f : flow A) : bool :=
  match f with
  | Next => true
  | Stop _ => false
  end.

(** The records written, by level and template. *)
Definition records (evs : list event) : list (level * string) :=
  collect (fun e => match e with
                    | Logged lvl template _ => Some (lvl, template)
                    | _ => None
                    end) evs.

(** The call [e] raised the exception [x]. *)
Definition is_raised_by (x : exn) (e : event) : Prop :=
  exists T (c : call T), e = Called c (Raises x).

(** The last event of [search_and_download] by the value returned. *)
Definition search_report (b : bool) (e : event) : Prop :=
  if b
  then (exists kw, e = Logged WARNING "No files found for keyword: {}"
                              [AStr kw])
       \/ (exists kw n,
              (0 <= n <= 5)%Z
              /\ e = Logged INFO
                       "Completed search for '{}': {} .cwa downloads initiated"
                       [AStr kw; AInt n])
  else is_error_log e.

(** What one pass of the loop over [file_selectors] emits when it
    yields no rows: the query raises, or it returns the empty list. *)
Definition rows_probe_missed (selector : string) (evs : list event)
  : Prop :=
  (exists e, evs = [Called (FindElements CSS_SELECTOR selector) (Raises e)])
  \/ evs = [Called (FindElements CSS_SELECTOR selector) (Returns [])].

Definition rows_probe_hit (selector : string) (found : list handle)
           (evs : list event) : Prop :=
  found <> []
  /\ evs = [Called (FindElements CSS_SELECTOR selector) (Returns found);
            Logged INFO "Found files using selector: {}" [AText selector]].

(** The run of the loop of lines 314-322: misses for the selectors
    before the first whose query returns rows, then that query and the
    record of its selector; or a miss for every selector, each once and
    in order, and no rows. *)
Definition rows_located (o : outcome (list handle)) (evs : list event)
  : Prop :=
  (exists pre selector post found misses hit,
      file_selectors = pre ++ selector :: post
      /\ Forall2 rows_probe_missed pre misses
      /\ rows_probe_hit selector found hit
      /\ o = Ret found
      /\ evs = List.concat misses ++ hit)
  \/ (exists misses,
         Forall2 rows_probe_missed file_selectors misses
         /\ o = Ret []
         /\ evs = List.concat misses).

(** The four records [run] may end on. *)
Definition run_report (e : event) : Prop :=
  e = Logged INFO "Keyword processed successfully" []
  \/ e = Logged ERROR "Keyword processing failed" []
  \/ e = Logged INFO "Process interrupted by user" []
  \/ exists x, e = Logged ERROR "Unexpected error: {}" [AExn x].

(** The last event of [login_to_dropbox] by the value returned. *)
Definition login_report (b : bool) (e : event) : Prop :=
  if b
  then e = Logged INFO "Successfully logged in to Dropbox" []
  else is_error_log e.

(** The last event of [clear_search_context] by the value returned. *)
Definition clear_report (b : bool) (e : event) : Prop :=
  if b
  then e = Called (Sleep 1) (Returns tt)
  else exists t args, e = Logged WARNING t args.

(** What [login_to_dropbox] emits up to the prompt. *)
Definition login_preamble : list event :=
  [Called (Get "https://www.dropbox.com/login") (Returns tt);
   Logged INFO "Navigated to Dropbox login page" [];
   Printed "{}{}" [AText (String (ascii_of_nat 10) ""); AText rule60];
   Printed "MANUAL LOGIN REQUIRED" [];
   Printed "{}" [AText rule60];
   Printed "1. Complete the SSO login process in the browser window" [];
   Printed "2. Make sure you reach the main Dropbox interface" [];
   Printed "3. Press ENTER in this console when login is complete..." [];
   Printed "{}" [AText rule60]].

(** The five lines the main block prints for an exception. *)
Definition error_report (e : exn) : list event :=
  [Printed "Error: {}" [AExn e];
   Printed "{}Make sure you have:" [AText (String (ascii_of_nat 10) "")];
   Printed "1. Installed the required packages: pip install selenium pandas" [];
   Printed "2. ChromeDriver is installed and in your PATH" [];
   Printed "3. Provided the correct CSV file path with a 'filename' column" []].

Section MoreSpecs.
Variable W : Type.

(** [m] leaves the fields of the instance as they were. *)
Definition keeps {A} (m : M W A) : Prop :=
  forall st, self (final (m st)) = self st.

(** [m] keeps the fields of the instance, and when it returns a value
    accepted by [S] what it emitted satisfies [V]. *)
Definition yields {A} (V : instance -> list event -> Prop) (S : A -> bool)
           (m : M W A) : Prop :=
  forall st,
    self (final (m st)) = self st
    /\ (forall a, res (m st) = Ret a -> S a = true ->
                  V (self st) (emitted (m st))).

Definition stops {A} (S : A -> bool) (f : flow A) : bool :=
  match f with
  | Stop a => S a
  | Next => false
  end.

(** When [m] returns [a], what it emitted is in [R a]. *)
Definition reports {A} (R : A -> list event -> Prop) (m : M W A) : Prop :=
  forall st a, res (m st) = Ret a -> R a (emitted (m st)).

(** The last event of [evs] is in [P]. *)
Definition last_is (P : event -> Prop) (evs : list event) : Prop :=
  exists pre l, evs = (pre ++ [l])%list /\ P l.

(** When [m] returns [a], the last event it emitted is in [R a]. *)
Definition ends {A} (R : A -> event -> Prop) (m : M W A) : Prop :=
  reports (fun a => last_is (R a)) m.

(** A loop body or a loop that leaves with [a] has just emitted an
    event in [R a]. *)
Definition stopped {A} (R : A -> event -> Prop) (f : flow A)
           (evs : list event) : Prop :=
  match f with
  | Stop a => last_is (R a) evs
  | Next => True
  end.

(** From a state whose download folder is [F], [m] leaves the folder in
    place and every event it emits satisfies [P]. *)
Definition within (F : pystr) (P : event -> Prop) {A} (m : M W A) : Prop :=
  forall st,
    download_folder (self st) = F ->
    download_folder (self (final (m st))) = F
    /\ Forall P (emitted (m st)).

End MoreSpecs.

End Downloader.
Import Downloader.

(* ================================================================== *)
(** * Properties of the sanitizer *)

Section StringFacts.

Lemma ascii_eqb_eq (a b : ascii) : ascii_eqb a b = true <-> a = b.
Proof.
  unfold ascii_eqb, code. rewrite N.eqb_eq. split.
  - intro H. rewrite <- (ascii_N_embedding a), <- (ascii_N_embedding b).
    now rewrite H.
  - now intros ->.
Qed.

Lemma eqb_eq (a b : pystr) : eqb a b = true <-> a = b.
Proof.
  revert b. induction a as [|x a IH]; intros [|y b]; simpl;
    try (split; [discriminate | discriminate]); try (split; reflexivity).
  rewrite andb_true_iff, ascii_eqb_eq, IH. split.
  - now intros [-> ->].
  - intros [= -> ->]. now split.
Qed.

Lemma eqb_refl (a : pystr) : eqb a a = true.
Proof. now apply eqb_eq. Qed.

Lemma eqb_neq (a b : pystr) : a <> b -> eqb a b = false.
Proof.
  intro H. destruct (eqb a b) eqn:E; [|reflexivity].
  apply eqb_eq in E. contradiction.
Qed.

(** Checking a decidable fact on each of the 256 characters. *)
Ltac each_char c :=
  destruct c as [[] [] [] [] [] [] [] []]; vm_compute;
  try reflexivity; try discriminate; try tauto.

Lemma lower_char_idem c : lower_char (lower_char c) = lower_char c.
Proof. each_char c. Qed.

Lemma lower_idem s : lower (lower s) = lower s.
Proof.
  unfold lower. rewrite map_map. apply map_ext. apply lower_char_idem.
Qed.

Lemma lower_char_comma c : lower_char c = ","%char -> c = ","%char.
Proof. each_char c. Qed.

Lemma replace_char_space c : isspace (replace_char c) = isspace c.
Proof. each_char c. Qed.

Lemma replace_char_not_comma c : replace_char c <> ","%char.
Proof. each_char c. Qed.

Lemma replace_char_idem c : replace_char (replace_char c) = replace_char c.
Proof. each_char c. Qed.

Lemma lstrip_split s :
  exists pre, s = pre ++ lstrip s /\ forallb isspace pre = true.
Proof.
  induction s as [|c s [pre [E F]]]; simpl.
  - now exists [].
  - destruct (isspace c) eqn:Hc.
    + exists (c :: pre). simpl. rewrite Hc, F. split; [now f_equal|easy].
    + now exists [].
Qed.

Lemma lstrip_head s c : hd_error (lstrip s) = Some c -> isspace c = false.
Proof.
  induction s as [|x s IH]; simpl; [discriminate|].
  destruct (isspace x) eqn:Hx; [exact IH|].
  simpl. now intros [= <-].
Qed.

Lemma lstrip_fixed s :
  (forall c, hd_error s = Some c -> isspace c = false) -> lstrip s = s.
Proof.
  destruct s as [|x s]; simpl; [reflexivity|].
  intro H. now rewrite (H x eq_refl).
Qed.

Lemma forallb_rev {A} (f : A -> bool) l :
  forallb f l = true -> forallb f (rev l) = true.
Proof.
  rewrite !forallb_forall. intros H x Hx. apply H. now apply in_rev.
Qed.

Lemma rstrip_split s :
  exists post, s = rstrip s ++ post /\ forallb isspace post = true.
Proof.
  unfold rstrip. destruct (lstrip_split (rev s)) as [pre [E F]].
  exists (rev pre). split; [|now apply forallb_rev].
  rewrite <- rev_app_distr, <- E. now rewrite rev_involutive.
Qed.

Lemma hd_error_app {A} (l l' : list A) c :
  hd_error l = Some c -> hd_error (l ++ l') = Some c.
Proof. now destruct l. Qed.

Lemma strip_trimmed t : trimmed t (strip t).
Proof.
  unfold strip.
  destruct (lstrip_split t) as [pre [E F]].
  destruct (rstrip_split (lstrip t)) as [post [E' F']].
  exists pre, post. repeat split; trivial.
  - now rewrite <- E'.
  - intros c Hc. apply (lstrip_head t). rewrite E'. now apply hd_error_app.
  - intros c. unfold rstrip. rewrite rev_involutive. apply lstrip_head.
Qed.

Lemma rstrip_fixed s :
  (forall c, hd_error (rev s) = Some c -> isspace c = false) ->
  rstrip s = s.
Proof.
  intro H. unfold rstrip. rewrite (lstrip_fixed _ H). apply rev_involutive.
Qed.

Lemma trimmed_fixed t r : trimmed t r -> strip r = r.
Proof.
  intros (pre & post & _ & _ & _ & Hh & Hl).
  unfold strip. rewrite (lstrip_fixed _ Hh). now apply rstrip_fixed.
Qed.

Lemma trimmed_incl t r : trimmed t r -> incl r t.
Proof.
  intros (pre & post & -> & _) x Hx.
  apply in_or_app. right. apply in_or_app. now left.
Qed.

Lemma re_sub_replaced s : replaced s (re_sub s).
Proof.
  unfold replaced, re_sub. induction s; simpl; constructor; trivial.
Qed.

Lemma re_sub_fixed s :
  (forall c, In c s -> replace_char c = c) -> re_sub s = s.
Proof.
  intro H. unfold re_sub. rewrite <- (map_id s) at 2.
  now apply map_ext_in.
Qed.

Lemma legacy_has_comma s : lower s = legacy_lowered -> In ","%char s.
Proof.
  intro H.
  assert (Hin : In ","%char (lower s)) by (rewrite H; vm_compute; tauto).
  unfold lower in Hin. apply in_map_iff in Hin as (c & Hc & Hin).
  now rewrite <- (lower_char_comma _ Hc).
Qed.

Lemma lower_legacy_name : lower legacy_name = legacy_lowered.
Proof. reflexivity. Qed.

(** What the general branch returns is left alone by a second pass. *)
Lemma general_branch_fixed s :
  let r := strip (re_sub s) in
  eqb (lower r) legacy_lowered = false /\ strip (re_sub r) = r.
Proof.
  intro r.
  assert (T : trimmed (re_sub s) r) by apply strip_trimmed.
  assert (Hin : forall c, In c r -> exists d, c = replace_char d).
  { intros c Hc. apply (trimmed_incl T) in Hc. unfold re_sub in Hc.
    apply in_map_iff in Hc as (d & <- & _). now exists d. }
  split.
  - apply eqb_neq. intro H. apply legacy_has_comma in H.
    destruct (Hin _ H) as [d Hd]. symmetry in Hd.
    now apply replace_char_not_comma in Hd.
  - rewrite re_sub_fixed.
    + exact (trimmed_fixed T).
    + intros c Hc. destruct (Hin _ Hc) as [d ->]. apply replace_char_idem.
Qed.

End StringFacts.

(** C1. An input equal to the legacy name up to case is mapped to the
    fixed target; every other non-empty input is mapped to the input
    with each forbidden character replaced by an underscore and the
    leading and trailing whitespace removed. *)
Theorem sanitize_filename_spec (name : pystr) :
  (eq_nocase name legacy_name ->
   sanitize_filename (Some name) = Some legacy_target)
  /\ (name <> [] -> ~ eq_nocase name legacy_name ->
      exists t r,
        sanitize_filename (Some name) = Some r
        /\ replaced name t /\ trimmed t r).
Proof.
  unfold eq_nocase. rewrite lower_legacy_name. split.
  - intro H. destruct name as [|c name]; [discriminate|].
    unfold sanitize_filename. simpl truthy. cbv iota beta. simpl negb.
    cbv iota. now rewrite H, eqb_refl.
  - intros Hne H. destruct name as [|c name]; [contradiction|].
    exists (re_sub (c :: name)), (strip (re_sub (c :: name))).
    split; [|split; [apply re_sub_replaced | apply strip_trimmed]].
    unfold sanitize_filename. simpl truthy. simpl negb. cbv iota.
    now rewrite (eqb_neq H).
Qed.

Lemma sanitize_filename_spec_witness :
  sanitize_filename (Some (lit "file, f1-00094_76399_0000000000_ssr.CWA"))
  = Some legacy_target
  /\ exists t r,
      sanitize_filename (Some (lit " a<b>,c.cwa  ")) = Some r
      /\ replaced (lit " a<b>,c.cwa  ") t /\ trimmed t r.
Proof.
  split.
  - apply (proj1 (sanitize_filename_spec _)). reflexivity.
  - apply (proj2 (sanitize_filename_spec _)); vm_compute; discriminate.
Defined.

(** C6, as the code has it.  A second pass of the sanitizer leaves the
    result of the first unchanged whenever that result is not the empty
    string; this covers the result of the legacy rule and [None]. *)
Theorem sanitize_filename_idempotent (filename : option pystr) :
  sanitize_filename filename <> Some [] ->
  sanitize_filename (sanitize_filename filename) = sanitize_filename filename.
Proof.
  destruct filename as [[|c name]|]; try (intros _; reflexivity).
  unfold sanitize_filename at 1 3 4. simpl truthy. simpl negb. cbv iota.
  destruct (eqb (lower (c :: name)) legacy_lowered); [intros _; reflexivity|].
  intro Hne.
  destruct (general_branch_fixed (c :: name)) as [Hl Hf].
  destruct (strip (re_sub (c :: name))) as [|d r] eqn:E; [contradiction|].
  unfold sanitize_filename. simpl truthy. simpl negb. cbv iota.
  now rewrite Hl, Hf.
Qed.

Lemma sanitize_filename_idempotent_witness :
  sanitize_filename (sanitize_filename (Some (lit " a<b>,c.cwa  ")))
  = sanitize_filename (Some (lit " a<b>,c.cwa  ")).
Proof.
  apply sanitize_filename_idempotent. vm_compute. discriminate.
Defined.

(** C6, as stated, fails on a name made of whitespace: the first pass
    returns the empty string, which the second pass maps to [None]. *)
Lemma sanitize_filename_not_idempotent :
  sanitize_filename (Some (lit "  ")) = Some []
  /\ sanitize_filename (sanitize_filename (Some (lit "  ")))
     <> sanitize_filename (Some (lit "  ")).
Proof. split; [reflexivity | vm_compute; discriminate]. Qed.

(* ================================================================== *)
(** * Reasoning about computations *)

Section Rules.
Variable W : Type.
Variable respond : forall T, call T -> W -> reply T * W.

(** ** Events *)

Lemma emits_ret {A} P (a : A) : emits P (@ret W A a).
Proof. intro st. constructor. Qed.

Lemma emits_raise {A} P e : emits P (@raise W A e).
Proof. intro st. constructor. Qed.

Lemma emits_diverge {A} P : emits P (@diverge W A).
Proof. intro st. constructor. Qed.

Lemma emits_get_self P : emits P (@get_self W).
Proof. intro st. constructor. Qed.

Lemma emits_set_self P i : emits P (@set_self W i).
Proof. intro st. constructor. Qed.

Lemma emits_log (P : event -> Prop) lvl t args :
  P (Logged lvl t args) -> emits P (@log W lvl t args).
Proof. intros H st. simpl. auto. Qed.

Lemma emits_print (P : event -> Prop) t args :
  P (Printed t args) -> emits P (@print W t args).
Proof. intros H st. simpl. auto. Qed.

Lemma emits_call {T} (P : event -> Prop) (c : call T) :
  (forall r, P (Called c r)) -> emits P (do_call respond c).
Proof.
  intros H st. unfold do_call. destruct (respond c (world st)). simpl. auto.
Qed.

Lemma emits_bind {A B} P (m : M W A) (f : A -> M W B) :
  emits P m -> (forall a, emits P (f a)) -> emits P (bind m f).
Proof.
  intros Hm Hf st. unfold bind. specialize (Hm st).
  destruct (res (m st)); simpl; trivial.
  apply Forall_app. split; [trivial | apply Hf].
Qed.

Lemma emits_bind_raise {A B} P e (f : A -> M W B) :
  emits P (bind (raise e) f).
Proof. intro st. constructor. Qed.

Lemma emits_try {A} P catch (m : M W A) h :
  emits P m -> (forall e, emits P (h e)) -> emits P (try_except catch m h).
Proof.
  intros Hm Hh st. unfold try_except. specialize (Hm st).
  destruct (res (m st)); simpl; trivial.
  destruct (catch e); simpl; trivial.
  apply Forall_app. split; [trivial | apply Hh].
Qed.

Lemma emits_finally {A} P (m : M W A) fin :
  emits P m -> emits P fin -> emits P (try_finally m fin).
Proof.
  intros Hm Hf st. unfold try_finally. specialize (Hm st).
  destruct (res (m st)); simpl; trivial;
    apply Forall_app; (split; [trivial | apply Hf]).
Qed.

Lemma emits_for_each {X A} P (xs : list X) (body : X -> M W (flow A)) :
  (forall x, emits P (body x)) -> emits P (for_each xs body).
Proof.
  intro H. induction xs as [|x xs IH]; simpl.
  - apply emits_ret.
  - apply emits_bind; [apply H|]. intros [|a]; [exact IH | apply emits_ret].
Qed.

Lemma emits_weaken {A} (P Q : event -> Prop) (m : M W A) :
  emits P m -> (forall e, P e -> Q e) -> emits Q m.
Proof. intros H HPQ st. eapply Forall_impl; [exact HPQ | apply H]. Qed.

(** ** Outcomes *)

Lemma hoare_ret {A} D E (Q : A -> Prop) a : Q a -> hoare D E (@ret W A a) Q.
Proof. intros H st. exact H. Qed.

Lemma hoare_raise {A} D (E : exn -> Prop) (Q : A -> Prop) e :
  E e -> hoare D E (@raise W A e) Q.
Proof. intros H st. exact H. Qed.

Lemma hoare_diverge {A} (D : Prop) E (Q : A -> Prop) :
  D -> hoare D E (@diverge W A) Q.
Proof. intros H st. exact H. Qed.

Lemma hoare_log D E lvl t args :
  hoare D E (@log W lvl t args) (fun _ => True).
Proof. intro st. exact I. Qed.

Lemma hoare_get_self D E : hoare D E (@get_self W) (fun _ => True).
Proof. intro st. exact I. Qed.

Lemma hoare_set_self D E i : hoare D E (@set_self W i) (fun _ => True).
Proof. intro st. exact I. Qed.

Lemma hoare_bind {A B} D E (m : M W A) (f : A -> M W B) Q1 Q :
  hoare D E m Q1 -> (forall a, Q1 a -> hoare D E (f a) Q) ->
  hoare D E (bind m f) Q.
Proof.
  intros Hm Hf st. unfold bind. specialize (Hm st).
  destruct (res (m st)); simpl; trivial. now apply Hf.
Qed.

Lemma hoare_try {A} D (E1 E : exn -> Prop) (catch : exn -> bool)
      (m : M W A) (h : exn -> M W A) Q :
  hoare D E1 m Q ->
  (forall e, E1 e -> if catch e then hoare D E (h e) Q else E e) ->
  hoare D E (try_except catch m h) Q.
Proof.
  intros Hm Hh st. unfold try_except. specialize (Hm st).
  destruct (res (m st)) as [a|e|] eqn:R; simpl; try now rewrite R.
  specialize (Hh e Hm). destruct (catch e); [apply Hh | now rewrite R].
Qed.

Lemma hoare_weaken {A} (D D' : Prop) (E E' : exn -> Prop) (m : M W A)
      (Q Q' : A -> Prop) :
  hoare D E m Q -> (D -> D') -> (forall e, E e -> E' e) ->
  (forall a, Q a -> Q' a) -> hoare D' E' m Q'.
Proof.
  intros H HD HE HQ st. specialize (H st). destruct (res (m st)); auto.
Qed.

Lemma hoare_call {T} D (c : call T) :
  hoare D (fun _ => True) (do_call respond c) (fun _ => True).
Proof.
  intro st. unfold do_call. destruct (respond c (world st)) as [[v|e] w];
    exact I.
Qed.

Lemma hoare_call_guarded {T} D (c : call T) :
  no_interrupt respond ->
  hoare D (fun e => is_Exception e = true) (do_call respond c)
        (fun _ => True).
Proof.
  intros NI st. unfold do_call. specialize (NI T c (world st)).
  destruct (respond c (world st)) as [[v|e] w]; simpl in *; [exact I|].
  destruct e; trivial. now contradiction NI.
Qed.

Lemma hoare_for_each {X A} D E (xs : list X) (body : X -> M W (flow A)) Q :
  (forall x, hoare D E (body x) (leaving Q)) ->
  hoare D E (for_each xs body) (leaving Q).
Proof.
  intro H. induction xs as [|x xs IH]; simpl.
  - now apply hoare_ret.
  - eapply hoare_bind; [apply H|]. intros [|a] Ha; [exact IH|].
    now apply hoare_ret.
Qed.

(** A [try] with a bare [except:] whose handler returns is total. *)
Lemma total_try_all {A} (m : M W A) h Q :
  hoare False (fun _ => True) m Q -> (forall e, total (h e) Q) ->
  total (try_except_all m h) Q.
Proof.
  intros Hm Hh. eapply hoare_try; [exact Hm|]. intros e _. apply Hh.
Qed.

(** A [try] with [except Exception] whose handler returns is total when
    the body raises nothing else. *)
Lemma total_try_Exception {A} (m : M W A) h Q :
  guarded m Q -> (forall e, total (h e) Q) ->
  total (try_except_Exception m h) Q.
Proof.
  intros Hm Hh. eapply hoare_try; [exact Hm|]. intros e He. simpl in He.
  rewrite He. apply Hh.
Qed.

Lemma total_any {A} D E (m : M W A) Q : total m Q -> hoare D E m Q.
Proof. intro H. eapply hoare_weaken; [exact H | contradiction | contradiction | trivial]. Qed.

Lemma total_true {A} (m : M W A) Q : total m Q -> total m (fun _ => True).
Proof. intro H. eapply hoare_weaken; [exact H | contradiction | contradiction | trivial]. Qed.

Lemma total_returns {A} (m : M W A) Q st :
  total m Q -> exists a, res (m st) = Ret a /\ Q a.
Proof.
  intro H. specialize (H st). destruct (res (m st)); try contradiction.
  now exists a.
Qed.

(** ** Unfolding one step *)

Lemma bind_ret_step {A B} (m : M W A) (f : A -> M W B) st a :
  res (m st) = Ret a ->
  res (bind m f st) = res (f a (final (m st)))
  /\ emitted (bind m f st) = emitted (m st) ++ emitted (f a (final (m st)))
  /\ final (bind m f st) = final (f a (final (m st))).
Proof. intro H. unfold bind. now rewrite H. Qed.

Lemma try_ret_step {A} catch (m : M W A) h st a :
  res (m st) = Ret a -> try_except catch m h st = m st.
Proof. intro H. unfold try_except. now rewrite H. Qed.

End Rules.

(* ================================================================== *)
(** * Download verification (lines 178-197) *)

Section Polling.
Variable W : Type.
Variable respond : forall T, call T -> W -> reply T * W.
Variable os_path_join : pystr -> pystr -> pystr.
Variable clock : W -> Z.
Hypothesis timed : well_timed respond clock.

Lemma do_call_eq {T} (c : call T) st r w :
  respond c (world st) = (r, w) ->
  do_call respond c st
  = {| res := outcome_of r;
       final := {| world := w; self := self st |};
       emitted := [Called c r] |}.
Proof. intro H. unfold do_call. now rewrite H. Qed.

Lemma collect_app {A} (f : event -> option A) l l' :
  collect f (l ++ l') = collect f l ++ collect f l'.
Proof.
  induction l as [|e l IH]; simpl; trivial.
  destruct (f e); simpl; now rewrite IH.
Qed.

Lemma count_app f l l' : count f (l ++ l') = (count f l + count f l')%nat.
Proof. unfold count. now rewrite filter_app, length_app. Qed.

Lemma crdownload_differs (p : pystr) :
  eqb (p ++ lit ".crdownload") p = false.
Proof.
  apply eqb_neq. intro H. apply (f_equal (@List.length _)) in H.
  rewrite length_app in H. simpl in H. lia.
Qed.

Lemma prepend_nil {A} (r : result W A) : prepend [] r = r.
Proof. now destruct r. Qed.

Lemma bind_returns {T B} (c : call T) (f : T -> M W B) st v w :
  respond c (world st) = (Returns v, w) ->
  bind (do_call respond c) f st
  = prepend [Called c (Returns v)] (f v {| world := w; self := self st |}).
Proof. intro H. unfold bind. now rewrite (do_call_eq _ H). Qed.

Lemma bind_raises {T B} (c : call T) (f : T -> M W B) st e w :
  respond c (world st) = (Raises e, w) ->
  bind (do_call respond c) f st
  = {| res := Raise e; final := {| world := w; self := self st |};
       emitted := [Called c (Raises e)] |}.
Proof. intro H. unfold bind. now rewrite (do_call_eq _ H). Qed.

Lemma bind_log {B} lvl t args (f : unit -> M W B) st :
  bind (log lvl t args) f st = prepend [Logged lvl t args] (f tt st).
Proof. reflexivity. Qed.

Lemma bind_ret {A B} (a : A) (f : A -> M W B) st :
  bind (ret a) f st = f a st.
Proof. unfold bind. simpl. now destruct (f a st). Qed.

(** The loop: [k] polls that miss the file, each followed by one sleep,
    then either a poll that sees it or a clock reading past the
    timeout. *)
Lemma verify_loop_polls fuel :
  forall p start timeout st r,
    (Z.to_nat (start + timeout - clock (world st)) < fuel)%nat ->
    r = verify_loop respond fuel p start timeout st ->
    exists (b : bool) (k : nat),
      res r = Ret b
      /\ count is_sleep (emitted r) = k
      /\ polls p (emitted r) = repeat false k ++ (if b then [true] else [])
      /\ (k <= Z.to_nat (start + timeout - clock (world st)))%nat
      /\ (b = false ->
          exists ts t, time_readings (emitted r) = ts ++ [t]
                       /\ (timeout <= t - start)%Z).
Proof.
  destruct timed as (HT & HP & HS).
  induction fuel as [|fuel IH]; intros p start timeout st r Hfuel Hr; [lia|].
  destruct (HT (world st)) as (w1 & E1 & L1).
  simpl verify_loop in Hr. rewrite (bind_returns _ _ E1) in Hr.
  set (st1 := {| world := w1; self := self st |}) in Hr.
  destruct (clock w1 - start <? timeout)%Z eqn:Hin.
  - apply Z.ltb_lt in Hin.
    destruct (HP p (world st1)) as (found & w2 & E2 & L2).
    rewrite (bind_returns _ _ E2) in Hr.
    set (st2 := {| world := w2; self := self st1 |}) in Hr.
    destruct found.
    + exists true, 0%nat. subst r. unfold polls, count. cbn.
      rewrite eqb_refl. repeat split; try reflexivity; try lia.
    + destruct (HP (p ++ lit ".crdownload")%list (world st2))
        as (partial & w3 & E3 & L3).
      rewrite (bind_returns _ _ E3) in Hr.
      set (st3 := {| world := w3; self := self st2 |}) in Hr.
      destruct (HS 1%Z (world st3)) as (w4 & E4 & L4).
      set (st4 := {| world := w4; self := self st3 |}).
      assert (Hfuel' :
                (Z.to_nat (start + timeout - clock (world st4)) < fuel)%nat)
        by (cbn in *; lia).
      destruct (IH p start timeout st4 _ Hfuel' eq_refl)
        as (b & k & R & C & P & K & Tm).
      exists b, (S k).
      assert (Hr' : r = prepend
                [Called Time (Returns (clock w1));
                 Called (PathExists p) (Returns false);
                 Called (PathExists (p ++ lit ".crdownload")%list)
                        (Returns partial)]
                (prepend (if partial
                          then [Logged INFO "Download in progress: {}.crdownload"
                                       [AStr p]]
                          else [])
                   (prepend [Called (Sleep 1) (Returns tt)]
                      (verify_loop respond fuel p start timeout st4)))).
      { rewrite Hr. unfold prepend at 1 2 3. cbn [res final emitted].
        destruct partial.
        - rewrite bind_log, (bind_returns _ _ E4). reflexivity.
        - rewrite bind_ret, (bind_returns _ _ E4).
          unfold prepend. cbn [res final emitted app]. reflexivity. }
      rewrite Hr'. unfold prepend. cbn [res final emitted].
      unfold polls, count, time_readings in *.
      rewrite !collect_app, !filter_app, !length_app.
      assert (Hp : collect (poll_reply p)
                     [Called Time (Returns (clock w1));
                      Called (PathExists p) (Returns false);
                      Called (PathExists (p ++ lit ".crdownload")%list)
                             (Returns partial)] = [false]).
      { cbn. now rewrite crdownload_differs, eqb_refl. }
      rewrite Hp, P, C.
      repeat split; trivial.
      * destruct partial; cbn; lia.
      * destruct partial; reflexivity.
      * cbn in *. lia.
      * intro Hb. destruct (Tm Hb) as (ts & t & Ets & Ht).
        exists (clock w1 :: ts), t. rewrite Ets.
        destruct partial; now split.
  - apply Z.ltb_ge in Hin.
    exists false, 0%nat. subst r. cbn.
    repeat split; try reflexivity; try lia.
    intros _. exists [], (clock w1). split; [reflexivity | lia].
Qed.

(** With a name to look for, [verify_download] reads the clock and
    enters the loop. *)
Lemma verify_download_unfold (filename : pystr) (timeout : Z) (fuel : nat)
      (st : state W) :
  truthy (sanitize_filename (Some filename)) = true ->
  exists w1,
    (clock (world st) <= clock w1)%Z
    /\ verify_download respond os_path_join fuel filename timeout st
       = prepend [Called Time (Returns (clock w1))]
           (verify_loop respond fuel
              (os_path_join (download_folder (self st))
                            (name_of (sanitize_filename (Some filename))))
              (clock w1) timeout {| world := w1; self := self st |}).
Proof.
  intro Hs. unfold verify_download. rewrite Hs. cbn [negb].
  destruct timed as (HT & _ & _).
  destruct (HT (world st)) as (w1 & E1 & L1).
  exists w1. split; [exact L1|].
  rewrite <- (bind_returns
                (fun start_time =>
                   verify_loop respond fuel
                     (os_path_join (download_folder (self st))
                        (name_of (sanitize_filename (Some filename))))
                     start_time timeout) _ E1).
  unfold bind at 1. cbn [get_self res final emitted app].
  now destruct (bind _ _ st).
Qed.

(** With more than thirty rounds of fuel every verification made by
    [attempt_download] returns. *)
Lemma total_verify_download fuel filename :
  (30 < fuel)%nat ->
  total (verify_download respond os_path_join fuel filename 30)
        (fun _ => True).
Proof.
  intros Hfuel st.
  destruct (truthy (sanitize_filename (Some filename))) eqn:Hs.
  - destruct (verify_download_unfold filename 30 fuel st Hs) as (w1 & _ & E).
    rewrite E.
    set (st1 := {| world := w1; self := self st |}).
    assert (Hf : (Z.to_nat (clock w1 + 30 - clock (world st1)) < fuel)%nat)
      by (cbn; replace (clock w1 + 30 - clock w1)%Z with 30%Z by lia;
          change (Z.to_nat 30) with 30%nat; lia).
    destruct (@verify_loop_polls fuel
                (os_path_join (download_folder (self st))
                   (name_of (sanitize_filename (Some filename))))
                (clock w1) 30 st1 _ Hf eq_refl)
      as (b & k & R & _).
    cbn [prepend res]. now rewrite R.
  - unfold verify_download. rewrite Hs. exact I.
Qed.

(** C5. With a sanitized name to look for, a clock that advances while
    sleeping and enough fuel for [timeout] rounds, the verification
    returns a boolean after [k] polls that missed the file, each followed
    by one sleep of a second, where [k] is at most [timeout].  It returns
    [True] exactly when the next poll sees the file, at once and without
    a further sleep; it returns [False] when no poll has seen the file
    and the clock reading is [timeout] or more past the first one. *)
Theorem verify_download_polling (filename : pystr) (timeout : Z)
        (fuel : nat) (st : state W) :
  truthy (sanitize_filename (Some filename)) = true ->
  (Z.to_nat timeout < fuel)%nat ->
  let p := os_path_join (download_folder (self st))
                        (name_of (sanitize_filename (Some filename))) in
  let r := verify_download respond os_path_join fuel filename timeout st in
  exists (b : bool) (k : nat),
    res r = Ret b
    /\ count is_sleep (emitted r) = k
    /\ polls p (emitted r) = repeat false k ++ (if b then [true] else [])
    /\ (k <= Z.to_nat timeout)%nat
    /\ (b = false ->
        exists t0 ts t, time_readings (emitted r) = t0 :: ts ++ [t]
                        /\ (timeout <= t - t0)%Z).
Proof.
  intros Hs Hfuel p r. subst r.
  destruct (verify_download_unfold filename timeout fuel st Hs)
    as (w1 & _ & E).
  rewrite E. fold p.
  set (st1 := {| world := w1; self := self st |}).
  assert (Hf : (Z.to_nat (clock w1 + timeout - clock (world st1)) < fuel)%nat)
    by (cbn; replace (clock w1 + timeout - clock w1)%Z with timeout by lia;
        exact Hfuel).
  destruct (@verify_loop_polls fuel p (clock w1) timeout st1 _ Hf eq_refl)
    as (b & k & R & C & P & K & Tm).
  exists b, k. unfold prepend, polls, count, time_readings in *.
  cbn [res final emitted]. cbn [app filter collect is_sleep poll_reply
                                time_reading].
  repeat split; trivial.
  - cbn in K. replace (clock w1 + timeout - clock w1)%Z with timeout in K by lia.
    exact K.
  - intro Hb. destruct (Tm Hb) as (ts & t & Ets & Ht).
    exists (clock w1), ts, t. rewrite Ets. now split.
Qed.

End Polling.

(* ================================================================== *)
(** * What each method may emit *)

Create HintDb emits.

Ltac emits_step :=
  first
    [ assumption
    | solve [auto with emits]
    | apply emits_ret | apply emits_raise | apply emits_diverge
    | apply emits_get_self | apply emits_set_self
    | apply emits_log; reflexivity
    | apply emits_print; reflexivity
    | apply emits_call; intro; simpl; solve [reflexivity | apply Nat.eqb_refl]
    | apply emits_bind; [|intro]
    | apply emits_try; [|intro]
    | apply emits_finally
    | apply emits_for_each; intro
    | match goal with
      | |- emits _ (if ?b then _ else _) => destruct b
      | |- emits _ (match ?x with _ => _ end) => destruct x
      end ].

Ltac emits_auto := repeat emits_step.

Section Footprints.
Variable W : Type.
Variable respond : forall T, call T -> W -> reply T * W.
Variable os_path_join : pystr -> pystr -> pystr.

(** ** A download attempt touches only its own row *)

Section Attempt.
Variable h : handle.
Let S := fun e => strategy_event h e = true.
Let P := fun e => attempt_event h e = true.

Lemma strategy_is_attempt e : S e -> P e.
Proof.
  unfold S, P, strategy_event. intro H. now apply andb_true_iff in H.
Qed.

Lemma emits_verify_loop fuel p start timeout :
  emits S (verify_loop respond fuel p start timeout).
Proof.
  revert p start timeout. induction fuel as [|fuel IH]; intros; simpl.
  - apply emits_diverge.
  - emits_auto.
Qed.
#[local] Hint Resolve emits_verify_loop : emits.

Lemma emits_verify_download fuel filename timeout :
  emits S (verify_download respond os_path_join fuel filename timeout).
Proof. unfold verify_download. emits_auto. Qed.
#[local] Hint Resolve emits_verify_download : emits.

Lemma emits_click_or_script element :
  emits S (click_or_script respond element).
Proof. unfold click_or_script. emits_auto. Qed.
#[local] Hint Resolve emits_click_or_script : emits.

Lemma emits_context_menu_step fuel file_name sanitized index attempt sel :
  emits S (context_menu_step respond os_path_join fuel file_name sanitized
                             index attempt sel).
Proof. unfold context_menu_step. emits_auto. Qed.

Lemma emits_file_view_step fuel file_name sanitized index attempt :
  emits S (file_view_step respond os_path_join fuel h file_name sanitized
                          index attempt).
Proof.
  unfold file_view_step. emits_auto.
  apply emits_call. intro. unfold S, strategy_event. simpl.
  now rewrite Nat.eqb_refl.
Qed.

Lemma emits_strategies fuel file_name sanitized index attempt :
  emits S
    (bind (for_each download_selectors
             (context_menu_step respond os_path_join fuel file_name sanitized
                                index attempt))
          (fun f =>
             match f with
             | Next => file_view_step respond os_path_join fuel h file_name
                                      sanitized index attempt
             | Stop b => ret (Stop b)
             end)).
Proof.
  apply emits_bind.
  - apply emits_for_each. intro. apply emits_context_menu_step.
  - intros [|b]; [apply emits_file_view_step | apply emits_ret].
Qed.

Lemma emits_attempt_body fuel file_name sanitized index attempt :
  emits P (attempt_body respond os_path_join fuel h file_name sanitized
                        index attempt).
Proof.
  assert (Hs : emits P
            (bind (for_each download_selectors
                     (context_menu_step respond os_path_join fuel file_name
                                        sanitized index attempt))
                  (fun f =>
                     match f with
                     | Next => file_view_step respond os_path_join fuel h
                                   file_name sanitized index attempt
                     | Stop b => ret (Stop b)
                     end)))
    by (eapply emits_weaken;
        [apply emits_strategies | apply strategy_is_attempt]).
  unfold attempt_body.
  apply emits_bind.
  - apply emits_try; [|intro; emits_auto].
    apply emits_bind; [emits_auto | intros _].
    apply emits_bind; [emits_auto | intros _]. apply Hs.
  - intros [|b]; emits_auto.
Qed.
#[local] Hint Resolve emits_attempt_body : emits.

Lemma emits_attempt_download fuel file_name index :
  emits P (attempt_download respond os_path_join fuel h file_name index).
Proof. unfold attempt_download. emits_auto. Qed.

End Attempt.

(** ** Deriving a name reads only below its own row *)

Section Lookup.
Variable h : handle.
Let P := fun e => lookup_event h e = true.

Lemma emits_name_selector_step sel :
  emits P (name_selector_step respond h sel).
Proof. unfold name_selector_step. emits_auto. Qed.
#[local] Hint Resolve emits_name_selector_step : emits.

Lemma emits_name_from_attributes attrs file_name :
  emits P (name_from_attributes respond h attrs file_name).
Proof.
  revert file_name. induction attrs as [|attr attrs IH]; intros; simpl.
  - apply emits_ret.
  - emits_auto.
Qed.
#[local] Hint Resolve emits_name_from_attributes : emits.

Lemma emits_derive_file_name : emits P (derive_file_name respond h).
Proof. unfold derive_file_name. emits_auto. Qed.

Lemma emits_log_element_html : emits P (log_element_html respond h).
Proof. unfold log_element_html. emits_auto. Qed.

End Lookup.

(** ** Processing a row touches only that row *)

Lemma row_event_lookup h e : lookup_event h e = true -> row_event h e = true.
Proof. unfold row_event. now intros ->. Qed.

Lemma row_event_attempt h e : attempt_event h e = true -> row_event h e = true.
Proof. unfold row_event. intros ->. apply orb_true_r. Qed.

Lemma emits_process_file fuel i h downloaded_count :
  emits (fun e => row_event h e = true)
        (process_file respond os_path_join fuel i h downloaded_count).
Proof.
  assert (emits (fun e => row_event h e = true) (derive_file_name respond h))
    by (eapply emits_weaken;
        [apply emits_derive_file_name | apply row_event_lookup]).
  assert (emits (fun e => row_event h e = true) (log_element_html respond h))
    by (eapply emits_weaken;
        [apply emits_log_element_html | apply row_event_lookup]).
  assert (forall fn,
             emits (fun e => row_event h e = true)
                   (attempt_download respond os_path_join fuel h fn i))
    by (intro; eapply emits_weaken;
        [apply emits_attempt_download | apply row_event_attempt]).
  unfold process_file. emits_auto.
Qed.

Lemma emits_process_files fuel rows :
  forall i downloaded_count,
    emits (fun e => exists h, In h rows /\ row_event h e = true)
          (process_files respond os_path_join fuel i rows downloaded_count).
Proof.
  induction rows as [|h rows IH]; intros; simpl.
  - apply emits_ret.
  - apply emits_bind.
    + eapply emits_weaken; [apply emits_process_file|].
      intros e He. exists h. split; [now left | exact He].
    + intro c. eapply emits_weaken; [apply IH|].
      intros e (h' & Hin & He). exists h'. split; [now right | exact He].
Qed.

End Footprints.

(* ================================================================== *)
(** * The number of attempts (lines 201-204) *)

Section Attempts.
Variable W : Type.
Variable respond : forall T, call T -> W -> reply T * W.
Variable os_path_join : pystr -> pystr -> pystr.

Lemma at_most_none {A} f (m : M W A) :
  emits (fun e => f e = false) m -> at_most 0 f m.
Proof.
  intros H st. specialize (H st). unfold count.
  induction H as [|e evs He _ IH]; simpl; [lia|]. now rewrite He.
Qed.

Lemma at_most_call {T} f (c : call T) : at_most 1 f (do_call respond c).
Proof.
  intro st. unfold do_call, count. destruct (respond c (world st)). simpl.
  destruct (f _); simpl; lia.
Qed.

Lemma at_most_bind {A B} a b f (m : M W A) (k : A -> M W B) :
  at_most a f m -> (forall x, at_most b f (k x)) ->
  at_most (a + b) f (bind m k).
Proof.
  intros Hm Hk st. unfold bind. specialize (Hm st).
  destruct (res (m st)); simpl; try lia.
  rewrite count_app. specialize (Hk a0 (final (m st))). lia.
Qed.

Lemma at_most_try {A} a b f catch (m : M W A) h :
  at_most a f m -> (forall e, at_most b f (h e)) ->
  at_most (a + b) f (try_except catch m h).
Proof.
  intros Hm Hh st. unfold try_except. specialize (Hm st).
  destruct (res (m st)); simpl; try lia.
  destruct (catch e); simpl; try lia.
  rewrite count_app. specialize (Hh e (final (m st))). lia.
Qed.

Lemma at_most_for_each {X A} f (xs : list X) (body : X -> M W (flow A)) :
  (forall x, at_most 1 f (body x)) ->
  at_most (List.length xs) f (for_each xs body).
Proof.
  intro H. induction xs as [|x xs IH]; simpl.
  - intro st. simpl. unfold count. simpl. lia.
  - change (S (List.length xs)) with (1 + List.length xs)%nat.
    apply at_most_bind; [apply H|].
    intros [|a]; [exact IH|]. intro st. unfold count. simpl. lia.
Qed.

Lemma strategy_event_not_context_click h e :
  strategy_event h e = true -> is_context_click e = false.
Proof.
  unfold strategy_event. intro H. apply andb_true_iff in H as [_ H].
  now apply negb_true_iff in H.
Qed.

(** One attempt makes one context click. *)
Lemma attempt_body_one_context_click fuel h file_name sanitized index attempt :
  at_most 1 is_context_click
          (attempt_body respond os_path_join fuel h file_name sanitized
                        index attempt).
Proof.
  unfold attempt_body.
  change 1%nat with ((1 + 0) + 0)%nat.
  apply at_most_bind.
  - apply at_most_try.
    + change 1%nat with (1 + 0)%nat. apply at_most_bind; [apply at_most_call|].
      intros _. apply at_most_none.
      apply emits_bind; [emits_auto | intros _].
      eapply emits_weaken; [apply emits_strategies|].
      apply strategy_event_not_context_click.
    + intro e. apply at_most_none. emits_auto.
  - intros [|b]; apply at_most_none; emits_auto.
Qed.

(** [attempt_download] makes at most two attempts. *)
Lemma attempt_download_two_attempts fuel h file_name index :
  at_most 2 is_context_click
          (attempt_download respond os_path_join fuel h file_name index).
Proof.
  unfold attempt_download.
  change 2%nat with (List.length (py_range 1 (max_attempts + 1)) + 0)%nat.
  apply at_most_bind.
  - apply at_most_for_each. intro. apply attempt_body_one_context_click.
  - intros [|b]; apply at_most_none; emits_auto.
Qed.

End Attempts.

(* ================================================================== *)
(** * The rows of a search (lines 330-398) *)

Section Rows.
Variable W : Type.
Variable respond : forall T, call T -> W -> reply T * W.
Variable os_path_join : pystr -> pystr -> pystr.

Lemma row_event_target h e h' :
  row_event h e = true -> row_target e = Some h' -> h' = h.
Proof.
  unfold row_event.
  destruct e as [T c r| |]; [|discriminate..].
  destruct c; try destruct sc; try destruct b; simpl; try discriminate;
    rewrite ?orb_false_r, ?orb_false_l;
    intros H [= <-]; now apply Nat.eqb_eq in H.
Qed.

(** C10. Whatever the number of rows found, every event of processing
    them that touches a row (a lookup below it, a read of one of its
    attributes, a context click or a double click on it) touches one of
    the first five rows, of which there are at most five. *)
Theorem only_first_five_rows_are_touched (fuel : nat)
        (files_found : list handle) (st : state W) :
  Forall (fun e => forall h, row_target e = Some h ->
                             In h (firstn 5 files_found))
         (emitted (process_results respond os_path_join fuel files_found st))
  /\ (List.length (firstn 5 files_found) <= 5)%nat.
Proof.
  split; [|apply firstn_le_length].
  assert (H : emits (fun e => forall h, row_target e = Some h ->
                                        In h (firstn 5 files_found))
                    (process_results respond os_path_join fuel files_found)).
  { unfold process_results.
    apply emits_bind; [apply emits_get_self | intro self0].
    destruct files_found as [|f0 fs] eqn:Ef.
    - apply emits_bind; [|intro; apply emits_ret].
      apply emits_log. intros h [=].
    - rewrite <- Ef. apply emits_bind; [apply emits_log; intros h [=]|].
      intros _. apply emits_bind.
      + eapply emits_weaken; [apply emits_process_files|].
        intros e (h & Hin & He) h' Ht.
        now rewrite (@row_event_target h e h' He Ht).
      + intro n. apply emits_bind; [|intro; apply emits_ret].
        apply emits_log. intros h [=]. }
  apply H.
Qed.

Lemma bind_emitted_prefix {A B} (m : M W A) (f : A -> M W B) st :
  exists rest, emitted (bind m f st) = emitted (m st) ++ rest.
Proof.
  unfold bind. destruct (res (m st)); simpl; eauto using app_nil_r.
  all: exists []; now rewrite app_nil_r.
Qed.

Lemma try_emitted_prefix {A} catch (m : M W A) h st :
  exists rest, emitted (try_except catch m h st) = emitted (m st) ++ rest.
Proof.
  unfold try_except. destruct (res (m st)); simpl;
    try (exists []; now rewrite app_nil_r).
  destruct (catch e); simpl; eauto.
  exists []; now rewrite app_nil_r.
Qed.

Lemma call_emitted {T} (c : call T) st :
  exists r, emitted (do_call respond c st) = [Called c r].
Proof. unfold do_call. destruct (respond c (world st)). simpl. eauto. Qed.

(** A download attempt opens with a context click on its row. *)
Lemma attempt_download_opens_with_context_click fuel h file_name index st :
  exists r rest,
    emitted (attempt_download respond os_path_join fuel h file_name index st)
    = Called (ContextClick h) r :: rest.
Proof.
  unfold attempt_download.
  change (py_range 1 (max_attempts + 1)) with [1%Z; 2%Z].
  cbn [for_each].
  match goal with
  | |- context [emitted (bind ?m ?f st)] =>
      destruct (bind_emitted_prefix m f st) as [r1 ->]
  end.
  match goal with
  | |- context [emitted (bind ?m ?f st)] =>
      destruct (bind_emitted_prefix m f st) as [r2 ->]
  end.
  unfold attempt_body.
  match goal with
  | |- context [emitted (bind ?m ?f st)] =>
      destruct (bind_emitted_prefix m f st) as [r3 ->]
  end.
  match goal with
  | |- context [emitted (try_except_Exception ?m ?f st)] =>
      destruct (try_emitted_prefix is_Exception m f st) as [r4 E4]
  end.
  unfold try_except_Exception. rewrite E4.
  match goal with
  | |- context [emitted (bind ?m ?f st)] =>
      destruct (bind_emitted_prefix m f st) as [r5 ->]
  end.
  destruct (call_emitted (ContextClick h) st) as [r ->].
  exists r. simpl. eauto.
Qed.

(** ** The derived name is in lower case *)

Lemma falsy_lowered (v : option pystr) : truthy v = false -> lowered v.
Proof.
  destruct v as [[|c n]|]; simpl; try discriminate; intros _ n' [= <-];
    reflexivity.
Qed.

Lemma name_selector_step_lowered h sel :
  hoare True (fun _ => True) (name_selector_step respond h sel)
        (leaving (fun n => lower n = n)).
Proof.
  unfold name_selector_step.
  eapply hoare_try with (E1 := fun _ => True); [|intros e _; now apply hoare_ret].
  eapply hoare_bind; [apply hoare_call | intros el _].
  eapply hoare_bind; [apply hoare_call | intros text _].
  eapply hoare_bind; [apply hoare_log | intros _ _].
  apply hoare_ret. simpl. apply lower_idem.
Qed.

Lemma name_from_attributes_lowered h attrs :
  forall file_name,
    lowered file_name ->
    hoare True (fun _ => True)
          (name_from_attributes respond h attrs file_name) lowered.
Proof.
  induction attrs as [|attr attrs IH]; intros file_name Hf; simpl.
  - now apply hoare_ret.
  - eapply hoare_bind with (Q1 := fun _ => True).
    + eapply hoare_try with (E1 := fun _ => True);
        [|intros e _; now apply hoare_ret].
      eapply hoare_bind; [apply hoare_call | intros v _].
      now apply hoare_ret.
    + intros [v|] _; [|now apply hoare_ret].
      destruct (truthy v) eqn:Hv.
      * eapply hoare_bind; [apply hoare_log | intros _ _].
        apply hoare_ret. intros n [= <-]. apply lower_idem.
      * apply IH. now apply falsy_lowered.
Qed.

Lemma derive_file_name_lowered h :
  hoare True (fun _ => True) (derive_file_name respond h) lowered.
Proof.
  unfold derive_file_name.
  eapply hoare_bind.
  - apply hoare_for_each. intro sel. apply name_selector_step_lowered.
  - intros [|n] Hn; cbn [truthy negb].
    + apply name_from_attributes_lowered. discriminate.
    + destruct n as [|c n]; cbn [truthy negb].
      * apply name_from_attributes_lowered. intros n' [= <-]. reflexivity.
      * apply hoare_ret. intros n' [= <-]. exact Hn.
Qed.

Lemma total_log_element_html h :
  total (log_element_html respond h) (fun _ => True).
Proof.
  unfold log_element_html. apply total_try_all.
  - eapply hoare_bind; [apply hoare_call | intros [html|] _].
    + apply hoare_log.
    + now apply hoare_raise.
  - intro e. apply hoare_log.
Qed.

(** C2. A row whose derived display name does not end in [.cwa],
    whatever the case of its letters, is left alone: processing it
    returns the download counter unchanged, and all it emits are the
    lookups and reads of the name derivation and log records, so no
    context click, double click, click, page lookup, navigation, sleep
    or poll, none of the calls of [attempt_download]. *)
Theorem non_cwa_row_is_skipped (fuel : nat) (i : Z) (h : handle)
        (downloaded_count : Z) (st : state W) (name : pystr) :
  res (derive_file_name respond h st) = Ret (Some name) ->
  endswith (lower name) (lit ".cwa") = false ->
  let r := process_file respond os_path_join fuel i h downloaded_count st in
  res r = Ret downloaded_count
  /\ Forall (fun e => lookup_event h e = true) (emitted r)
  /\ count is_context_click (emitted r) = 0%nat.
Proof.
  intros Hd Hend r.
  assert (Hlow : lower name = name).
  { pose proof (derive_file_name_lowered h st) as H. rewrite Hd in H.
    now apply H. }
  rewrite Hlow in Hend.
  assert (Hr : res r = Ret downloaded_count
               /\ Forall (fun e => lookup_event h e = true) (emitted r)).
  { subst r. unfold process_file, try_except_Exception.
    match goal with
    | |- context [try_except _ (bind ?m ?f) ?hd st] =>
        destruct (bind_ret_step m f st Hd) as (R & Ev & _);
        set (body := bind m f) in *; set (handler := hd)
    end.
    assert (Hk :
      res (body st) = Ret downloaded_count
      /\ Forall (fun e => lookup_event h e = true) (emitted (body st))).
    { rewrite R, Ev. clear R Ev. cbn beta.
      set (st' := final (derive_file_name respond h st)).
      pose proof (emits_derive_file_name respond h st) as Hev.
      destruct name as [|c name].
      - cbn [truthy negb].
        assert (T : total (bind (log WARNING
                                   "Could not determine file name for file {}"
                                   [AInt (i + 1)])
                             (fun _ => bind (log_element_html respond h)
                                         (fun _ => ret downloaded_count)))
                          (fun n => n = downloaded_count)).
        { eapply hoare_bind; [apply hoare_log | intros _ _].
          eapply hoare_bind; [apply total_log_element_html | intros _ _].
          now apply hoare_ret. }
        destruct (total_returns st' T) as (n & Rn & ->). split; [exact Rn|].
        apply Forall_app. split; [exact Hev|].
        apply emits_bind; [now apply emits_log | intros _].
        apply emits_bind; [apply emits_log_element_html | intros _].
        apply emits_ret.
      - cbn [truthy negb name_of]. rewrite Hend. cbn [negb].
        split; [reflexivity|].
        apply Forall_app. split; [exact Hev|]. cbn. repeat constructor. }
    destruct Hk as (Rk & Ek).
    rewrite (try_ret_step _ _ handler st Rk). now split. }
  destruct Hr as (R & Ev). repeat split; trivial.
  unfold count. apply length_zero_iff_nil.
  induction Ev as [|e evs He _ IH]; [reflexivity|].
  simpl. destruct (is_context_click e) eqn:Hc; [|exact IH].
  destruct e as [T c r0| |]; try discriminate.
  destruct c; discriminate.
Qed.

End Rows.

(* ================================================================== *)
(** * The end of the run (lines 403-407 and 426-478) *)

Section Teardown.
Variable W : Type.
Variable respond : forall T, call T -> W -> reply T * W.
Variable os_path_join : pystr -> pystr -> pystr.
Variable os_path_abspath : pystr -> pystr.

Let P := fun e => is_quit e = false.

Lemma attempt_event_not_quit h e : attempt_event h e = true -> P e.
Proof.
  unfold P. destruct e as [T c r| |]; trivial. now destruct c.
Qed.

Lemma row_event_not_quit h e : row_event h e = true -> P e.
Proof.
  unfold P. destruct e as [T c r| |]; trivial. now destruct c.
Qed.

Lemma no_quit_getattr name : emits P (@getattr W name).
Proof.
  unfold getattr. destruct (existsb _ _); [apply emits_ret | apply emits_raise].
Qed.
#[local] Hint Resolve no_quit_getattr : emits.

(** [first_downloader.cleanup] is not an attribute of the instance: the
    lookup raises and the body of [cleanup] is not entered. *)
Lemma call_cleanup_raises st :
  call_method "cleanup" (cleanup respond) st
  = {| res := Raise (AttributeError "cleanup"); final := st; emitted := [] |}.
Proof. reflexivity. Qed.

Lemma no_quit_call_cleanup : emits P (call_method "cleanup" (cleanup respond)).
Proof. intro st. rewrite call_cleanup_raises. constructor. Qed.
#[local] Hint Resolve no_quit_call_cleanup : emits.

Lemma no_quit_get_search_input : emits P (get_search_input respond).
Proof. unfold get_search_input. emits_auto. Qed.
#[local] Hint Resolve no_quit_get_search_input : emits.

Lemma no_quit_clear_search_context : emits P (clear_search_context respond).
Proof. unfold clear_search_context. emits_auto. Qed.
#[local] Hint Resolve no_quit_clear_search_context : emits.

Lemma no_quit_find_files : emits P (find_files respond).
Proof. unfold find_files. emits_auto. Qed.
#[local] Hint Resolve no_quit_find_files : emits.

Lemma no_quit_process_files fuel i rows n :
  emits P (process_files respond os_path_join fuel i rows n).
Proof.
  eapply emits_weaken; [apply emits_process_files|].
  intros e (h & _ & He). now apply row_event_not_quit with h.
Qed.
#[local] Hint Resolve no_quit_process_files : emits.

Lemma no_quit_process_results fuel files_found :
  emits P (process_results respond os_path_join fuel files_found).
Proof. unfold process_results. emits_auto. Qed.
#[local] Hint Resolve no_quit_process_results : emits.

Lemma no_quit_search_and_download fuel :
  emits P (search_and_download respond os_path_join fuel).
Proof. unfold search_and_download. emits_auto. Qed.
#[local] Hint Resolve no_quit_search_and_download : emits.

Lemma no_quit_keyword_step fuel kw :
  emits P (keyword_step respond os_path_join fuel kw).
Proof. unfold keyword_step, call_method. emits_auto. Qed.
#[local] Hint Resolve no_quit_keyword_step : emits.

Lemma no_quit_init kw folder d :
  emits P (__init__ respond os_path_abspath kw folder d).
Proof. unfold __init__. emits_auto. Qed.
#[local] Hint Resolve no_quit_init : emits.

Lemma no_quit_setup_driver : emits P (setup_driver respond).
Proof. unfold setup_driver. emits_auto. Qed.
#[local] Hint Resolve no_quit_setup_driver : emits.

Lemma no_quit_login_to_dropbox : emits P (login_to_dropbox respond).
Proof. unfold login_to_dropbox. emits_auto. Qed.
#[local] Hint Resolve no_quit_login_to_dropbox : emits.

Lemma no_quit_main fuel :
  emits P (main respond os_path_join os_path_abspath fuel).
Proof.
  unfold main.
  apply emits_try; [|intro; emits_auto].
  apply emits_bind; [emits_auto | intros [|first_keyword keywords]].
  - apply emits_ret.
  - apply emits_bind; [emits_auto | intros _].
    apply emits_finally; [|apply no_quit_call_cleanup].
    apply emits_bind; [unfold call_method; emits_auto | intros _].
    apply emits_bind; [unfold call_method; emits_auto | intros logged_in].
    emits_auto.
Qed.

End Teardown.

(** C9, on the code.  The run never quits the browser driver: in no
    environment does the main block emit a call of [driver.quit()].  In
    the environment where the login succeeds and the one keyword is
    processed, the instance holds a driver at the end, the teardown in the
    [finally] block raises [AttributeError] because [cleanup] is a function
    of the module and not a method of the class, and the error is
    printed. *)
Theorem main_never_quits_the_driver :
  (forall W (respond : forall T, call T -> W -> reply T * W) join abspath
          fuel st,
      Forall (fun e => is_quit e = false)
             (emitted (main respond join abspath fuel st)))
  /\ (let r := main (scripted appears_at_2) join_backslash (fun p => p) 31
                    (start_state []) in
      res r = Ret tt
      /\ driver (self (final r)) = true
      /\ count is_quit (emitted r) = 0%nat
      /\ In (Printed "Error: {}" [AExn (AttributeError "cleanup")])
            (emitted r)).
Proof.
  split.
  - intros. apply no_quit_main.
  - vm_compute. repeat split; trivial.
    repeat (first [left; reflexivity | right]).
Qed.

(* ================================================================== *)
(** * Faults of the driver while processing a row *)

Create HintDb total.

Section Robust.
Variable W : Type.
Variable respond : forall T, call T -> W -> reply T * W.
Variable os_path_join : pystr -> pystr -> pystr.
Variable clock : W -> Z.
Hypothesis timed : well_timed respond clock.
Variable fuel : nat.
Hypothesis enough : (30 < fuel)%nat.

(** [Out] holds of the exceptions of a call that pass an
    [except Exception]: none when nothing interrupts the run,
    [KeyboardInterrupt] otherwise. *)
Variable Out : exn -> Prop.
Hypothesis calls :
  forall T (c : call T),
    hoare False (fun e => is_Exception e = true \/ Out e)
          (do_call respond c) (fun _ => True).
Hypothesis out_not_Exception : forall e, Out e -> is_Exception e = false.

Lemma hoare_sleep D E d :
  hoare D E (do_call respond (Sleep d)) (fun _ => True).
Proof.
  intro st. destruct timed as (_ & _ & HS).
  destruct (HS d (world st)) as (w' & E' & _).
  unfold do_call. now rewrite E'.
Qed.

Ltac hoare_side :=
  intros; first [assumption | exact I | contradiction | (right; assumption)].

Ltac hoare_leaf :=
  first
    [ assumption
    | apply hoare_sleep
    | apply hoare_log | apply hoare_get_self | apply hoare_set_self
    | apply hoare_call
    | apply calls
    | eapply hoare_weaken; [ solve [eauto with total] | hoare_side.. ] ].

Ltac hoare_auto :=
  lazymatch goal with
  | |- hoare _ _ (bind _ _) _ =>
      first
        [ eapply hoare_bind with (Q1 := fun _ => True);
          [ solve [hoare_auto] | intros ? _; hoare_auto ]
        | eapply hoare_bind; [ solve [hoare_auto] | intros ? ?; hoare_auto ] ]
  | |- hoare _ _ (ret _) _ => apply hoare_ret; simpl; auto
  | |- hoare _ _ (raise _) _ => apply hoare_raise; simpl; auto
  | |- hoare _ _ (try_except_all _ _) _ =>
      eapply hoare_try with (E1 := fun _ => True);
      [ hoare_auto | intros ? _; cbv beta iota; hoare_auto ]
  | |- hoare _ _ (try_except_Exception _ _) _ =>
      eapply hoare_try with (E1 := fun e => is_Exception e = true \/ Out e);
      [ hoare_auto
      | let He := fresh "He" in
        intros ? [He|He]; cbv beta;
        [ rewrite He; hoare_auto
        | rewrite (out_not_Exception He);
          first [exact He | exact I | (right; exact He)] ] ]
  | |- hoare _ _ (for_each _ _) _ =>
      apply hoare_for_each; intro; hoare_auto
  | |- hoare _ _ (if ?b then _ else _) _ => destruct b eqn:?; hoare_auto
  | |- hoare _ _ (match ?x with _ => _ end) _ => destruct x eqn:?; hoare_auto
  | |- _ => hoare_leaf
  end.

Lemma safe_verify filename :
  hoare False (fun _ => False)
        (verify_download respond os_path_join fuel filename 30)
        (fun _ => True).
Proof. now apply total_verify_download with clock. Qed.

Lemma safe_log_element_html h :
  hoare False (fun _ => False) (log_element_html respond h) (fun _ => True).
Proof. apply total_log_element_html. Qed.
#[local] Hint Resolve safe_verify safe_log_element_html : total.

Lemma safe_click_or_script element :
  hoare False (fun e => is_Exception e = true \/ Out e)
        (click_or_script respond element) (fun _ => True).
Proof. unfold click_or_script. hoare_auto. Qed.

Lemma any_click_or_script element :
  hoare False (fun _ => True) (click_or_script respond element)
        (fun _ => True).
Proof. unfold click_or_script. hoare_auto. Qed.
#[local] Hint Resolve safe_click_or_script any_click_or_script : total.

Lemma safe_context_menu_step file_name sanitized index attempt sel :
  hoare False Out
        (context_menu_step respond os_path_join fuel file_name sanitized
                           index attempt sel)
        (leaving (fun b => b = true)).
Proof. unfold context_menu_step. hoare_auto. Qed.

Lemma safe_file_view_step h file_name sanitized index attempt :
  hoare False Out
        (file_view_step respond os_path_join fuel h file_name sanitized
                        index attempt)
        (leaving (fun b => b = true)).
Proof. unfold file_view_step. hoare_auto. Qed.

Lemma safe_attempt_body h file_name sanitized index attempt :
  hoare False Out
        (attempt_body respond os_path_join fuel h file_name sanitized
                      index attempt)
        (leaving (fun b => b = true)).
Proof.
  unfold attempt_body.
  eapply hoare_bind with (Q1 := leaving (fun b => b = true)).
  - eapply hoare_try with (E1 := fun e => is_Exception e = true \/ Out e).
    + eapply hoare_bind; [apply calls|].
      intros _ _. eapply hoare_bind; [apply hoare_sleep|]. intros _ _.
      eapply hoare_bind with (Q1 := leaving (fun b => b = true)).
      * apply hoare_for_each. intro sel.
        eapply hoare_weaken; [apply safe_context_menu_step | hoare_side..].
      * intros [|b] Hb; [|now apply hoare_ret].
        eapply hoare_weaken; [apply safe_file_view_step | hoare_side..].
    + intros e [He|He]; cbv beta;
        [rewrite He; hoare_auto | rewrite (out_not_Exception He); exact He].
  - intros [|b] Hb; [|now apply hoare_ret]. hoare_auto.
Qed.

Lemma safe_attempts h file_name sanitized index attempts :
  hoare False Out
        (for_each attempts
           (attempt_body respond os_path_join fuel h file_name sanitized
                         index))
        (leaving (fun b => b = true)).
Proof. apply hoare_for_each. intro. apply safe_attempt_body. Qed.

Lemma safe_attempt_download h file_name index :
  hoare False Out
        (attempt_download respond os_path_join fuel h file_name index)
        (fun _ => True).
Proof.
  unfold attempt_download.
  eapply hoare_bind; [apply safe_attempts|].
  intros [|b] _; hoare_auto.
Qed.
#[local] Hint Resolve safe_attempt_download : total.

Lemma safe_name_selector_step h sel :
  hoare False Out (name_selector_step respond h sel) (fun _ => True).
Proof. unfold name_selector_step. hoare_auto. Qed.

Lemma safe_name_from_attributes h attrs :
  forall file_name,
    hoare False Out (name_from_attributes respond h attrs file_name)
          (fun _ => True).
Proof.
  induction attrs as [|attr attrs IH]; intro file_name; simpl; hoare_auto.
Qed.
#[local] Hint Resolve safe_name_from_attributes : total.

Lemma safe_derive_file_name h :
  hoare False Out (derive_file_name respond h) (fun _ => True).
Proof.
  unfold derive_file_name.
  eapply hoare_bind with (Q1 := leaving (fun _ => True)).
  - apply hoare_for_each. intro sel.
    eapply hoare_weaken; [apply safe_name_selector_step | trivial..].
    now intros [|a].
  - intros f _. hoare_auto.
Qed.
#[local] Hint Resolve safe_derive_file_name : total.

Lemma safe_process_file i h n :
  hoare False Out (process_file respond os_path_join fuel i h n)
        (fun _ => True).
Proof. unfold process_file. hoare_auto. Qed.
#[local] Hint Resolve safe_process_file : total.

Lemma safe_process_files rows :
  forall i n,
    hoare False Out (process_files respond os_path_join fuel i rows n)
          (fun _ => True).
Proof.
  induction rows as [|h rows IH]; intros i n; simpl; hoare_auto.
Qed.
#[local] Hint Resolve safe_process_files : total.

Lemma safe_get_search_input :
  hoare False Out (get_search_input respond) (fun _ => True).
Proof.
  unfold get_search_input.
  eapply hoare_bind with (Q1 := leaving (fun _ => True)).
  - apply hoare_for_each. intro sel. hoare_auto.
  - intros f _. hoare_auto.
Qed.

Lemma in_get_search_input :
  hoare False (fun e => is_Exception e = true \/ Out e)
        (get_search_input respond) (fun _ => True).
Proof.
  eapply hoare_weaken; [apply safe_get_search_input | hoare_side..].
Qed.
#[local] Hint Resolve safe_get_search_input in_get_search_input : total.

Lemma safe_clear_search_context :
  hoare False Out (clear_search_context respond) (fun _ => True).
Proof.
  unfold clear_search_context.
  eapply hoare_try with (E1 := fun e => is_Exception e = true \/ Out e).
  - eapply hoare_bind with (Q1 := leaving (fun _ => True)).
    + apply hoare_for_each. intro sel. hoare_auto.
    + intros f _. hoare_auto.
  - intros e [He|He]; cbv beta;
      [rewrite He; hoare_auto | rewrite (out_not_Exception He); exact He].
Qed.
#[local] Hint Resolve safe_clear_search_context : total.

Lemma safe_find_files :
  hoare False Out (find_files respond) (fun _ => True).
Proof.
  unfold find_files.
  eapply hoare_bind with (Q1 := leaving (fun _ => True)).
  - apply hoare_for_each. intro sel. hoare_auto.
  - intros f _. hoare_auto.
Qed.
#[local] Hint Resolve safe_find_files : total.

Lemma safe_process_results files_found :
  hoare False Out (process_results respond os_path_join fuel files_found)
        (fun _ => True).
Proof. unfold process_results. hoare_auto. Qed.
#[local] Hint Resolve safe_process_results : total.

Lemma safe_search_and_download :
  hoare False Out (search_and_download respond os_path_join fuel)
        (fun _ => True).
Proof. unfold search_and_download. hoare_auto. Qed.
#[local] Hint Resolve safe_search_and_download : total.

Lemma safe_keyword_step kw :
  hoare False Out (keyword_step respond os_path_join fuel kw)
        (fun f => f = Next).
Proof.
  unfold keyword_step, call_method.
  change (@getattr W "search_and_download") with (@ret W unit tt).
  hoare_auto.
Qed.

End Robust.

(** ** Runs that nothing interrupts *)

Section Uninterrupted.
Variable W : Type.
Variable respond : forall T, call T -> W -> reply T * W.
Variable os_path_join : pystr -> pystr -> pystr.
Variable clock : W -> Z.
Hypothesis timed : well_timed respond clock.
Hypothesis uninterrupted : no_interrupt respond.
Variable fuel : nat.
Hypothesis enough : (30 < fuel)%nat.

Lemma calls_raise_Exception T (c : call T) :
  hoare False (fun e => is_Exception e = true \/ False)
        (do_call respond c) (fun _ => True).
Proof.
  eapply hoare_weaken; [apply (hoare_call_guarded False c uninterrupted)
                       | trivial | | trivial].
  intros e He. now left.
Qed.

Lemma nothing_out e : False -> is_Exception e = false.
Proof. contradiction. Qed.

Lemma total_attempts h file_name sanitized index attempts :
  total (for_each attempts
           (attempt_body respond os_path_join fuel h file_name sanitized
                         index))
        (leaving (fun b => b = true)).
Proof.
  unfold total.
  eapply safe_attempts with (clock := clock) (Out := fun _ => False);
    auto using calls_raise_Exception, nothing_out.
Qed.

Lemma total_attempt_download h file_name index :
  total (attempt_download respond os_path_join fuel h file_name index)
        (fun _ => True).
Proof.
  unfold total.
  eapply safe_attempt_download with (clock := clock) (Out := fun _ => False);
    auto using calls_raise_Exception, nothing_out.
Qed.

Lemma total_process_file i h n :
  total (process_file respond os_path_join fuel i h n) (fun _ => True).
Proof.
  unfold total.
  eapply safe_process_file with (clock := clock) (Out := fun _ => False);
    auto using calls_raise_Exception, nothing_out.
Qed.

Lemma total_process_files rows i n :
  total (process_files respond os_path_join fuel i rows n) (fun _ => True).
Proof.
  unfold total.
  eapply safe_process_files with (clock := clock) (Out := fun _ => False);
    auto using calls_raise_Exception, nothing_out.
Qed.

Lemma total_search_and_download :
  total (search_and_download respond os_path_join fuel) (fun _ => True).
Proof.
  unfold total.
  eapply safe_search_and_download with (clock := clock) (Out := fun _ => False);
    auto using calls_raise_Exception, nothing_out.
Qed.

Lemma total_keyword_step kw :
  total (keyword_step respond os_path_join fuel kw) (fun f => f = Next).
Proof.
  unfold total.
  eapply safe_keyword_step with (clock := clock) (Out := fun _ => False);
    auto using calls_raise_Exception, nothing_out.
Qed.

(** ** What a failed attempt and a processed list leave behind *)

Lemma attempt_download_failure_logged h file_name index st :
  res (attempt_download respond os_path_join fuel h file_name index st)
  = Ret false ->
  exists evs,
    emitted (attempt_download respond os_path_join fuel h file_name index st)
    = evs ++ [Logged WARNING
                "Could not download .cwa file {} ({}) after {} attempts"
                [AInt (index + 1);
                 AName (sanitize_filename (Some file_name)); AInt 2]].
Proof.
  unfold attempt_download.
  match goal with
  | |- context [bind ?m ?k st] =>
      destruct (total_returns st
                  (total_attempts h file_name
                     (sanitize_filename (Some file_name)) index
                     (py_range 1 (max_attempts + 1))))
        as (f & Rf & Hf);
      destruct (bind_ret_step m k st Rf) as (R & Ev & _)
  end.
  rewrite R, Ev. destruct f as [|b].
  - intros _. eexists. reflexivity.
  - simpl in Hf. subst b. discriminate.
Qed.

Lemma process_file_opens_with_probe i h n st :
  exists r rest,
    emitted (process_file respond os_path_join fuel i h n st)
    = Called (FindElement (Within h) CSS_SELECTOR
                          ".brws-file-name-cell-filename") r :: rest.
Proof.
  unfold process_file, try_except_Exception.
  match goal with
  | |- context [emitted (try_except ?c ?m ?f st)] =>
      destruct (try_emitted_prefix c m f st) as [r1 ->]
  end.
  match goal with
  | |- context [emitted (bind ?m ?f st)] =>
      destruct (bind_emitted_prefix m f st) as [r2 ->]
  end.
  unfold derive_file_name.
  match goal with
  | |- context [emitted (bind ?m ?f st)] =>
      destruct (bind_emitted_prefix m f st) as [r3 ->]
  end.
  unfold name_selectors. cbn [for_each].
  match goal with
  | |- context [emitted (bind ?m ?f st)] =>
      destruct (bind_emitted_prefix m f st) as [r4 ->]
  end.
  unfold name_selector_step at 1, try_except_all.
  match goal with
  | |- context [emitted (try_except ?c ?m ?f st)] =>
      destruct (try_emitted_prefix c m f st) as [r5 ->]
  end.
  match goal with
  | |- context [emitted (bind ?m ?f st)] =>
      destruct (bind_emitted_prefix m f st) as [r6 ->]
  end.
  match goal with
  | |- context [emitted (do_call respond ?c st)] =>
      destruct (call_emitted respond c st) as [r ->]
  end.
  exists r. simpl. eauto.
Qed.

Lemma process_files_visits_each rows :
  forall i n st,
    Forall (fun h =>
              existsb (is_first_probe h)
                (emitted (process_files respond os_path_join fuel i rows n st))
              = true) rows.
Proof.
  induction rows as [|h rows IH]; intros i n st; [constructor|].
  simpl process_files.
  destruct (total_returns st (total_process_file i h n)) as (n' & Rn & _).
  match goal with
  | |- context [bind ?m ?k st] =>
      destruct (bind_ret_step m k st Rn) as (_ & Ev & _)
  end.
  rewrite Ev. constructor.
  - destruct (process_file_opens_with_probe i h n st) as (r & rest & ->).
    simpl. unfold is_first_probe at 1. simpl. now rewrite Nat.eqb_refl.
  - eapply Forall_impl; [|apply IH]. intros h' Hh'. cbv beta in *.
    rewrite existsb_app, Hh'. apply orb_true_r.
Qed.

End Uninterrupted.

Lemma calls_raise_anything W (respond : forall T, call T -> W -> reply T * W)
      T (c : call T) :
  hoare False (fun e => is_Exception e = true \/ is_Exception e = false)
        (do_call respond c) (fun _ => True).
Proof.
  eapply hoare_weaken; [apply (hoare_call respond False c) | trivial | | trivial].
  intros e _. destruct (is_Exception e); [now left | now right].
Qed.

(* ================================================================== *)
(** * Locator loops (lines 150-166 and 349-356) *)

Section Locators.
Variable W : Type.
Variable respond : forall T, call T -> W -> reply T * W.

(** A loop whose every pass either misses and falls through or hits and
    leaves: the run is a miss for each item before the first hit, then
    the hit; or a miss for each item. *)
Lemma for_each_first_hit {X A} (missed : X -> list event -> Prop)
      (hit : X -> A -> list event -> Prop) (body : X -> M W (flow A)) :
  (forall x st,
      (res (body x st) = Ret Next /\ missed x (emitted (body x st)))
      \/ (exists a, res (body x st) = Ret (Stop a)
                    /\ hit x a (emitted (body x st)))) ->
  forall xs st,
    (exists pre x post a misses last,
        xs = pre ++ x :: post
        /\ Forall2 missed pre misses
        /\ hit x a last
        /\ res (for_each xs body st) = Ret (Stop a)
        /\ emitted (for_each xs body st) = List.concat misses ++ last)
    \/ (exists misses,
           Forall2 missed xs misses
           /\ res (for_each xs body st) = Ret Next
           /\ emitted (for_each xs body st) = List.concat misses).
Proof.
  intros Hbody xs. induction xs as [|x xs IH]; intro st.
  - right. exists []. repeat split. constructor.
  - cbn [for_each].
    destruct (Hbody x st) as [(R & Hm) | (a & R & Hh)];
      destruct (bind_ret_step (body x)
                  (fun f => match f with
                            | Next => for_each xs body
                            | Stop a => ret (Stop a)
                            end) st R) as (R' & Ev & _);
      rewrite R', Ev; clear R' Ev.
    + destruct (IH (final (body x st)))
        as [(pre & y & post & a & misses & last & -> & Hf & Hh & R' & Ev)
           | (misses & Hf & R' & Ev)].
      * left. exists (x :: pre), y, post, a, (emitted (body x st) :: misses), last.
        repeat split; trivial.
        -- now constructor.
        -- rewrite Ev. simpl. now rewrite app_assoc.
      * right. exists (emitted (body x st) :: misses).
        repeat split; trivial.
        -- now constructor.
        -- now rewrite Ev.
    + left. exists [], x, xs, a, [], (emitted (body x st)).
      repeat split; trivial; try (now constructor).
      cbn. now rewrite app_nil_r.
Qed.

Lemma search_probe_runs selector st :
  let body := try_except_all
                (bind (do_call respond (WaitClickable selector))
                      (fun search_input => ret (Stop (Some search_input))))
                (fun _ => ret Next) in
  (res (body st) = Ret Next
   /\ search_probe_failed selector (emitted (body st)))
  \/ (exists v, res (body st) = Ret (Stop v)
                /\ (exists h, v = Some h
                              /\ emitted (body st)
                                 = [Called (WaitClickable selector)
                                           (Returns h)])).
Proof.
  intro body. subst body. unfold try_except_all, try_except.
  destruct (respond (WaitClickable selector) (world st)) as [[h|e] w] eqn:E.
  - rewrite (bind_returns respond _ _ E). cbn.
    right. exists (Some h). split; [reflexivity|]. now exists h.
  - rewrite (bind_raises respond _ _ E). cbn.
    left. split; [reflexivity|]. now exists e.
Qed.

Lemma name_step_runs row selector st :
  (res (name_selector_step respond row selector st) = Ret Next
   /\ name_step_failed row selector
        (emitted (name_selector_step respond row selector st)))
  \/ (exists n,
         res (name_selector_step respond row selector st) = Ret (Stop n)
         /\ name_step_succeeded row selector n
              (emitted (name_selector_step respond row selector st))).
Proof.
  unfold name_selector_step, try_except_all, try_except.
  destruct (respond (FindElement (Within row) CSS_SELECTOR selector)
                    (world st)) as [[el|e] w] eqn:E.
  - rewrite (bind_returns respond _ _ E).
    set (st1 := {| world := w; self := self st |}).
    destruct (respond (ElementText el) (world st1)) as [[text|e] w'] eqn:E'.
    + rewrite (bind_returns respond _ _ E'). cbn.
      right. eexists. split; [reflexivity|]. now exists el, text.
    + rewrite (bind_raises respond _ _ E'). cbn.
      left. split; [reflexivity|]. right. now exists el, e.
  - rewrite (bind_raises respond _ _ E). cbn.
    left. split; [reflexivity|]. left. now exists e.
Qed.

End Locators.

(** C4, as the code has it.  The search-input locator returns the
    element of the first selector that resolves, after one miss for each
    selector before it and without evaluating a later one; when none
    resolves it has evaluated each selector once, in order, and returns
    [None].  The name lookup of a row takes the name from the first
    selector that resolves to an element whose text can be read, and
    evaluates no later one; a selector that does not resolve, or that
    resolves to an element whose text cannot be read, counts as a miss;
    when every selector misses, each has been evaluated once, in order,
    and no name is found. *)
Theorem locators_take_the_first_hit :
  forall W (respond : forall T, call T -> W -> reply T * W) (st : state W),
    search_input_located (res (get_search_input respond st))
                         (emitted (get_search_input respond st))
    /\ forall row,
        name_located row
          (res (for_each name_selectors (name_selector_step respond row) st))
          (emitted (for_each name_selectors
                             (name_selector_step respond row) st)).
Proof.
  intros W respond st. split.
  - unfold get_search_input.
    match goal with
    | |- context [bind (for_each ?xs ?body) ?k st] =>
        destruct (for_each_first_hit
                    search_probe_failed
                    (fun selector v evs =>
                       exists h, v = Some h
                                 /\ evs = [Called (WaitClickable selector)
                                                  (Returns h)])
                    body (search_probe_runs respond) xs st)
          as [(pre & x & post & a & misses & last & E & Hf & (h & -> & ->)
               & R & Ev)
             | (misses & Hf & R & Ev)];
        destruct (bind_ret_step (for_each xs body) k st R) as (R' & Ev' & _)
    end.
    + left. exists pre, x, post, h, misses. rewrite R', Ev', Ev.
      repeat split; trivial. cbn. now rewrite app_nil_r.
    + right. exists misses. rewrite R', Ev', Ev.
      repeat split; trivial. cbn. now rewrite app_nil_r.
  - intro row.
    destruct (for_each_first_hit
                (name_step_failed row) (name_step_succeeded row)
                (name_selector_step respond row)
                (name_step_runs respond row) name_selectors st)
      as [(pre & x & post & a & misses & last & E & Hf & Hh & R & Ev)
         | (misses & Hf & R & Ev)].
    + left. exists pre, x, post, a, misses, last. now repeat split.
    + right. exists misses. now repeat split.
Qed.

(** C4, as stated, fails for the name lookup: in the environment where
    the first name selector resolves to an element whose text cannot be
    read, the second selector is evaluated after it and supplies the
    name. *)
Lemma name_lookup_goes_past_a_resolved_selector :
  let r := for_each name_selectors
             (name_selector_step (scripted stale_first_name) 10)
             (start_state []) in
  name_probes 10 (emitted r)
  = [(".brws-file-name-cell-filename"%string, Returns 11%nat);
     (".file-name"%string, Returns 12%nat)]
  /\ res r = Ret (Stop (lit "report_jan.cwa"))
  /\ ~ resolved_probe_is_last (name_probes 10 (emitted r)).
Proof.
  cbv zeta.
  assert (E : name_probes 10
                (emitted (for_each name_selectors
                            (name_selector_step (scripted stale_first_name) 10)
                            (start_state [])))
              = [(".brws-file-name-cell-filename"%string, Returns 11%nat);
                 (".file-name"%string, Returns 12%nat)])
    by (vm_compute; reflexivity).
  split; [exact E|]. split; [vm_compute; reflexivity|].
  rewrite E. intro H.
  specialize (H 0%nat _ _ eq_refl eq_refl). discriminate.
Qed.

(* ================================================================== *)
(** * Runs in scripted environments *)

Lemma scripted_well_timed (s : script) :
  well_timed (scripted s) (fun w => w).
Proof.
  repeat split.
  - intro w. exists w. split; [reflexivity | lia].
  - intros p w. eexists. exists w. split; [reflexivity | lia].
  - intros d w. exists (w + d)%Z. split; [reflexivity | lia].
Qed.

Lemma one_row_no_interrupt : no_interrupt (scripted one_row).
Proof.
  intros T c w.
  destruct c; try destruct sc; try destruct b; cbn;
    repeat match goal with
           | |- context [if ?x then _ else _] => destruct x
           end; discriminate.
Qed.

(** The file created at second 2 of a timeout of 30 is found by the
    third poll, after two sleeps. *)
Example file_appearing_at_second_2 :
  let r := verify_download (scripted appears_at_2) join_backslash 31
                           (lit "report_jan.cwa") 30 (start_state []) in
  res r = Ret true
  /\ world (final r) = 2%Z
  /\ polls (lit "E:\dropbox\report_jan.cwa") (emitted r) = [false; false; true]
  /\ count is_sleep (emitted r) = 2%nat.
Proof. vm_compute. repeat split. Qed.

(** A file that never appears is given up after thirty sleeps. *)
Example file_never_appearing :
  let r := verify_download (scripted never_appears) join_backslash 31
                           (lit "report_jan.cwa") 30 (start_state []) in
  res r = Ret false
  /\ world (final r) = 30%Z
  /\ polls (lit "E:\dropbox\report_jan.cwa") (emitted r) = repeat false 30
  /\ count is_sleep (emitted r) = 30%nat.
Proof. vm_compute. repeat split. Qed.

Lemma verify_download_polling_witness :
  let st := start_state [] in
  let r := verify_download (scripted appears_at_2) join_backslash 31
                           (lit "report_jan.cwa") 30 st in
  exists (b : bool) (k : nat),
    res r = Ret b
    /\ count is_sleep (emitted r) = k
    /\ polls (join_backslash (download_folder (self st))
                (name_of (sanitize_filename (Some (lit "report_jan.cwa")))))
             (emitted r)
       = repeat false k ++ (if b then [true] else [])
    /\ (k <= Z.to_nat 30)%nat
    /\ (b = false ->
        exists t0 ts t, time_readings (emitted r) = t0 :: ts ++ [t]
                        /\ (30 <= t - t0)%Z).
Proof.
  apply (@verify_download_polling Z (scripted appears_at_2) join_backslash
           (fun w => w) (scripted_well_timed appears_at_2)
           (lit "report_jan.cwa") 30 31 (start_state [])).
  - reflexivity.
  - vm_compute. lia.
Defined.

Lemma non_cwa_row_is_skipped_witness :
  let r := process_file (scripted notes_row) join_backslash 31 0 10 0
                        (start_state (lit "notes.txt")) in
  res r = Ret 0%Z
  /\ Forall (fun e => lookup_event 10 e = true) (emitted r)
  /\ count is_context_click (emitted r) = 0%nat.
Proof.
  apply (@non_cwa_row_is_skipped Z (scripted notes_row) join_backslash 31 0
           10%nat 0 (start_state (lit "notes.txt")) (lit "notes.txt")).
  - reflexivity.
  - reflexivity.
Defined.

(** C7, on the code.  No item of the context menu is found, the double
    click opens the file view, and the lookup of its download button
    fails: in each of the two attempts the view has been opened and
    [driver.back()] is not called; the attempt goes on to click the page
    body.  Where the button is found and the verification fails,
    [driver.back()] is called in each of the two attempts. *)
Theorem file_view_without_button_is_not_left :
  (let r := attempt_download (scripted view_without_button) join_backslash 31
                             10 (lit "report_jan.cwa") 0 (start_state []) in
   res r = Ret false
   /\ count is_double_click (emitted r) = 2%nat
   /\ count is_back (emitted r) = 0%nat
   /\ nth_error (emitted r) 9 = Some (Called (DoubleClick 10) (Returns tt))
   /\ nth_error (emitted r) 11
      = Some (Called (FindElement Page XPATH download_btn_xpath)
                     (Raises NoSuchElementException))
   /\ nth_error (emitted r) 12
      = Some (Logged WARNING "Could not download via file view on attempt {}"
                     [AInt 1])
   /\ nth_error (emitted r) 13
      = Some (Called (FindElement Page TAG_NAME "body") (Returns 30%nat)))
  /\ (let r := attempt_download (scripted button_but_no_file) join_backslash
                                31 10 (lit "report_jan.cwa") 0
                                (start_state []) in
      res r = Ret false
      /\ count is_double_click (emitted r) = 2%nat
      /\ count is_back (emitted r) = 2%nat).
Proof. vm_compute. repeat split. Qed.

(** C3, on the code.  In every environment [attempt_download] makes at
    most two attempts, each opened by one context click.  But a verified
    download does not always end it: where no item of the context menu is
    found, the download through the file view is verified at the first
    poll and [driver.back()] then raises, the verified attempt does not
    return; the handler logs that the download through the file view
    failed, a second attempt is made, verified in the same way and lost in
    the same way, and [attempt_download] returns [False]. *)
Theorem verified_download_is_lost_when_back_fails :
  (forall W (respond : forall T, call T -> W -> reply T * W) join fuel h
          file_name index st,
      (count is_context_click
             (emitted (attempt_download respond join fuel h file_name index st))
       <= 2)%nat)
  /\ (let r := attempt_download (scripted back_fails_after_download)
                                join_backslash 31 10 (lit "report_jan.cwa") 0
                                (start_state []) in
      res r = Ret false
      /\ count is_context_click (emitted r) = 2%nat
      /\ polls (lit "E:\dropbox\report_jan.cwa") (emitted r) = [true; true]
      /\ nth_error (emitted r) 17
         = Some (Logged INFO "Download verified: {}"
                        [AStr (lit "E:\dropbox\report_jan.cwa")])
      /\ nth_error (emitted r) 18
         = Some (Called Back (Raises WebDriverException))
      /\ nth_error (emitted r) 19
         = Some (Logged WARNING
                        "Could not download via file view on attempt {}"
                        [AInt 1])
      /\ nth_error (emitted r) 25
         = Some (Called (ContextClick 10) (Returns tt))).
Proof.
  split.
  - intros. apply attempt_download_two_attempts.
  - vm_compute. repeat split.
Qed.

(** The loop over the download selectors is not a first-match locator:
    when the item found by the first selector is clicked and the download
    is not verified, the loop goes on to the second selector. *)
Example download_selectors_go_on_after_a_failed_verification :
  let r := for_each download_selectors
             (context_menu_step (scripted item_but_no_file) join_backslash 31
                                (lit "report_jan.cwa")
                                (Some (lit "report_jan.cwa")) 0 1)
             (start_state []) in
  res r = Ret Next
  /\ nth_error (emitted r) 0
     = Some (Called (FindElement Page CSS_SELECTOR
                                 "[data-testid='download-menu-item']")
                    (Returns 20%nat))
  /\ In (Called (FindElement Page XPATH "//span[contains(text(), 'Download')]")
                (Raises NoSuchElementException))
        (emitted r).
Proof.
  vm_compute. repeat split.
  repeat (first [left; reflexivity | right]).
Qed.

(** [cleanup] is bound in the module, not in the class: the instance has
    no such attribute. *)
Lemma cleanup_is_not_a_method :
  In "cleanup"%string module_functions
  /\ ~ In "cleanup"%string (instance_attributes ++ DropboxDownloader_methods).
Proof.
  split; [now left|]. intro H.
  repeat (destruct H as [H|H]; [discriminate|]). exact H.
Qed.

(** With seven rows found, the rows touched are the first five. *)
Example seven_rows_five_touched :
  let r := process_results (scripted seven_rows) join_backslash 31
                           (rows seven_rows) (start_state []) in
  res r = Ret true
  /\ nodup Nat.eq_dec (collect row_target (emitted r))
     = [10; 11; 12; 13; 14]%nat.
Proof. vm_compute. repeat split. Qed.

(** The scenario of the two keywords: [report_jan.cwa] is downloaded and
    counted, [notes.txt] is skipped. *)
Example report_is_downloaded_and_notes_are_skipped :
  res (process_file (scripted appears_at_2) join_backslash 31 0 10 0
                    (start_state (lit "report_jan.cwa"))) = Ret 1%Z
  /\ res (process_file (scripted notes_row) join_backslash 31 0 10 0
                       (start_state (lit "notes.txt"))) = Ret 0%Z.
Proof. vm_compute. repeat split. Qed.

(* ================================================================== *)
(** * More on the sanitizer (lines 168-176) *)

Ltac all_chars c :=
  destruct c as [[] [] [] [] [] [] [] []]; vm_compute;
  try reflexivity; try discriminate; try tauto.

Lemma replace_char_safe c : forbidden (replace_char c) = false.
Proof. all_chars c. Qed.

Lemma lstrip_map (f : ascii -> ascii) s :
  (forall c, isspace (f c) = isspace c) ->
  lstrip (map f s) = map f (lstrip s).
Proof.
  intro H. induction s as [|c s IH]; simpl; [reflexivity|].
  rewrite H. now destruct (isspace c).
Qed.

(** X3. Replacing the forbidden characters and trimming commute: the
    replacement neither makes nor removes whitespace. *)
Theorem replacement_and_trimming_commute (s : pystr) :
  strip (re_sub s) = re_sub (strip s).
Proof.
  unfold strip, rstrip, re_sub.
  rewrite (lstrip_map _ _ replace_char_space).
  rewrite <- map_rev, (lstrip_map _ _ replace_char_space).
  now rewrite map_rev.
Qed.

Lemma trimmed_length t r : trimmed t r -> (List.length r <= List.length t)%nat.
Proof.
  intros (pre & post & -> & _). rewrite !length_app. lia.
Qed.

(** X1. Whatever the input, a name returned by the sanitizer holds none
    of the ten forbidden characters, neither starts nor ends with
    whitespace, and is not longer than the input. *)
Theorem sanitized_name_is_safe (filename : option pystr) (r : pystr) :
  sanitize_filename filename = Some r ->
  forallb (fun c => negb (forbidden c)) r = true
  /\ (forall c, hd_error r = Some c -> isspace c = false)
  /\ (forall c, hd_error (rev r) = Some c -> isspace c = false)
  /\ (List.length r <= List.length (name_of filename))%nat.
Proof.
  destruct filename as [[|c name]|]; try discriminate.
  unfold sanitize_filename. simpl truthy. simpl negb. cbv iota.
  destruct (eqb (lower (c :: name)) legacy_lowered) eqn:E.
  - intros [= <-]. apply eqb_eq in E.
    apply (f_equal (@List.length _)) in E. unfold lower in E.
    rewrite length_map in E.
    repeat split; try (intros ? [= <-]; reflexivity).
    cbn [name_of]. rewrite E. vm_compute. lia.
  - intros [= <-].
    pose proof (strip_trimmed (re_sub (c :: name))) as T.
    assert (L := trimmed_length T).
    assert (I := trimmed_incl T).
    destruct T as (pre & post & _ & _ & _ & Hh & Hl).
    repeat split; trivial.
    + apply forallb_forall. intros x Hx. apply I in Hx.
      unfold re_sub in Hx. apply in_map_iff in Hx as (d & <- & _).
      now rewrite replace_char_safe.
    + cbn [name_of]. unfold re_sub in L. now rewrite length_map in L.
Qed.

Lemma sanitized_name_is_safe_witness :
  forallb (fun c => negb (forbidden c)) (lit "a_b__c.cwa") = true
  /\ (forall c, hd_error (lit "a_b__c.cwa") = Some c -> isspace c = false)
  /\ (forall c, hd_error (rev (lit "a_b__c.cwa")) = Some c ->
                isspace c = false)
  /\ (List.length (lit "a_b__c.cwa")
      <= List.length (name_of (Some (lit " a<b>,c.cwa  "))))%nat.
Proof.
  apply (@sanitized_name_is_safe (Some (lit " a<b>,c.cwa  "))
                                 (lit "a_b__c.cwa")).
  reflexivity.
Defined.

Lemma startswith_app (p t : pystr) : startswith (p ++ t) p = true.
Proof.
  induction p as [|c p IH]; simpl; [now destruct t|].
  rewrite IH, andb_true_r. now apply ascii_eqb_eq.
Qed.

Lemma startswith_split (s p : pystr) :
  startswith s p = true -> exists t, s = p ++ t.
Proof.
  revert s. induction p as [|c p IH]; intros s H.
  - now exists s.
  - destruct s as [|x s]; [discriminate|]. simpl in H.
    apply andb_true_iff in H as [Hx Hs]. apply ascii_eqb_eq in Hx. subst x.
    destruct (IH s Hs) as [t ->]. now exists t.
Qed.

Lemma endswith_split (s suffix : pystr) :
  endswith s suffix = true -> exists x, s = x ++ suffix.
Proof.
  unfold endswith. intro H. apply startswith_split in H as [t H].
  exists (rev t). apply (f_equal (@rev _)) in H.
  now rewrite rev_involutive, rev_app_distr, rev_involutive in H.
Qed.

Lemma endswith_app (x suffix : pystr) : endswith (x ++ suffix) suffix = true.
Proof. unfold endswith. rewrite rev_app_distr. apply startswith_app. Qed.

Lemma lstrip_before_cwa (y : pystr) :
  exists z, lstrip (y ++ lit ".cwa") = z ++ lit ".cwa".
Proof.
  induction y as [|c y [z IH]]; simpl.
  - now exists [].
  - destruct (isspace c); [now exists z | now exists (c :: y)].
Qed.

(** X2. A name that ends in [.cwa], as every name that passes the filter
    of line 380 does, keeps its extension through the sanitizer: the
    sanitized name exists, is not empty and ends in [.cwa], so that
    [verify_download] has a name to poll for. *)
Theorem sanitizer_keeps_the_cwa_extension (name : pystr) :
  endswith name (lit ".cwa") = true ->
  exists r,
    sanitize_filename (Some name) = Some r
    /\ truthy (Some r) = true
    /\ endswith r (lit ".cwa") = true.
Proof.
  intro H. apply endswith_split in H as [x ->].
  unfold sanitize_filename.
  match goal with
  | |- context [if ?b then None else _] =>
      assert (Hb : b = false) by (destruct x; reflexivity); rewrite Hb
  end.
  match goal with
  | |- context [if ?b then Some legacy_target else _] => destruct b
  end.
  - exists legacy_target. repeat split.
  - eexists. split; [reflexivity|].
    unfold re_sub. rewrite map_app.
    change (map replace_char (lit ".cwa")) with (lit ".cwa").
    unfold strip.
    destruct (lstrip_before_cwa (map replace_char x)) as [z ->].
    unfold rstrip. rewrite rev_app_distr.
    change (rev (lit ".cwa")) with ("a" :: "w" :: "c" :: "." :: [])%char.
    cbn [app lstrip]. change (isspace "a") with false. cbv iota.
    change ("a" :: "w" :: "c" :: "." :: rev z)%char
      with (rev (lit ".cwa") ++ rev z).
    rewrite <- rev_app_distr, rev_involutive.
    split; [now destruct z | apply endswith_app].
Qed.

Lemma sanitizer_keeps_the_cwa_extension_witness :
  exists r,
    sanitize_filename (Some (lit " my:report.cwa")) = Some r
    /\ truthy (Some r) = true
    /\ endswith r (lit ".cwa") = true.
Proof.
  apply sanitizer_keeps_the_cwa_extension. reflexivity.
Defined.

(* ================================================================== *)
(** * The fields of the instance *)

Create HintDb keeps.

Section Fields.
Variable W : Type.
Variable respond : forall T, call T -> W -> reply T * W.
Variable os_path_join : pystr -> pystr -> pystr.

Lemma keeps_ret {A} (a : A) : keeps (@ret W A a).
Proof. intro st. reflexivity. Qed.

Lemma keeps_raise {A} e : keeps (@raise W A e).
Proof. intro st. reflexivity. Qed.

Lemma keeps_diverge {A} : keeps (@diverge W A).
Proof. intro st. reflexivity. Qed.

Lemma keeps_log lvl t args : keeps (@log W lvl t args).
Proof. intro st. reflexivity. Qed.

Lemma keeps_print t args : keeps (@print W t args).
Proof. intro st. reflexivity. Qed.

Lemma keeps_get_self : keeps (@get_self W).
Proof. intro st. reflexivity. Qed.

Lemma keeps_call {T} (c : call T) : keeps (do_call respond c).
Proof. intro st. unfold do_call. now destruct (respond c (world st)). Qed.

Lemma keeps_bind {A B} (m : M W A) (f : A -> M W B) :
  keeps m -> (forall a, keeps (f a)) -> keeps (bind m f).
Proof.
  intros Hm Hf st. unfold bind. specialize (Hm st).
  destruct (res (m st)); simpl; trivial. now rewrite Hf.
Qed.

Lemma keeps_try {A} catch (m : M W A) h :
  keeps m -> (forall e, keeps (h e)) -> keeps (try_except catch m h).
Proof.
  intros Hm Hh st. unfold try_except. specialize (Hm st).
  destruct (res (m st)); simpl; trivial.
  destruct (catch e); simpl; trivial. now rewrite Hh.
Qed.

Lemma keeps_try_all {A} (m : M W A) h :
  keeps m -> (forall e, keeps (h e)) -> keeps (try_except_all m h).
Proof. apply keeps_try. Qed.

Lemma keeps_try_Exception {A} (m : M W A) h :
  keeps m -> (forall e, keeps (h e)) -> keeps (try_except_Exception m h).
Proof. apply keeps_try. Qed.

Lemma keeps_for_each {X A} (xs : list X) (body : X -> M W (flow A)) :
  (forall x, keeps (body x)) -> keeps (for_each xs body).
Proof.
  intro H. induction xs as [|x xs IH]; simpl.
  - apply keeps_ret.
  - apply keeps_bind; [apply H|]. intros [|a]; [exact IH | apply keeps_ret].
Qed.

#[local] Hint Resolve keeps_ret keeps_raise keeps_diverge keeps_log
  keeps_print keeps_get_self keeps_call : keeps.
#[local] Hint Extern 2 (keeps (bind _ _)) =>
  apply keeps_bind; [|intro] : keeps.
#[local] Hint Extern 2 (keeps (try_except_all _ _)) =>
  apply keeps_try_all; [|intro] : keeps.
#[local] Hint Extern 2 (keeps (try_except_Exception _ _)) =>
  apply keeps_try_Exception; [|intro] : keeps.
#[local] Hint Extern 2 (keeps (try_except _ _ _)) =>
  apply keeps_try; [|intro] : keeps.
#[local] Hint Extern 2 (keeps (for_each _ _)) =>
  apply keeps_for_each; intro : keeps.
#[local] Hint Extern 3 (keeps (if ?b then _ else _)) => destruct b : keeps.
#[local] Hint Extern 3 (keeps (match ?x with _ => _ end)) =>
  destruct x : keeps.

Lemma keeps_verify_loop fuel p start timeout :
  keeps (verify_loop respond fuel p start timeout).
Proof.
  revert p start timeout. induction fuel as [|fuel IH]; intros; simpl;
    auto 30 with keeps.
Qed.
#[local] Hint Resolve keeps_verify_loop : keeps.

Lemma keeps_verify_download fuel filename timeout :
  keeps (verify_download respond os_path_join fuel filename timeout).
Proof. unfold verify_download. auto 30 with keeps. Qed.
#[local] Hint Resolve keeps_verify_download : keeps.

Lemma keeps_click_or_script element :
  keeps (click_or_script respond element).
Proof. unfold click_or_script. auto 30 with keeps. Qed.
#[local] Hint Resolve keeps_click_or_script : keeps.

Lemma keeps_context_menu_step fuel file_name sanitized index attempt sel :
  keeps (context_menu_step respond os_path_join fuel file_name sanitized
                           index attempt sel).
Proof. unfold context_menu_step. auto 30 with keeps. Qed.
#[local] Hint Resolve keeps_context_menu_step : keeps.

Lemma keeps_file_view_step fuel h file_name sanitized index attempt :
  keeps (file_view_step respond os_path_join fuel h file_name sanitized
                        index attempt).
Proof. unfold file_view_step. auto 30 with keeps. Qed.
#[local] Hint Resolve keeps_file_view_step : keeps.

Lemma keeps_attempt_body fuel h file_name sanitized index attempt :
  keeps (attempt_body respond os_path_join fuel h file_name sanitized
                      index attempt).
Proof. unfold attempt_body. auto 40 with keeps. Qed.
#[local] Hint Resolve keeps_attempt_body : keeps.

Lemma keeps_attempt_download fuel h file_name index :
  keeps (attempt_download respond os_path_join fuel h file_name index).
Proof. unfold attempt_download. auto 30 with keeps. Qed.
#[local] Hint Resolve keeps_attempt_download : keeps.

Lemma keeps_name_selector_step h sel :
  keeps (name_selector_step respond h sel).
Proof. unfold name_selector_step. auto 30 with keeps. Qed.
#[local] Hint Resolve keeps_name_selector_step : keeps.

Lemma keeps_name_from_attributes h attrs :
  forall file_name, keeps (name_from_attributes respond h attrs file_name).
Proof.
  induction attrs as [|attr attrs IH]; intro; simpl; auto 30 with keeps.
Qed.
#[local] Hint Resolve keeps_name_from_attributes : keeps.

Lemma keeps_derive_file_name h : keeps (derive_file_name respond h).
Proof. unfold derive_file_name. auto 30 with keeps. Qed.
#[local] Hint Resolve keeps_derive_file_name : keeps.

Lemma keeps_log_element_html h : keeps (log_element_html respond h).
Proof. unfold log_element_html. auto 30 with keeps. Qed.
#[local] Hint Resolve keeps_log_element_html : keeps.

Lemma keeps_process_file fuel i h n :
  keeps (process_file respond os_path_join fuel i h n).
Proof. unfold process_file. auto 40 with keeps. Qed.
#[local] Hint Resolve keeps_process_file : keeps.

Lemma keeps_process_files fuel rows :
  forall i n, keeps (process_files respond os_path_join fuel i rows n).
Proof.
  induction rows as [|h rows IH]; intros; simpl; auto 30 with keeps.
Qed.
#[local] Hint Resolve keeps_process_files : keeps.

Lemma keeps_get_search_input : keeps (get_search_input respond).
Proof. unfold get_search_input. auto 30 with keeps. Qed.
#[local] Hint Resolve keeps_get_search_input : keeps.

Lemma keeps_clear_search_context : keeps (clear_search_context respond).
Proof. unfold clear_search_context. auto 40 with keeps. Qed.
#[local] Hint Resolve keeps_clear_search_context : keeps.

Lemma keeps_find_files : keeps (find_files respond).
Proof. unfold find_files. auto 30 with keeps. Qed.
#[local] Hint Resolve keeps_find_files : keeps.

Lemma keeps_process_results fuel files_found :
  keeps (process_results respond os_path_join fuel files_found).
Proof. unfold process_results. auto 30 with keeps. Qed.
#[local] Hint Resolve keeps_process_results : keeps.

Lemma keeps_search_and_download fuel :
  keeps (search_and_download respond os_path_join fuel).
Proof. unfold search_and_download. auto 40 with keeps. Qed.

Lemma keeps_login_to_dropbox : keeps (login_to_dropbox respond).
Proof. unfold login_to_dropbox. auto 60 with keeps. Qed.

End Fields.

#[global] Hint Resolve keeps_ret keeps_raise keeps_diverge keeps_log
  keeps_print keeps_get_self keeps_call keeps_verify_loop
  keeps_verify_download keeps_click_or_script keeps_context_menu_step
  keeps_file_view_step keeps_attempt_body keeps_attempt_download
  keeps_name_selector_step keeps_name_from_attributes
  keeps_derive_file_name keeps_log_element_html keeps_process_file
  keeps_process_files keeps_get_search_input keeps_clear_search_context
  keeps_find_files keeps_process_results keeps_search_and_download
  keeps_login_to_dropbox : keeps.
#[global] Hint Extern 2 (keeps (bind _ _)) =>
  apply keeps_bind; [|intro] : keeps.
#[global] Hint Extern 2 (keeps (try_except_all _ _)) =>
  apply keeps_try_all; [|intro] : keeps.
#[global] Hint Extern 2 (keeps (try_except_Exception _ _)) =>
  apply keeps_try_Exception; [|intro] : keeps.
#[global] Hint Extern 2 (keeps (try_except _ _ _)) =>
  apply keeps_try; [|intro] : keeps.
#[global] Hint Extern 2 (keeps (for_each _ _)) =>
  apply keeps_for_each; intro : keeps.
#[global] Hint Extern 3 (keeps (if ?b then _ else _)) => destruct b : keeps.
#[global] Hint Extern 3 (keeps (match ?x with _ => _ end)) =>
  destruct x : keeps.

(* ================================================================== *)
(** * A download reported as done was seen in the folder *)

Section Yields.
Variable W : Type.
Variable V : instance -> list event -> Prop.
Hypothesis V_after : forall i pre evs, V i evs -> V i (pre ++ evs).
Hypothesis V_before : forall i evs post, V i evs -> V i (evs ++ post).

Lemma yields_keep {A} (S : A -> bool) (m : M W A) :
  keeps m -> (forall a, S a = false) -> yields V S m.
Proof.
  intros K F st. split; [apply K|]. intros a _ H. rewrite F in H.
  discriminate.
Qed.

Lemma yields_ret {A} (S : A -> bool) (a : A) :
  S a = false -> yields V S (@ret W A a).
Proof.
  intros F st. split; [reflexivity|]. intros b H Sb. simpl in H.
  inversion H; subst. congruence.
Qed.

Lemma yields_diverge {A} (S : A -> bool) : yields V S (@diverge W A).
Proof. intro st. split; [reflexivity|]. intros b H. discriminate. Qed.

Lemma yields_bind {A B} (S1 : A -> bool) (S : B -> bool) (m : M W A)
      (f : A -> M W B) :
  yields V S1 m ->
  (forall a, keeps (f a)) ->
  (forall a, S1 a = false -> yields V S (f a)) ->
  yields V S (bind m f).
Proof.
  intros Hm K Hf st. destruct (Hm st) as [Ks Vm]. unfold bind.
  destruct (res (m st)) as [a|e|] eqn:E; simpl.
  - split; [now rewrite K|]. intros b Hb Sb.
    destruct (S1 a) eqn:E1.
    + apply V_before. now apply (Vm a).
    + destruct (Hf a E1 (final (m st))) as [_ Vf]. apply V_after.
      rewrite <- Ks. now apply (Vf b).
  - split; [exact Ks|]. intros; discriminate.
  - split; [exact Ks|]. intros; discriminate.
Qed.

Lemma yields_bind_keep {A B} (S : B -> bool) (m : M W A) (f : A -> M W B) :
  keeps m -> (forall a, yields V S (f a)) -> yields V S (bind m f).
Proof.
  intros K Hf. apply yields_bind with (S1 := fun _ => false).
  - now apply yields_keep.
  - intros a st. apply (Hf a).
  - intros a _. apply Hf.
Qed.

Lemma yields_bind_post {A B} (Q : A -> Prop) (S : B -> bool) (m : M W A)
      (f : A -> M W B) :
  keeps m -> hoare True (fun _ => True) m Q ->
  (forall a, Q a -> yields V S (f a)) ->
  yields V S (bind m f).
Proof.
  intros K Hm Hf st. specialize (K st). specialize (Hm st). unfold bind.
  destruct (res (m st)) as [a|e|] eqn:E; simpl.
  - destruct (Hf a Hm (final (m st))) as [Kf Vf].
    split; [now rewrite Kf|]. intros b Hb Sb. apply V_after.
    rewrite <- K. now apply (Vf b).
  - split; [exact K|]. intros; discriminate.
  - split; [exact K|]. intros; discriminate.
Qed.

Lemma yields_try {A} (S : A -> bool) catch (m : M W A) h :
  yields V S m -> (forall e, yields V S (h e)) ->
  yields V S (try_except catch m h).
Proof.
  intros Hm Hh st. destruct (Hm st) as [Ks Vm]. unfold try_except.
  destruct (res (m st)) as [a|e|] eqn:E; simpl.
  - split; [exact Ks|]. now rewrite E.
  - destruct (catch e); simpl.
    + destruct (Hh e (final (m st))) as [Kh Vh].
      split; [now rewrite Kh|]. intros b Hb Sb. apply V_after.
      rewrite <- Ks. now apply (Vh b).
    + split; [exact Ks|]. now rewrite E.
  - split; [exact Ks|]. now rewrite E.
Qed.

Lemma yields_for_each {X A} (S : A -> bool) (xs : list X)
      (body : X -> M W (flow A)) :
  (forall x, yields V (stops S) (body x)) ->
  yields V (stops S) (for_each xs body).
Proof.
  intro H. induction xs as [|x xs IH]; simpl.
  - now apply yields_ret.
  - apply yields_bind with (S1 := stops S); [apply H| |].
    + intros [|a] st; [apply IH | reflexivity].
    + intros [|a] E; [exact IH | now apply yields_ret].
Qed.

End Yields.

Section Seen.
Variable W : Type.
Variable respond : forall T, call T -> W -> reply T * W.
Variable os_path_join : pystr -> pystr -> pystr.

Lemma seen_after (p : pystr) (i : instance) (pre evs : list event) :
  existsb (saw_file p) evs = true -> existsb (saw_file p) (pre ++ evs) = true.
Proof. intro H. rewrite existsb_app, H. apply orb_true_r. Qed.

Lemma seen_before (p : pystr) (i : instance) (evs post : list event) :
  existsb (saw_file p) evs = true -> existsb (saw_file p) (evs ++ post) = true.
Proof. intro H. now rewrite existsb_app, H. Qed.

Lemma yields_poll p :
  yields (fun _ evs => existsb (saw_file p) evs = true) (fun found => found)
         (do_call respond (PathExists p)).
Proof.
  intro st. unfold do_call. destruct (respond (PathExists p) (world st))
    as [r w]. simpl. split; [reflexivity|]. intros a Hr Sa. subst a.
  destruct r as [b|e]; simpl in Hr; inversion Hr; subst.
  simpl. unfold saw_file. simpl. now rewrite eqb_refl.
Qed.

Lemma yields_verify_loop fuel p :
  forall start timeout,
    yields (fun _ evs => existsb (saw_file p) evs = true) (fun b => b)
           (verify_loop respond fuel p start timeout).
Proof.
  induction fuel as [|fuel IH]; intros start timeout; simpl.
  - apply yields_diverge.
  - apply yields_bind_keep;
      [apply seen_after | apply seen_before | apply keeps_call |].
    intro now. destruct (now - start <? timeout)%Z.
    + apply yields_bind with (S1 := fun found : bool => found);
        [apply seen_after | apply seen_before | apply yields_poll | |].
      * intros [|]; auto 30 with keeps.
      * intros [|] E; [discriminate|].
        apply yields_bind_keep;
          [apply seen_after | apply seen_before | apply keeps_call |].
        intro partial.
        apply yields_bind_keep;
          [apply seen_after | apply seen_before | auto with keeps |].
        intros _.
        apply yields_bind_keep;
          [apply seen_after | apply seen_before | apply keeps_call |].
        intros _. apply IH.
    + apply yields_bind_keep;
        [apply seen_after | apply seen_before | apply keeps_log |].
      intros _. now apply yields_ret.
Qed.

End Seen.

Section Reported.
Variable W : Type.
Variable respond : forall T, call T -> W -> reply T * W.
Variable os_path_join : pystr -> pystr -> pystr.
Variable file_name : pystr.

Let V := verified os_path_join file_name.

Lemma verified_after i pre evs : V i evs -> V i (pre ++ evs).
Proof. apply seen_after. exact i. Qed.

Lemma verified_before i evs post : V i evs -> V i (evs ++ post).
Proof. apply seen_before. exact i. Qed.

Ltac keep_on :=
  apply yields_bind_keep;
  [apply verified_after | apply verified_before
  | solve [auto 30 with keeps] | intro].

Ltac hand_on S :=
  apply yields_bind with (S1 := S);
  [apply verified_after | apply verified_before | | | ].

Ltac hand_back :=
  apply yields_ret; reflexivity.

Lemma yields_verify_download fuel timeout :
  yields V (fun b => b)
         (verify_download respond os_path_join fuel file_name timeout).
Proof.
  intro st. unfold verify_download.
  destruct (truthy (sanitize_filename (Some file_name))); simpl negb; cbv iota.
  - assert (H : yields (fun _ evs =>
        existsb (saw_file (expected_path os_path_join (self st) file_name))
                evs = true) (fun b : bool => b)
      (bind (do_call respond Time) (fun start =>
         verify_loop respond fuel
           (expected_path os_path_join (self st) file_name) start timeout))).
    { apply yields_bind_keep;
        [apply seen_after | apply seen_before | apply keeps_call |].
      intro. apply yields_verify_loop. }
    destruct (H st) as [Ks Vm].
    split; [exact Ks|]. intros a Hr Sa. exact (Vm a Hr Sa).
  - split; [reflexivity|]. intros a Hr Sa. simpl in Hr.
    inversion Hr; subst. discriminate.
Qed.

Lemma yields_context_menu_step fuel sanitized index attempt sel :
  yields V (stops (fun b => b))
         (context_menu_step respond os_path_join fuel file_name sanitized
                            index attempt sel).
Proof.
  unfold context_menu_step.
  apply yields_try; [apply verified_after | | intro; hand_back].
  do 3 keep_on. hand_on (fun b : bool => b).
  - apply yields_verify_download.
  - auto 30 with keeps.
  - intros [|] E; [discriminate|]. keep_on. hand_back.
Qed.

Lemma yields_file_view_step fuel h sanitized index attempt :
  yields V (stops (fun b => b))
         (file_view_step respond os_path_join fuel h file_name sanitized
                         index attempt).
Proof.
  unfold file_view_step.
  apply yields_try; [apply verified_after | | intro; keep_on; hand_back].
  do 5 keep_on. hand_on (fun b : bool => b).
  - apply yields_verify_download.
  - auto 30 with keeps.
  - intros [|] E; [discriminate|]. do 3 keep_on. hand_back.
Qed.

Lemma yields_attempt_body fuel h sanitized index attempt :
  yields V (stops (fun b => b))
         (attempt_body respond os_path_join fuel h file_name sanitized
                       index attempt).
Proof.
  unfold attempt_body. hand_on (stops (fun b : bool => b)).
  - apply yields_try; [apply verified_after | | intro; keep_on; hand_back].
    do 2 keep_on. hand_on (stops (fun b : bool => b)).
    + apply yields_for_each;
        [apply verified_after | apply verified_before |].
      intro. apply yields_context_menu_step.
    + auto 30 with keeps.
    + intros [|b] E; [apply yields_file_view_step|]. now apply yields_ret.
  - auto 30 with keeps.
  - intros [|b] E; [|now apply yields_ret]. do 2 keep_on. hand_back.
Qed.

Lemma yields_attempt_download fuel h index :
  yields V (fun b => b)
         (attempt_download respond os_path_join fuel h file_name index).
Proof.
  unfold attempt_download. hand_on (stops (fun b : bool => b)).
  - apply yields_for_each; [apply verified_after | apply verified_before |].
    intro. apply yields_attempt_body.
  - auto 30 with keeps.
  - intros [|b] E; [keep_on; hand_back | now apply yields_ret].
Qed.

End Reported.

(** X4.  When [attempt_download] returns [True], one of its calls of
    [os.path.exists] on the path expected for the file name, the
    download folder joined with the sanitized name, has answered
    [True]: no download is reported that was not seen in the folder.
    This holds in every environment and for every bound on the polling
    loop. *)
Theorem reported_download_was_seen :
  forall W (respond : forall T, call T -> W -> reply T * W)
         (os_path_join : pystr -> pystr -> pystr) (fuel : nat) (h : handle)
         (file_name : pystr) (index : Z) (st : state W),
    res (attempt_download respond os_path_join fuel h file_name index st)
    = Ret true ->
    verified os_path_join file_name (self st)
             (emitted (attempt_download respond os_path_join fuel h
                                        file_name index st)).
Proof.
  intros W respond os_path_join fuel h file_name index st H.
  destruct (yields_attempt_download respond os_path_join file_name fuel h
              index st) as [_ Hv].
  now apply (Hv true).
Qed.

Lemma reported_download_was_seen_witness :
  verified join_backslash (lit "report_jan.cwa") (self (start_state []))
           (emitted (attempt_download (scripted appears_at_2) join_backslash
                                      31 10 (lit "report_jan.cwa") 0
                                      (start_state []))).
Proof.
  apply (@reported_download_was_seen Z (scripted appears_at_2) join_backslash
           31 10%nat (lit "report_jan.cwa") 0%Z (start_state [])).
  vm_compute. reflexivity.
Defined.

(* ================================================================== *)
(** * The download counter (lines 326-398) *)

Section Counter.
Variable W : Type.
Variable respond : forall T, call T -> W -> reply T * W.
Variable os_path_join : pystr -> pystr -> pystr.

Lemma yields_weaken {A} (V V' : instance -> list event -> Prop)
      (S : A -> bool) (m : M W A) :
  (forall i evs, V i evs -> V' i evs) -> yields V S m -> yields V' S m.
Proof.
  intros HV H st. destruct (H st) as [K Hv]. split; [exact K|].
  intros a Hr Sa. apply HV. now apply (Hv a).
Qed.

(** Some name ending in [.cwa] was seen in the folder. *)
Let seen_cwa (i : instance) (evs : list event) : Prop :=
  exists name, endswith name (lit ".cwa") = true
               /\ lowered (Some name)
               /\ verified os_path_join name i evs.

Lemma seen_cwa_after i pre evs : seen_cwa i evs -> seen_cwa i (pre ++ evs).
Proof.
  intros (name & E & L & H). exists name. split; [exact E|]. split; [exact L|].
  now apply verified_after.
Qed.

Lemma seen_cwa_before i evs post : seen_cwa i evs -> seen_cwa i (evs ++ post).
Proof.
  intros (name & E & L & H). exists name. split; [exact E|]. split; [exact L|].
  now apply verified_before.
Qed.

Lemma yields_process_file fuel i h n :
  yields seen_cwa (fun n' => negb (n' =? n)%Z)
         (process_file respond os_path_join fuel i h n).
Proof.
  assert (Hn : negb (n =? n)%Z = false) by now rewrite Z.eqb_refl.
  unfold process_file.
  apply yields_try; [apply seen_cwa_after | |].
  - apply yields_bind_post with (Q := lowered);
      [apply seen_cwa_after | auto with keeps
      | apply derive_file_name_lowered |].
    intros fn L. destruct (truthy fn) eqn:T; cbn [negb].
    + destruct (endswith (name_of fn) (lit ".cwa")) eqn:E; cbn [negb].
      * apply yields_bind with (S1 := fun b : bool => b);
          [apply seen_cwa_after | apply seen_cwa_before | | |].
        -- eapply yields_weaken; [|apply yields_attempt_download].
           intros i0 evs Hv. exists (name_of fn). split; [exact E|].
           split; [|exact Hv]. destruct fn as [s|]; [|discriminate].
           intros n0 [= <-]. now apply L.
        -- auto with keeps.
        -- intros [|] F; [discriminate|]. now apply yields_ret.
      * apply yields_bind_keep;
          [apply seen_cwa_after | apply seen_cwa_before
          | auto with keeps | intro].
        now apply yields_ret.
    + do 2 (apply yields_bind_keep;
            [apply seen_cwa_after | apply seen_cwa_before
            | solve [auto 30 with keeps] | intro]).
      now apply yields_ret.
  - intro e.
    do 3 (apply yields_bind_keep;
          [apply seen_cwa_after | apply seen_cwa_before
          | solve [auto 30 with keeps] | intro]).
    now apply yields_ret.
Qed.

(** Outcomes when nothing is assumed of the environment. *)
Lemma hoare_anyway {A} (m : M W A) :
  hoare True (fun _ => True) m (fun _ => True).
Proof. intro st. now destruct (res (m st)). Qed.

Ltac anyway :=
  repeat first
    [ apply hoare_ret
    | eapply hoare_bind; [apply hoare_anyway | intros ? _]
    | match goal with
      | |- hoare _ _ (if ?b then _ else _) _ => destruct b
      end ].

Lemma process_file_counts_one fuel i h n :
  hoare True (fun _ => True) (process_file respond os_path_join fuel i h n)
        (fun n' => n' = n \/ n' = (n + 1)%Z).
Proof.
  unfold process_file.
  eapply hoare_try with (E1 := fun _ => True).
  - anyway; auto.
  - intros e _. destruct (is_Exception e); [|exact I]. anyway; auto.
Qed.

Lemma process_files_counts fuel rows :
  forall i n,
    hoare True (fun _ => True)
          (process_files respond os_path_join fuel i rows n)
          (fun n' => (n <= n' <= n + Z.of_nat (List.length rows))%Z).
Proof.
  induction rows as [|h rows IH]; intros i n; simpl process_files.
  - apply hoare_ret. simpl. lia.
  - eapply hoare_bind; [apply process_file_counts_one|].
    intros n1 H1. eapply hoare_weaken; [apply IH | trivial | trivial |].
    intros n' H. cbn beta in *. cbn [List.length]. rewrite Nat2Z.inj_succ. lia.
Qed.

End Counter.

(** X5.  The counter of downloads goes up by at most one per result
    row and never down: over a list of rows it ends between its first
    value and that value plus the number of rows. *)
Theorem counter_moves_by_at_most_one_per_row :
  forall W (respond : forall T, call T -> W -> reply T * W)
         (os_path_join : pystr -> pystr -> pystr) (fuel : nat) (i : Z)
         (rows : list handle) (n n' : Z) (st : state W),
    res (process_files respond os_path_join fuel i rows n st) = Ret n' ->
    (n <= n' <= n + Z.of_nat (List.length rows))%Z.
Proof.
  intros W respond os_path_join fuel i rows n n' st H.
  pose proof (process_files_counts respond os_path_join fuel rows i n st)
    as B.
  rewrite H in B. exact B.
Qed.

Lemma counter_moves_by_at_most_one_per_row_witness :
  (0 <= 3 <= 0 + Z.of_nat (List.length [10; 11; 12]%nat))%Z.
Proof.
  apply (@counter_moves_by_at_most_one_per_row Z (scripted seven_rows)
           join_backslash 31 0%Z [10; 11; 12]%nat 0%Z 3%Z (start_state [])).
  vm_compute. reflexivity.
Defined.

(** X6.  A result row moves the counter by one or leaves it, and it
    moves it only for a name in lower case that ends in [.cwa] and
    whose sanitized form was seen in the download folder while the row
    was processed. *)
Theorem counted_row_was_seen :
  forall W (respond : forall T, call T -> W -> reply T * W)
         (os_path_join : pystr -> pystr -> pystr) (fuel : nat) (i : Z)
         (h : handle) (n n' : Z) (st : state W),
    res (process_file respond os_path_join fuel i h n st) = Ret n' ->
    (n' = n \/ n' = (n + 1)%Z)
    /\ (n' <> n ->
        exists name,
          endswith name (lit ".cwa") = true
          /\ lower name = name
          /\ verified os_path_join name (self st)
                      (emitted (process_file respond os_path_join fuel i h n
                                             st))).
Proof.
  intros W respond os_path_join fuel i h n n' st H. split.
  - pose proof (process_file_counts_one respond os_path_join fuel i h n st)
      as B.
    rewrite H in B. exact B.
  - intro D.
    destruct (yields_process_file respond os_path_join fuel i h n st)
      as [_ Hv].
    destruct (Hv n' H) as (name & E & L & V).
    + apply negb_true_iff. now apply Z.eqb_neq.
    + exists name. split; [exact E|]. split; [now apply L | exact V].
Qed.

Lemma counted_row_was_seen_witness :
  let r := process_file (scripted appears_at_2) join_backslash 31 0 10 0
                        (start_state (lit "report_jan.cwa")) in
  (1 = 0 \/ 1 = 0 + 1)%Z
  /\ (1%Z <> 0%Z ->
      exists name,
        endswith name (lit ".cwa") = true
        /\ lower name = name
        /\ verified join_backslash name
                    (self (start_state (lit "report_jan.cwa"))) (emitted r)).
Proof.
  apply (@counted_row_was_seen Z (scripted appears_at_2) join_backslash 31
           0%Z 10%nat 0%Z 1%Z (start_state (lit "report_jan.cwa"))).
  vm_compute. reflexivity.
Defined.

(* ================================================================== *)
(** * What the value returned says about the log *)

Lemma last_is_after (P : event -> Prop) pre evs :
  last_is P evs -> last_is P (pre ++ evs).
Proof.
  intros (pre' & l & -> & H). exists (pre ++ pre'), l.
  now rewrite app_assoc.
Qed.

Lemma last_is_one (P : event -> Prop) e : P e -> last_is P [e].
Proof. intro H. now exists [], e. Qed.

Section Reports.
Variable W : Type.
Variable respond : forall T, call T -> W -> reply T * W.

Section ReportRules.
Variable B : Type.
Variable R : B -> list event -> Prop.
Hypothesis R_after : forall b pre evs, R b evs -> R b (pre ++ evs).

Lemma reports_ret (b : B) : R b [] -> reports R (@ret W B b).
Proof. intros H st a [= <-]. exact H. Qed.

Lemma reports_raise e : reports R (@raise W B e).
Proof. intros st a H. discriminate. Qed.

Lemma reports_bind_post {A} (Q : A -> Prop) (m : M W A) (f : A -> M W B) :
  hoare True (fun _ => True) m Q ->
  (forall a, Q a -> reports R (f a)) ->
  reports R (bind m f).
Proof.
  intros Hm Hf st b. specialize (Hm st). unfold bind.
  destruct (res (m st)) as [a|e|]; simpl; try discriminate.
  intro H. apply R_after. now apply (Hf a Hm).
Qed.

Lemma reports_bind {A} (m : M W A) (f : A -> M W B) :
  (forall a, reports R (f a)) -> reports R (bind m f).
Proof.
  intro Hf. apply reports_bind_post with (Q := fun _ => True).
  - intro st. now destruct (res (m st)).
  - intros a _. apply Hf.
Qed.

Lemma reports_try catch (m : M W B) h :
  reports R m -> (forall e, reports R (h e)) ->
  reports R (try_except catch m h).
Proof.
  intros Hm Hh st b. specialize (Hm st). unfold try_except.
  destruct (res (m st)) as [a|e|] eqn:E; simpl.
  - rewrite E. apply Hm.
  - destruct (catch e); simpl.
    + intro H. apply R_after. now apply (Hh e).
    + rewrite E. discriminate.
  - rewrite E. discriminate.
Qed.

Lemma reports_log_ret lvl t args (b : B) :
  R b [Logged lvl t args] ->
  reports R (bind (@log W lvl t args) (fun _ => ret b)).
Proof. intros H st a [= <-]. exact H. Qed.

Lemma reports_call_ret {T} (c : call T) (b : B) :
  (forall v, R b [Called c (Returns v)]) ->
  reports R (bind (do_call respond c) (fun _ => ret b)).
Proof.
  intros H st a. unfold bind, do_call.
  destruct (respond c (world st)) as [[v|e] w]; simpl; [|discriminate].
  intros [= <-]. apply H.
Qed.

End ReportRules.

Lemma reports_for_each {X A} (R : A -> event -> Prop) (xs : list X)
      (body : X -> M W (flow A)) :
  (forall x, reports (stopped R) (body x)) ->
  reports (stopped R) (for_each xs body).
Proof.
  intro H. induction xs as [|x xs IH]; simpl.
  - intros st a [= <-]. exact I.
  - intros st f. specialize (H x st). unfold bind.
    destruct (res (body x st)) as [[|a]|e|]; simpl; try discriminate.
    + intro Hr. specialize (IH _ _ Hr). destruct f as [|a]; [exact I|].
      now apply last_is_after.
    + intros [= <-]. rewrite app_nil_r. now apply H.
Qed.

(** A loop followed by the [return] of the value it left with. *)
Lemma ends_after_loop {A B} (R : B -> event -> Prop) (g : A -> B)
      (m : M W (flow A)) (k : M W B) :
  reports (stopped (fun a => R (g a))) m ->
  ends R k ->
  ends R (bind m (fun f => match f with
                           | Stop a => ret (g a)
                           | Next => k
                           end)).
Proof.
  intros Hm Hk st b. specialize (Hm st). unfold bind.
  destruct (res (m st)) as [[|a]|e|]; simpl; try discriminate.
  - intro Hr. apply last_is_after. now apply Hk.
  - intros [= <-]. rewrite app_nil_r. now apply (Hm (Stop a)).
Qed.

End Reports.

Ltac ends_step :=
  first
    [ apply reports_log_ret; apply last_is_one
    | apply reports_call_ret; intro; apply last_is_one
    | apply reports_try; [intros; now apply last_is_after | | intro]
    | apply reports_bind; [intros; now apply last_is_after | intro]
    | match goal with
      | |- reports _ (if ?b then _ else _) => destruct b
      | |- reports _ (match ?x with _ => _ end) => destruct x
      end ].

Section SearchReport.
Variable W : Type.
Variable respond : forall T, call T -> W -> reply T * W.
Variable os_path_join : pystr -> pystr -> pystr.

Lemma ends_process_results fuel files_found :
  ends search_report (process_results respond os_path_join fuel files_found).
Proof.
  unfold ends, process_results. ends_step. ends_step.
  - ends_step. simpl. left. eauto.
  - ends_step.
    apply reports_bind_post
      with (Q := fun n => (0 <= n <= 0 + Z.of_nat (List.length
                             (firstn 5 (h :: files_found))))%Z);
      [intros; now apply last_is_after | apply process_files_counts |].
    intros n Hn. ends_step. simpl. right. exists (keyword a), n.
    split; [|reflexivity].
    pose proof (firstn_le_length 5 (h :: files_found)). lia.
Qed.

End SearchReport.

(** X7.  The value of [search_and_download] is told by the last
    record it wrote.  [False] comes only after an ERROR record (no
    search box, or an exception of the search itself).  [True] comes
    after the warning that no file was found, or after the closing
    count of downloads, which is between 0 and 5: a search whose
    downloads all failed still returns [True]. *)
Theorem search_result_is_told_by_the_last_record :
  forall W (respond : forall T, call T -> W -> reply T * W)
         (os_path_join : pystr -> pystr -> pystr) (fuel : nat)
         (st : state W) (b : bool),
    res (search_and_download respond os_path_join fuel st) = Ret b ->
    exists pre l,
      emitted (search_and_download respond os_path_join fuel st) = pre ++ [l]
      /\ search_report b l.
Proof.
  intros W respond os_path_join fuel st b H.
  assert (E : ends search_report
                   (search_and_download respond os_path_join fuel)).
  { unfold ends, search_and_download.
    apply reports_try; [intros; now apply last_is_after | | intro].
    - do 2 ends_step. destruct a0 as [h|].
      + do 6 ends_step. apply ends_process_results.
      + ends_step. exact I.
    - do 1 ends_step. ends_step. exact I. }
  exact (E st b H).
Qed.

Lemma search_result_is_told_by_the_last_record_witness :
  exists pre l,
    emitted (search_and_download (scripted never_appears) join_backslash 31
                                 (start_state (lit "report_jan.cwa")))
    = pre ++ [l]
    /\ search_report true l.
Proof.
  apply (@search_result_is_told_by_the_last_record Z
           (scripted never_appears) join_backslash 31
           (start_state (lit "report_jan.cwa")) true).
  vm_compute. reflexivity.
Defined.

(** In the environment where the file never appears the search returns
    [True] and its closing record counts no download. *)
Example failed_downloads_still_return_true :
  let r := search_and_download (scripted never_appears) join_backslash 31
                               (start_state (lit "report_jan.cwa")) in
  res r = Ret true
  /\ last (emitted r) (Printed "" [])
     = Logged INFO "Completed search for '{}': {} .cwa downloads initiated"
              [AStr (lit "report_jan.cwa"); AInt 0].
Proof. vm_compute. split; reflexivity. Qed.

(* ================================================================== *)
(** * Setting up and logging in (lines 46-111) *)

Section Session.
Variable W : Type.
Variable respond : forall T, call T -> W -> reply T * W.

Lemma bind_print {B} t args (f : unit -> M W B) st :
  bind (print t args) f st = prepend [Printed t args] (f tt st).
Proof. reflexivity. Qed.

Lemma bind_get_self {B} (f : instance -> M W B) st :
  bind get_self f st = prepend [] (f (self st) st).
Proof. reflexivity. Qed.

Lemma bind_set_self {B} i (f : unit -> M W B) st :
  bind (set_self i) f st
  = prepend [] (f tt {| world := world st; self := i |}).
Proof. reflexivity. Qed.

End Session.

Ltac step_call H :=
  match type of H with
  | context [bind (do_call ?rsp ?c) ?f ?s] =>
      let E := fresh "E" in
      let w := fresh "w" in
      let e := fresh "e" in
      destruct (rsp _ c (world s)) as [[[]|e] w] eqn:E;
      [ rewrite (bind_returns rsp f s E) in H
      | rewrite (bind_raises rsp f s E) in H ]
  end.

Ltac step_pure H :=
  repeat first [ rewrite bind_log in H | rewrite bind_print in H
               | rewrite bind_get_self in H | rewrite bind_set_self in H ].

Ltac last_one :=
  repeat match goal with
         | |- last_is _ (?x :: ?y :: ?l) =>
             apply (@last_is_after _ [x] (y :: l)%list)
         end;
  apply last_is_one.

(** X8.  [login_to_dropbox] ends in one of three ways, in every
    environment.  It returns [True] having emitted exactly this: the
    page load, the record of it, the seven lines of the prompt, the
    operator's ENTER, the wait for the search box returning, and the
    record of success.  Or it returns [False] and the last thing it did
    was to write an ERROR record.  Or a call was interrupted from the
    keyboard, that call is the last event, and the interrupt goes on to
    the caller.  No other exception leaves it. *)
Theorem login_ends_in_one_of_three_ways :
  forall W (respond : forall T, call T -> W -> reply T * W) (st : state W),
  let r := login_to_dropbox respond st in
  (res r = Ret true
   /\ emitted r
      = login_preamble
          ++ [Called (Input "Press ENTER after completing login...")
                     (Returns tt);
              Called (WaitAnyPresent ["[data-testid='search-input']";
                                      "input[placeholder*='Search']";
                                      ".search-input"]%string) (Returns tt);
              Logged INFO "Successfully logged in to Dropbox" []])
  \/ (res r = Ret false /\ last_is is_error_log (emitted r))
  \/ (res r = Raise KeyboardInterrupt
      /\ last_is (is_raised_by KeyboardInterrupt) (emitted r)).
Proof.
  intros W respond st.
  unfold login_to_dropbox, try_except_Exception.
  match goal with
  | |- context [try_except _ ?m ?h st] => set (body := m); set (handler := h)
  end.
  assert (Hbody :
    (res (body st) = Ret true
     /\ emitted (body st)
        = login_preamble
            ++ [Called (Input "Press ENTER after completing login...")
                       (Returns tt);
                Called (WaitAnyPresent ["[data-testid='search-input']";
                                        "input[placeholder*='Search']";
                                        ".search-input"]%string) (Returns tt);
                Logged INFO "Successfully logged in to Dropbox" []])
    \/ (res (body st) = Ret false /\ last_is is_error_log (emitted (body st)))
    \/ (exists e, res (body st) = Raise e
                  /\ last_is (is_raised_by e) (emitted (body st)))).
  { remember (body st) as r eqn:Hr. subst body.
    step_call Hr.
    - step_pure Hr. step_call Hr.
      + unfold try_except in Hr. step_call Hr.
        * step_pure Hr. subst r. left. split; reflexivity.
        * cbn [res prepend final emitted] in Hr.
          destruct (is_TimeoutException e) eqn:T.
          -- step_pure Hr. subst r. right. left.
             split; [reflexivity|]. cbn. last_one. exact I.
          -- subst r. right. right. exists e. split; [reflexivity|].
             cbn. last_one. now eexists _, _.
      + subst r. right. right. exists e. split; [reflexivity|].
        cbn. last_one. now eexists _, _.
    - subst r. right. right. exists e. split; [reflexivity|].
      cbn. last_one. now eexists _, _. }
  unfold try_except. cbv zeta.
  destruct Hbody as [[R E]|[[R E]|(e & R & E)]]; rewrite R; cbv beta iota.
  - left. split; [exact R | exact E].
  - right. left. split; [exact R | exact E].
  - destruct (is_Exception e) eqn:X.
    + right. left. split; [reflexivity|]. cbn.
      eexists _, _. split; [reflexivity | exact I].
    + destruct e; try discriminate. right. right.
      split; [exact R | exact E].
Qed.

(** X9.  [setup_driver] keeps the keyword and the download folder,
    and ends in one of two ways.  It returns with the [driver] field
    set, after starting Chrome on the download folder of the instance,
    maximizing the window and writing one record.  Or it raises the
    very exception that its last call raised, after writing two ERROR
    records when that exception is of class [Exception], and nothing
    when it is an interrupt from the keyboard. *)
Theorem setup_driver_returns_ready_or_reraises :
  forall W (respond : forall T, call T -> W -> reply T * W) (st : state W),
  let r := setup_driver respond st in
  keyword (self (final r)) = keyword (self st)
  /\ download_folder (self (final r)) = download_folder (self st)
  /\ ((res r = Ret tt
       /\ driver (self (final r)) = true
       /\ emitted r
          = [Called (Chrome (download_folder (self st))) (Returns tt);
             Called MaximizeWindow (Returns tt);
             Logged INFO "Chrome driver initialized successfully" []])
      \/ (exists e pre,
             res r = Raise e
             /\ last_is (is_raised_by e) pre
             /\ emitted r
                = pre ++ (if is_Exception e
                          then [Logged ERROR
                                  "Error setting up Chrome driver: {}"
                                  [AExn e];
                                Logged ERROR
                                  "Make sure ChromeDriver is installed and in PATH"
                                  []]
                          else []))).
Proof.
  intros W respond st.
  unfold setup_driver, try_except_Exception.
  match goal with
  | |- context [try_except _ ?m ?h st] => set (body := m); set (handler := h)
  end.
  assert (Hbody :
    keyword (self (final (body st))) = keyword (self st)
    /\ download_folder (self (final (body st))) = download_folder (self st)
    /\ ((res (body st) = Ret tt
         /\ driver (self (final (body st))) = true
         /\ emitted (body st)
            = [Called (Chrome (download_folder (self st))) (Returns tt);
               Called MaximizeWindow (Returns tt);
               Logged INFO "Chrome driver initialized successfully" []])
        \/ (exists e, res (body st) = Raise e
                      /\ last_is (is_raised_by e) (emitted (body st))))).
  { remember (body st) as r eqn:Hr. subst body.
    step_pure Hr. step_call Hr.
    - step_pure Hr. step_call Hr.
      + subst r. repeat split. left. repeat split.
      + subst r. repeat split. right. exists e. split; [reflexivity|].
        cbn. last_one. now eexists _, _.
    - subst r. repeat split. right. exists e. split; [reflexivity|].
      cbn. last_one. now eexists _, _. }
  unfold try_except. cbv zeta.
  destruct Hbody as (K & F & [(R & D & E)|(e & R & E)]); rewrite R;
    cbv beta iota.
  - split; [exact K|]. split; [exact F|]. left. now repeat split.
  - destruct (is_Exception e) eqn:X.
    + cbn. split; [exact K|]. split; [exact F|]. right.
      exists e, (emitted (body st)). rewrite X. now repeat split.
    + split; [exact K|]. split; [exact F|]. right.
      exists e, (emitted (body st)). rewrite X, app_nil_r. now repeat split.
Qed.


(* ================================================================== *)
(** * How the main block ends (lines 426-478) *)

Ltac returns_or_raises :=
  repeat first
    [ apply hoare_ret; exact I
    | apply hoare_raise; exact I
    | apply hoare_log
    | apply hoare_call
    | apply hoare_get_self
    | apply hoare_set_self
    | assumption
    | eapply hoare_bind with (Q1 := fun _ => True); [ | intros ? _ ]
    | eapply hoare_try with (E1 := fun _ => True);
      [ | intros ? _;
          match goal with
          | |- if ?c then _ else _ => destruct c; [|exact I]
          end ]
    | match goal with
      | |- hoare _ _ (if ?b then _ else _) _ => destruct b
      end ].

Section MainBlock.
Variable W : Type.
Variable respond : forall T, call T -> W -> reply T * W.
Variable os_path_join : pystr -> pystr -> pystr.
Variable os_path_abspath : pystr -> pystr.

Lemma hoare_print D E t args :
  hoare D E (@print W t args) (fun _ => True).
Proof. intro st. exact I. Qed.

Lemma setup_driver_ends :
  hoare False (fun _ => True) (setup_driver respond) (fun _ => True).
Proof. unfold setup_driver, try_except_Exception. returns_or_raises. Qed.

Lemma login_to_dropbox_ends :
  hoare False (fun _ => True) (login_to_dropbox respond) (fun _ => True).
Proof.
  assert (P : forall t args,
             hoare False (fun _ => True) (@print W t args) (fun _ => True))
    by (intros; apply hoare_print).
  unfold login_to_dropbox, try_except_Exception. returns_or_raises.
Qed.

(** A [finally] block that raises replaces the outcome of the [try]. *)
Lemma finally_raising {A} (m : M W A) (fin : M W unit) x st :
  (forall st', fin st' = {| res := Raise x; final := st'; emitted := [] |}) ->
  res (m st) <> Diverge ->
  res (try_finally m fin st) = Raise x
  /\ emitted (try_finally m fin st) = emitted (m st).
Proof.
  intros Hfin ND. unfold try_finally.
  destruct (res (m st)) as [a|e|]; try contradiction; rewrite Hfin; simpl;
    now rewrite app_nil_r.
Qed.

Section Timed.
Variable clock : W -> Z.
Hypothesis timed : well_timed respond clock.
Variable fuel : nat.
Hypothesis enough : (30 < fuel)%nat.

Lemma keyword_step_ends kw :
  hoare False (fun _ => True) (keyword_step respond os_path_join fuel kw)
        (leaving (fun _ => True)).
Proof.
  eapply hoare_weaken;
    [ apply (@safe_keyword_step W respond os_path_join clock timed fuel enough
               (fun e => is_Exception e = false)
               (calls_raise_anything respond) (fun e H => H) kw)
    | trivial | trivial | ].
  now intros f ->.
Qed.

Lemma keyword_loop_ends keywords :
  hoare False (fun _ => True)
        (for_each keywords (keyword_step respond os_path_join fuel))
        (fun _ => True).
Proof.
  eapply hoare_weaken;
    [ apply hoare_for_each with (Q := fun _ => True); apply keyword_step_ends
    | trivial.. ].
Qed.

End Timed.
End MainBlock.

(** X10.  Once the list of keywords is read and is not empty and the
    download folder is made, every run of the main block ends in the
    same way, whatever the driver does: the block returns, and the last
    five lines it prints are the error advice for the [AttributeError]
    of [cleanup].  This is so when every download succeeded, when the
    login failed, and when a call of the driver was interrupted from
    the keyboard: the interrupt is replaced by the error of the
    [finally] block and never reaches the operator.  The clock is
    assumed to advance while sleeping. *)
Theorem every_run_ends_with_the_error_advice :
  forall W (respond : forall T, call T -> W -> reply T * W)
         (os_path_join : pystr -> pystr -> pystr)
         (os_path_abspath : pystr -> pystr) (clock : W -> Z) (fuel : nat)
         (st : state W) (first_keyword : pystr) (keywords : list pystr)
         (w1 w2 : W),
    well_timed respond clock ->
    (30 < fuel)%nat ->
    respond _ (ReadCsvColumn csv_path "filename") (world st)
    = (Returns (first_keyword :: keywords), w1) ->
    respond _ (Makedirs (os_path_abspath DOWNLOAD_FOLDER)) w1
    = (Returns tt, w2) ->
    let r := main respond os_path_join os_path_abspath fuel st in
    res r = Ret tt
    /\ exists pre,
         emitted r = pre ++ error_report (AttributeError "cleanup").
Proof.
  intros W respond os_path_join os_path_abspath clock fuel st first_keyword
         keywords w1 w2 timed enough E1 E2.
  unfold main, try_except_Exception.
  match goal with
  | |- context [try_except _ ?m ?h st] => set (body := m); set (handler := h)
  end.
  assert (Hbody : res (body st) = Raise (AttributeError "cleanup")).
  { subst body. rewrite (bind_returns respond _ st E1).
    cbn [res prepend]. cbv beta iota.
    set (st1 := {| world := w1; self := self st |}).
    assert (Hi : res (__init__ respond os_path_abspath first_keyword
                               DOWNLOAD_FOLDER DELAY_BETWEEN_SEARCHES st1)
                 = Ret tt).
    { unfold __init__. rewrite bind_set_self.
      match goal with
      | |- context [bind (do_call respond ?c) ?f ?s] =>
          rewrite (@bind_returns W respond _ _ c f s tt w2 E2)
      end.
      reflexivity. }
    match goal with
    | |- res (bind ?m ?f st1) = _ =>
        destruct (bind_ret_step m f st1 Hi) as (R & _ & _); rewrite R
    end.
    match goal with
    | |- res (try_finally ?m ?fin ?s) = _ =>
        assert (Hm : hoare False (fun _ => True) m (fun _ => True));
        [| destruct (@finally_raising W unit m fin (AttributeError "cleanup")
                       s (call_cleanup_raises respond)) as [Rf _];
           [| exact Rf] ]
    end.
    - pose proof (setup_driver_ends respond) as H1.
      pose proof (login_to_dropbox_ends respond) as H2.
      pose proof (keyword_loop_ends os_path_join timed enough
                    (first_keyword :: keywords)) as H3.
      unfold call_method.
      change (@getattr W "setup_driver") with (@ret W unit tt).
      change (@getattr W "login_to_dropbox") with (@ret W unit tt).
      returns_or_raises.
    - match goal with
      | |- res (?m ?s) <> _ =>
          specialize (Hm s); destruct (res (m s)); [discriminate.. |]
      end.
      contradiction. }
  unfold try_except. cbv zeta. rewrite Hbody. cbn [is_Exception].
  split; [reflexivity|]. exists (emitted (body st)). reflexivity.
Qed.

Lemma every_run_ends_with_the_error_advice_witness :
  let r := main (scripted appears_at_2) join_backslash (fun p => p) 31
                (start_state []) in
  res r = Ret tt
  /\ exists pre,
       emitted r = pre ++ error_report (AttributeError "cleanup").
Proof.
  assert (Hfuel : (30 < 31)%nat) by lia.
  apply (@every_run_ends_with_the_error_advice Z (scripted appears_at_2)
           join_backslash (fun p => p) (fun w => w) 31 (start_state [])
           (lit "report_jan.cwa") [] 0%Z 0%Z
           (scripted_well_timed appears_at_2) Hfuel).
  - reflexivity.
  - reflexivity.
Defined.

(* ================================================================== *)
(** * Names the verification refuses (lines 180-182) *)

Lemma lstrip_blank s : forallb isspace s = true -> lstrip s = [].
Proof.
  induction s as [|c s IH]; simpl; [reflexivity|].
  destruct (isspace c); [exact IH | discriminate].
Qed.

Lemma strip_blank s : strip s = [] <-> forallb isspace s = true.
Proof.
  split.
  - intro E. destruct (strip_trimmed s) as (pre & post & Es & Fp & Fq & _).
    rewrite E in Es. rewrite Es. simpl. now rewrite forallb_app, Fp, Fq.
  - intro F. unfold strip. now rewrite (lstrip_blank _ F).
Qed.

Lemma re_sub_blank s : forallb isspace (re_sub s) = forallb isspace s.
Proof.
  induction s as [|c s IH]; simpl; [reflexivity|].
  now rewrite replace_char_space, IH.
Qed.

Lemma lower_char_not_space c : isspace (lower_char c) = isspace c.
Proof. all_chars c. Qed.

Lemma lower_blank s : forallb isspace (lower s) = forallb isspace s.
Proof.
  induction s as [|c s IH]; simpl; [reflexivity|].
  now rewrite lower_char_not_space, IH.
Qed.

(** The sanitized form of a name is falsy exactly when the name is
    empty or all whitespace. *)
Lemma sanitized_is_falsy_when_blank (name : pystr) :
  truthy (sanitize_filename (Some name)) = negb (forallb isspace name).
Proof.
  unfold sanitize_filename.
  destruct name as [|c name]; [reflexivity|]. cbn [truthy negb].
  destruct (eqb (lower (c :: name)) legacy_lowered) eqn:L.
  - apply eqb_eq in L. rewrite <- lower_blank, L. reflexivity.
  - destruct (forallb isspace (c :: name)) eqn:F.
    + rewrite <- re_sub_blank in F. apply strip_blank in F. now rewrite F.
    + destruct (strip (re_sub (c :: name))) eqn:S; [|reflexivity].
      apply strip_blank in S. rewrite re_sub_blank in S. congruence.
Qed.

(** X11.  [verify_download] refuses a name that is empty or all
    whitespace at once: it returns [False] without reading the clock,
    probing the folder or writing a record, and leaves the state
    untouched.  For every other name its first act is to read the
    clock. *)
Theorem blank_name_is_refused_without_a_poll :
  forall W (respond : forall T, call T -> W -> reply T * W)
         (os_path_join : pystr -> pystr -> pystr) (fuel : nat)
         (filename : pystr) (timeout : Z) (st : state W),
    let r := verify_download respond os_path_join fuel filename timeout st in
    if forallb isspace filename
    then r = {| res := Ret false; final := st; emitted := [] |}
    else exists reading rest, emitted r = Called Time reading :: rest.
Proof.
  intros W respond os_path_join fuel filename timeout st.
  unfold verify_download.
  rewrite sanitized_is_falsy_when_blank.
  destruct (forallb isspace filename); cbn [negb]; cbv iota zeta.
  - reflexivity.
  - rewrite bind_get_self. cbn [emitted prepend app].
    match goal with
    | |- context [emitted (bind ?m ?f st)] =>
        destruct (bind_emitted_prefix m f st) as [rest ->]
    end.
    destruct (call_emitted respond Time st) as [reading ->].
    now exists reading, rest.
Qed.

(* ================================================================== *)
(** * A row without a name (lines 370-377) *)

(** X12.  A row for which no name could be derived, neither from the
    ten selectors nor from the four attributes, is left alone: the
    counter is returned unchanged, the warning that the name of file
    [i + 1] could not be determined is written, and everything emitted
    is a lookup or read under the row or a log record, so no click, no
    sleep and no poll. *)
Theorem nameless_row_is_skipped_with_a_warning :
  forall W (respond : forall T, call T -> W -> reply T * W)
         (os_path_join : pystr -> pystr -> pystr) (fuel : nat) (i : Z)
         (h : handle) (downloaded_count : Z) (st : state W)
         (file_name : option pystr),
    res (derive_file_name respond h st) = Ret file_name ->
    truthy file_name = false ->
    let r := process_file respond os_path_join fuel i h downloaded_count st in
    res r = Ret downloaded_count
    /\ Forall (fun e => lookup_event h e = true) (emitted r)
    /\ In (Logged WARNING "Could not determine file name for file {}"
                  [AInt (i + 1)]) (emitted r).
Proof.
  intros W respond os_path_join fuel i h downloaded_count st file_name Hd Hf r.
  subst r. unfold process_file, try_except_Exception.
  match goal with
  | |- context [try_except _ (bind ?m ?f) ?hd st] =>
      destruct (bind_ret_step m f st Hd) as (R & Ev & _);
      set (body := bind m f) in *; set (handler := hd)
  end.
  assert (Hk :
    res (body st) = Ret downloaded_count
    /\ Forall (fun e => lookup_event h e = true) (emitted (body st))
    /\ In (Logged WARNING "Could not determine file name for file {}"
                  [AInt (i + 1)]) (emitted (body st))).
  { rewrite R, Ev. clear R Ev. cbn beta. rewrite Hf. cbn [negb].
    set (st' := final (derive_file_name respond h st)).
    pose proof (emits_derive_file_name respond h st) as Hev.
    assert (T : total (bind (log WARNING
                               "Could not determine file name for file {}"
                               [AInt (i + 1)])
                         (fun _ => bind (log_element_html respond h)
                                     (fun _ => ret downloaded_count)))
                      (fun n => n = downloaded_count)).
    { eapply hoare_bind; [apply hoare_log | intros _ _].
      eapply hoare_bind; [apply total_log_element_html | intros _ _].
      now apply hoare_ret. }
    destruct (total_returns st' T) as (n & Rn & ->). split; [exact Rn|].
    split.
    - apply Forall_app. split; [exact Hev|].
      apply emits_bind; [now apply emits_log | intros _].
      apply emits_bind; [apply emits_log_element_html | intros _].
      apply emits_ret.
    - apply in_or_app. right. rewrite bind_log. now left. }
  destruct Hk as (Rk & Ek & Ik).
  rewrite (try_ret_step _ _ handler st Rk). now repeat split.
Qed.

Lemma nameless_row_is_skipped_with_a_warning_witness :
  let r := process_file (scripted nameless_row) join_backslash 31 0 10 0
                        (start_state (lit "report_jan.cwa")) in
  res r = Ret 0%Z
  /\ Forall (fun e => lookup_event 10 e = true) (emitted r)
  /\ In (Logged WARNING "Could not determine file name for file {}"
                [AInt (0 + 1)]) (emitted r).
Proof.
  apply (@nameless_row_is_skipped_with_a_warning Z (scripted nameless_row)
           join_backslash 31 0%Z 10%nat 0%Z
           (start_state (lit "report_jan.cwa")) None).
  - reflexivity.
  - reflexivity.
Defined.

(* ================================================================== *)
(** * One download folder (lines 17-18, 53-56, 184 and 440) *)

Create HintDb within.

Section OneFolder.
Variable W : Type.
Variable respond : forall T, call T -> W -> reply T * W.
Variable os_path_join : pystr -> pystr -> pystr.
Variable F : pystr.

Let P := in_folder os_path_join F.

Lemma within_ret {A} (a : A) : within F P (@ret W A a).
Proof. intros st H. split; [exact H | constructor]. Qed.

Lemma within_raise {A} e : within F P (@raise W A e).
Proof. intros st H. split; [exact H | constructor]. Qed.

Lemma within_diverge {A} : within F P (@diverge W A).
Proof. intros st H. split; [exact H | constructor]. Qed.

Lemma within_log lvl t args : within F P (@log W lvl t args).
Proof. intros st H. split; [exact H | now repeat constructor]. Qed.

Lemma within_print t args : within F P (@print W t args).
Proof. intros st H. split; [exact H | now repeat constructor]. Qed.

Lemma within_set_self i : download_folder i = F -> within F P (@set_self W i).
Proof. intros Hi st H. split; [exact Hi | constructor]. Qed.

Lemma within_call {T} (c : call T) :
  (forall r, P (Called c r)) -> within F P (do_call respond c).
Proof.
  intros Hc st H. unfold do_call. destruct (respond c (world st)) as [r w].
  split; [exact H | now repeat constructor].
Qed.

Lemma within_bind {A B} (m : M W A) (f : A -> M W B) :
  within F P m -> (forall a, within F P (f a)) -> within F P (bind m f).
Proof.
  intros Hm Hf st H. destruct (Hm st H) as [Hs He]. unfold bind.
  destruct (res (m st)) as [a|e|]; simpl; try now split.
  destruct (Hf a _ Hs) as [Hs' He']. split; [exact Hs'|].
  apply Forall_app. now split.
Qed.

(** After [self] is read, its folder is known to be [F]. *)
Lemma within_self {B} (f : instance -> M W B) :
  (forall i, download_folder i = F -> within F P (f i)) ->
  within F P (bind get_self f).
Proof.
  intros Hf st H. destruct (Hf (self st) H st H) as [Hs He].
  split; [exact Hs | exact He].
Qed.

Lemma within_try {A} catch (m : M W A) h :
  within F P m -> (forall e, within F P (h e)) ->
  within F P (try_except catch m h).
Proof.
  intros Hm Hh st H. destruct (Hm st H) as [Hs He]. unfold try_except.
  destruct (res (m st)) as [a|e|]; simpl; try now split.
  destruct (catch e); [|now split].
  destruct (Hh e _ Hs) as [Hs' He']. split; [exact Hs'|].
  apply Forall_app. now split.
Qed.

Lemma within_for_each {X A} (xs : list X) (body : X -> M W (flow A)) :
  (forall x, within F P (body x)) -> within F P (for_each xs body).
Proof.
  intro H. induction xs as [|x xs IH]; simpl.
  - apply within_ret.
  - apply within_bind; [apply H|]. intros [|a]; [exact IH | apply within_ret].
Qed.

#[local] Hint Resolve within_ret within_raise within_diverge within_log
  within_print : within.
#[local] Hint Extern 1 (within _ _ (do_call _ _)) =>
  apply within_call; intro; exact I : within.
#[local] Hint Extern 1 (within _ _ (set_self _)) =>
  apply within_set_self; assumption : within.
#[local] Hint Extern 1 (within _ _ (bind get_self _)) =>
  apply within_self; intros ? ? : within.
#[local] Hint Extern 2 (within _ _ (bind _ _)) =>
  apply within_bind; [|intro] : within.
#[local] Hint Extern 2 (within _ _ (try_except_all _ _)) =>
  apply within_try; [|intro] : within.
#[local] Hint Extern 2 (within _ _ (try_except_Exception _ _)) =>
  apply within_try; [|intro] : within.
#[local] Hint Extern 2 (within _ _ (try_except _ _ _)) =>
  apply within_try; [|intro] : within.
#[local] Hint Extern 2 (within _ _ (for_each _ _)) =>
  apply within_for_each; intro : within.
#[local] Hint Extern 3 (within _ _ (if ?b then _ else _)) =>
  destruct b : within.
#[local] Hint Extern 3 (within _ _ (match ?x with _ => _ end)) =>
  destruct x : within.

Lemma within_verify_loop fuel name :
  forall start timeout,
    within F P (verify_loop respond fuel (os_path_join F name) start timeout).
Proof.
  assert (H1 : forall r,
             P (Called (PathExists (os_path_join F name)) r))
    by (intro; exists name; now left).
  assert (H2 : forall r,
             P (Called (PathExists (os_path_join F name
                                      ++ lit ".crdownload")%list) r))
    by (intro; exists name; now right).
  induction fuel as [|fuel IH]; intros start timeout; simpl.
  - apply within_diverge.
  - apply within_bind; [auto with within | intro now].
    destruct (now - start <? timeout)%Z; [|auto with within].
    apply within_bind; [now apply within_call | intros [|]].
    + auto with within.
    + apply within_bind; [now apply within_call | intro partial].
      apply within_bind; [auto with within | intros _].
      apply within_bind; [auto with within | intros _]. apply IH.
Qed.

Lemma within_verify_download fuel filename timeout :
  within F P (verify_download respond os_path_join fuel filename timeout).
Proof.
  unfold verify_download.
  destruct (negb _); [apply within_ret|].
  apply within_self. intros i Hi. rewrite Hi.
  apply within_bind; [auto with within | intro]. apply within_verify_loop.
Qed.
#[local] Hint Resolve within_verify_download : within.

Lemma within_click_or_script element :
  within F P (click_or_script respond element).
Proof. unfold click_or_script. auto 30 with within. Qed.
#[local] Hint Resolve within_click_or_script : within.

Lemma within_context_menu_step fuel file_name sanitized index attempt sel :
  within F P (context_menu_step respond os_path_join fuel file_name sanitized
                                index attempt sel).
Proof. unfold context_menu_step. auto 30 with within. Qed.
#[local] Hint Resolve within_context_menu_step : within.

Lemma within_file_view_step fuel h file_name sanitized index attempt :
  within F P (file_view_step respond os_path_join fuel h file_name sanitized
                             index attempt).
Proof. unfold file_view_step. auto 30 with within. Qed.
#[local] Hint Resolve within_file_view_step : within.

Lemma within_attempt_body fuel h file_name sanitized index attempt :
  within F P (attempt_body respond os_path_join fuel h file_name sanitized
                           index attempt).
Proof. unfold attempt_body. auto 40 with within. Qed.
#[local] Hint Resolve within_attempt_body : within.

Lemma within_attempt_download fuel h file_name index :
  within F P (attempt_download respond os_path_join fuel h file_name index).
Proof. unfold attempt_download. auto 30 with within. Qed.
#[local] Hint Resolve within_attempt_download : within.

Lemma within_name_selector_step h sel :
  within F P (name_selector_step respond h sel).
Proof. unfold name_selector_step. auto 30 with within. Qed.
#[local] Hint Resolve within_name_selector_step : within.

Lemma within_name_from_attributes h attrs :
  forall file_name,
    within F P (name_from_attributes respond h attrs file_name).
Proof.
  induction attrs as [|attr attrs IH]; intro; simpl; auto 30 with within.
Qed.
#[local] Hint Resolve within_name_from_attributes : within.

Lemma within_derive_file_name h : within F P (derive_file_name respond h).
Proof. unfold derive_file_name. auto 30 with within. Qed.
#[local] Hint Resolve within_derive_file_name : within.

Lemma within_log_element_html h : within F P (log_element_html respond h).
Proof. unfold log_element_html. auto 30 with within. Qed.
#[local] Hint Resolve within_log_element_html : within.

Lemma within_process_file fuel i h n :
  within F P (process_file respond os_path_join fuel i h n).
Proof. unfold process_file. auto 40 with within. Qed.
#[local] Hint Resolve within_process_file : within.

Lemma within_process_files fuel rows :
  forall i n, within F P (process_files respond os_path_join fuel i rows n).
Proof.
  induction rows as [|h rows IH]; intros; simpl; auto 30 with within.
Qed.
#[local] Hint Resolve within_process_files : within.

Lemma within_get_search_input : within F P (get_search_input respond).
Proof. unfold get_search_input. auto 30 with within. Qed.
#[local] Hint Resolve within_get_search_input : within.

Lemma within_clear_search_context : within F P (clear_search_context respond).
Proof. unfold clear_search_context. auto 40 with within. Qed.
#[local] Hint Resolve within_clear_search_context : within.

Lemma within_find_files : within F P (find_files respond).
Proof. unfold find_files. auto 30 with within. Qed.
#[local] Hint Resolve within_find_files : within.

Lemma within_process_results fuel files_found :
  within F P (process_results respond os_path_join fuel files_found).
Proof. unfold process_results. auto 30 with within. Qed.
#[local] Hint Resolve within_process_results : within.

Lemma within_search_and_download fuel :
  within F P (search_and_download respond os_path_join fuel).
Proof. unfold search_and_download. auto 40 with within. Qed.
#[local] Hint Resolve within_search_and_download : within.

Lemma within_login_to_dropbox : within F P (login_to_dropbox respond).
Proof. unfold login_to_dropbox. auto 60 with within. Qed.
#[local] Hint Resolve within_login_to_dropbox : within.

Lemma within_setup_driver : within F P (setup_driver respond).
Proof.
  unfold setup_driver. apply within_try; [|auto 30 with within].
  apply within_self. intros i Hi.
  apply within_bind; [apply within_call; intro; exact Hi | intros _].
  auto 30 with within.
Qed.
#[local] Hint Resolve within_setup_driver : within.

Lemma within_keyword_step fuel kw :
  within F P (keyword_step respond os_path_join fuel kw).
Proof.
  unfold keyword_step, call_method.
  change (@getattr W "search_and_download") with (@ret W unit tt).
  auto 40 with within.
Qed.
#[local] Hint Resolve within_keyword_step : within.

Lemma within_finally {A} (m : M W A) fin :
  within F P m -> within F P fin -> within F P (try_finally m fin).
Proof.
  intros Hm Hf st H. destruct (Hm st H) as [Hs He]. unfold try_finally.
  destruct (res (m st)) as [a|e|]; simpl; try now split.
  - destruct (Hf _ Hs) as [Hs' He']. split; [exact Hs'|].
    apply Forall_app. now split.
  - destruct (Hf _ Hs) as [Hs' He']. split; [exact Hs'|].
    apply Forall_app. now split.
Qed.

Lemma within_call_cleanup :
  within F P (call_method "cleanup" (cleanup respond)).
Proof.
  intros st H. rewrite call_cleanup_raises. split; [exact H | constructor].
Qed.

(** What follows [__init__] starts with the folder [__init__] has set. *)
Lemma within_after_init {A} os_path_abspath kw folder d (m : M W A) :
  F = os_path_abspath folder ->
  within F P m ->
  emits P (bind (__init__ respond os_path_abspath kw folder d) (fun _ => m)).
Proof.
  intros HF Hm st.
  assert (Hi : download_folder
                 (self (final (__init__ respond os_path_abspath kw folder d
                                        st))) = F
               /\ Forall P (emitted (__init__ respond os_path_abspath kw
                                              folder d st))).
  { unfold __init__. rewrite bind_set_self. cbn [prepend final emitted app].
    match goal with
    | |- context [bind (do_call respond ?c) ?f ?s] =>
        destruct (respond c (world s)) as [[[]|e] w] eqn:E;
        [ rewrite (bind_returns respond f s E)
        | rewrite (bind_raises respond f s E) ]
    end.
    - split; [now rewrite HF|]. cbn. repeat constructor. now symmetry.
    - split; [now rewrite HF|]. cbn. repeat constructor. now symmetry. }
  destruct Hi as [Hs He]. unfold bind.
  destruct (res (__init__ respond os_path_abspath kw folder d st));
    simpl; trivial.
  apply Forall_app. split; [exact He|]. now apply Hm.
Qed.

End OneFolder.

(** X13.  A run of the main block knows one download folder, the
    absolute path of [E:\dropbox]: it is the folder [os.makedirs]
    creates, the download directory Chrome is started with, and the
    folder of every path [os.path.exists] is asked about, which is that
    folder joined with a name, with or without [.crdownload].  The
    browser is told to save where the verification looks, for every
    keyword and in every environment. *)
Theorem one_download_folder_throughout :
  forall W (respond : forall T, call T -> W -> reply T * W)
         (os_path_join : pystr -> pystr -> pystr)
         (os_path_abspath : pystr -> pystr) (fuel : nat) (st : state W),
    Forall (in_folder os_path_join (os_path_abspath DOWNLOAD_FOLDER))
           (emitted (main respond os_path_join os_path_abspath fuel st)).
Proof.
  intros W respond os_path_join os_path_abspath fuel. unfold main.
  apply emits_try.
  - apply emits_bind; [apply emits_call; intro; exact I|].
    intros [|first_keyword keywords]; [apply emits_ret|].
    apply within_after_init; [reflexivity|].
    apply within_finally; [|apply within_call_cleanup].
    unfold call_method.
    change (@getattr W "setup_driver") with (@ret W unit tt).
    change (@getattr W "login_to_dropbox") with (@ret W unit tt).
    apply within_bind.
    { apply within_bind; [apply within_ret | intro].
      apply within_setup_driver. }
    intros _. apply within_bind.
    { apply within_bind; [apply within_ret | intro].
      apply within_login_to_dropbox. }
    intro logged_in. apply within_bind.
    { destruct logged_in; [apply within_ret | apply within_raise]. }
    intros _. apply within_bind; [|intro; apply within_ret].
    apply within_for_each. intro kw. apply within_keyword_step.
  - intro e.
    repeat (apply emits_bind; [apply emits_print; exact I | intros _]).
    apply emits_print. exact I.
Qed.

(* ================================================================== *)
(** * The keywords in their order (lines 451-467) *)

Lemma collect_nothing {A} (f : event -> option A) evs :
  Forall (fun e => f e = None) evs -> collect f evs = [].
Proof.
  induction 1 as [|e evs He _ IH]; simpl; [reflexivity|]. now rewrite He.
Qed.

Section Keywords.
Variable W : Type.
Variable respond : forall T, call T -> W -> reply T * W.
Variable os_path_join : pystr -> pystr -> pystr.

(** No closing record of the keyword loop. *)
Let P := fun e => keyword_logged e = None.

Lemma unclosed_verify_loop fuel p start timeout :
  emits P (verify_loop respond fuel p start timeout).
Proof.
  revert start timeout. induction fuel as [|fuel IH]; intros; simpl;
    emits_auto.
Qed.
#[local] Hint Resolve unclosed_verify_loop : emits.

Lemma unclosed_verify_download fuel filename timeout :
  emits P (verify_download respond os_path_join fuel filename timeout).
Proof. unfold verify_download. emits_auto. Qed.
#[local] Hint Resolve unclosed_verify_download : emits.

Lemma unclosed_click_or_script element :
  emits P (click_or_script respond element).
Proof. unfold click_or_script. emits_auto. Qed.
#[local] Hint Resolve unclosed_click_or_script : emits.

Lemma unclosed_context_menu_step fuel file_name sanitized index attempt sel :
  emits P (context_menu_step respond os_path_join fuel file_name sanitized
                             index attempt sel).
Proof. unfold context_menu_step. emits_auto. Qed.
#[local] Hint Resolve unclosed_context_menu_step : emits.

Lemma unclosed_file_view_step fuel h file_name sanitized index attempt :
  emits P (file_view_step respond os_path_join fuel h file_name sanitized
                          index attempt).
Proof. unfold file_view_step. emits_auto. Qed.
#[local] Hint Resolve unclosed_file_view_step : emits.

Lemma unclosed_attempt_body fuel h file_name sanitized index attempt :
  emits P (attempt_body respond os_path_join fuel h file_name sanitized
                        index attempt).
Proof. unfold attempt_body. emits_auto. Qed.
#[local] Hint Resolve unclosed_attempt_body : emits.

Lemma unclosed_attempt_download fuel h file_name index :
  emits P (attempt_download respond os_path_join fuel h file_name index).
Proof. unfold attempt_download. emits_auto. Qed.
#[local] Hint Resolve unclosed_attempt_download : emits.

Lemma unclosed_name_selector_step h sel :
  emits P (name_selector_step respond h sel).
Proof. unfold name_selector_step. emits_auto. Qed.
#[local] Hint Resolve unclosed_name_selector_step : emits.

Lemma unclosed_name_from_attributes h attrs :
  forall file_name, emits P (name_from_attributes respond h attrs file_name).
Proof.
  induction attrs as [|attr attrs IH]; intro; simpl; emits_auto.
Qed.
#[local] Hint Resolve unclosed_name_from_attributes : emits.

Lemma unclosed_derive_file_name h : emits P (derive_file_name respond h).
Proof. unfold derive_file_name. emits_auto. Qed.
#[local] Hint Resolve unclosed_derive_file_name : emits.

Lemma unclosed_log_element_html h : emits P (log_element_html respond h).
Proof. unfold log_element_html. emits_auto. Qed.
#[local] Hint Resolve unclosed_log_element_html : emits.

Lemma unclosed_process_file fuel i h n :
  emits P (process_file respond os_path_join fuel i h n).
Proof. unfold process_file. emits_auto. Qed.
#[local] Hint Resolve unclosed_process_file : emits.

Lemma unclosed_process_files fuel rows :
  forall i n, emits P (process_files respond os_path_join fuel i rows n).
Proof. induction rows as [|h rows IH]; intros; simpl; emits_auto. Qed.
#[local] Hint Resolve unclosed_process_files : emits.

Lemma unclosed_get_search_input : emits P (get_search_input respond).
Proof. unfold get_search_input. emits_auto. Qed.
#[local] Hint Resolve unclosed_get_search_input : emits.

Lemma unclosed_clear_search_context :
  emits P (clear_search_context respond).
Proof. unfold clear_search_context. emits_auto. Qed.
#[local] Hint Resolve unclosed_clear_search_context : emits.

Lemma unclosed_find_files : emits P (find_files respond).
Proof. unfold find_files. emits_auto. Qed.
#[local] Hint Resolve unclosed_find_files : emits.

Lemma unclosed_process_results fuel files_found :
  emits P (process_results respond os_path_join fuel files_found).
Proof. unfold process_results. emits_auto. Qed.
#[local] Hint Resolve unclosed_process_results : emits.

Lemma unclosed_search_and_download fuel :
  emits P (search_and_download respond os_path_join fuel).
Proof. unfold search_and_download. emits_auto. Qed.

End Keywords.

Section KeywordLoop.
Variable W : Type.
Variable respond : forall T, call T -> W -> reply T * W.
Variable os_path_join : pystr -> pystr -> pystr.
Variable clock : W -> Z.
Hypothesis timed : well_timed respond clock.
Hypothesis quiet : no_interrupt respond.
Variable fuel : nat.
Hypothesis enough : (30 < fuel)%nat.

Lemma res_prepend {A} evs (r : result W A) : res (prepend evs r) = res r.
Proof. reflexivity. Qed.

Lemma emitted_prepend {A} evs (r : result W A) :
  emitted (prepend evs r) = evs ++ emitted r.
Proof. reflexivity. Qed.

Lemma keyword_step_closes_once kw st :
  res (keyword_step respond os_path_join fuel kw st) = Ret Next
  /\ collect keyword_logged
             (emitted (keyword_step respond os_path_join fuel kw st))
     = [kw].
Proof.
  unfold keyword_step, try_except_Exception, call_method.
  change (@getattr W "search_and_download") with (@ret W unit tt).
  match goal with
  | |- context [try_except _ ?m ?h st] => set (body := m); set (handler := h)
  end.
  assert (Hb : res (body st) = Ret Next
               /\ collect keyword_logged (emitted (body st)) = [kw]).
  { subst body. rewrite bind_get_self, bind_set_self, !prepend_nil.
    match goal with
    | |- context [bind (bind (ret tt) ?f) ?g ?s] =>
        destruct (total_returns s
                    (total_search_and_download os_path_join timed quiet
                                               enough))
          as (ok & Rok & _);
        assert (Rok' : res (bind (ret tt) f s) = Ret ok)
          by (rewrite bind_ret; exact Rok);
        destruct (bind_ret_step (bind (ret tt) f) g s Rok') as (R & Ev & _);
        rewrite R, Ev; clear R Ev;
        pose proof (unclosed_search_and_download respond os_path_join fuel s)
          as Hq;
        rewrite (bind_ret tt f s) in *
    end.
    destruct timed as (_ & _ & HS).
    match goal with
    | |- context [bind _ _ ?s] =>
        destruct (HS DELAY_BETWEEN_SEARCHES (world s)) as (w' & Es & _)
    end.
    rewrite collect_app, (collect_nothing _ Hq).
    destruct ok;
      rewrite bind_log, (bind_returns respond _ _ Es), !res_prepend,
        !emitted_prepend;
      split; reflexivity. }
  destruct Hb as [Rb Eb].
  rewrite (@try_ret_step W (flow unit) is_Exception body handler st Next Rb).
  split; [exact Rb | exact Eb].
Qed.

End KeywordLoop.

(** X14.  With a clock that advances while sleeping, more than thirty
    rounds of fuel and no interrupt from the keyboard, the loop over
    the keywords runs to its end and writes one closing record per
    keyword, in the order of the list: no keyword is left out, repeated
    or taken out of turn, whatever the driver answers. *)
Theorem every_keyword_is_closed_once_in_order :
  forall W (respond : forall T, call T -> W -> reply T * W)
         (os_path_join : pystr -> pystr -> pystr) (clock : W -> Z)
         (fuel : nat) (keywords : list pystr) (st : state W),
    well_timed respond clock ->
    no_interrupt respond ->
    (30 < fuel)%nat ->
    let r := for_each keywords (keyword_step respond os_path_join fuel) st in
    res r = Ret Next
    /\ collect keyword_logged (emitted r) = keywords.
Proof.
  intros W respond os_path_join clock fuel keywords st timed quiet enough.
  revert st. induction keywords as [|kw keywords IH]; intro st.
  - split; reflexivity.
  - cbn [for_each].
    destruct (keyword_step_closes_once os_path_join timed quiet enough kw st)
      as [Rk Ek].
    match goal with
    | |- context [bind ?m ?f st] =>
        destruct (bind_ret_step m f st Rk) as (R & Ev & _)
    end.
    cbv zeta. rewrite R, Ev, collect_app, Ek.
    destruct (IH (final (keyword_step respond os_path_join fuel kw st)))
      as [Rr Er].
    cbv zeta in Rr, Er. split; [exact Rr|]. now rewrite Er.
Qed.

Lemma every_keyword_is_closed_once_in_order_witness :
  let r := for_each [lit "report_jan.cwa"; lit "notes.txt"]
             (keyword_step (scripted one_row) join_backslash 31)
             (start_state []) in
  res r = Ret Next
  /\ collect keyword_logged (emitted r)
     = [lit "report_jan.cwa"; lit "notes.txt"].
Proof.
  assert (Hfuel : (30 < 31)%nat) by lia.
  exact (@every_keyword_is_closed_once_in_order Z (scripted one_row)
           join_backslash (fun w => w) 31
           [lit "report_jan.cwa"; lit "notes.txt"] (start_state [])
           (scripted_well_timed one_row) one_row_no_interrupt Hfuel).
Defined.

(* ================================================================== *)
(** * Clearing the search (lines 113-148 and 288) *)

Lemma stopped_after {A} (R : A -> event -> Prop) (f : flow A) pre evs :
  stopped R f evs -> stopped R f (pre ++ evs).
Proof. destruct f as [|a]; [trivial | apply last_is_after]. Qed.

Ltac stopped_step :=
  first
    [ apply reports_call_ret; intros []; apply last_is_one
    | apply reports_ret; exact I
    | apply reports_try; [intros; now apply stopped_after | | intro]
    | apply reports_bind; [intros; now apply stopped_after | intro] ].

(** X15.  The value of [clear_search_context] is told by the last
    thing it did: it returns [True] only right after the pause of one
    second that follows a clearing, by a clear button or by the search
    box, and [False] only right after a warning. *)
Theorem clearing_result_is_told_by_the_last_event :
  forall W (respond : forall T, call T -> W -> reply T * W) (st : state W)
         (b : bool),
    res (clear_search_context respond st) = Ret b ->
    exists pre l,
      emitted (clear_search_context respond st) = pre ++ [l]
      /\ clear_report b l.
Proof.
  intros W respond st b H.
  assert (E : ends clear_report (clear_search_context respond)).
  { unfold ends, clear_search_context.
    apply reports_try; [intros; now apply last_is_after | | intro e].
    - apply (@ends_after_loop W bool bool clear_report (fun b0 => b0)).
      + apply reports_for_each. intro selector.
        do 5 stopped_step. reflexivity.
      + unfold ends. ends_step. destruct a as [h|].
        * do 3 ends_step.
          apply reports_call_ret. intros []. now apply last_is_one.
        * ends_step. simpl. eauto.
    - ends_step. simpl. eauto. }
  exact (E st b H).
Qed.

Lemma clearing_result_is_told_by_the_last_event_witness :
  exists pre l,
    emitted (clear_search_context clear_fails (start_state [])) = pre ++ [l]
    /\ clear_report false l.
Proof.
  apply (@clearing_result_is_told_by_the_last_event Z clear_fails
           (start_state []) false).
  vm_compute. reflexivity.
Defined.

(** X16.  [search_and_download] does not look at what
    [clear_search_context] returned.  When the clearing has returned,
    with [True] or with [False], and the search box is then found, the
    keyword of the instance is typed into the box next: a search whose
    context could not be cleared is run all the same, on top of what
    the box held. *)
Theorem keyword_is_typed_whatever_the_clearing_returned :
  forall W (respond : forall T, call T -> W -> reply T * W)
         (os_path_join : pystr -> pystr -> pystr) (fuel : nat)
         (st : state W) (cleared : bool) (h : handle),
    res (clear_search_context respond st) = Ret cleared ->
    res (get_search_input respond (final (clear_search_context respond st)))
    = Ret (Some h) ->
    exists r rest,
      emitted (search_and_download respond os_path_join fuel st)
      = emitted (clear_search_context respond st)
        ++ emitted (get_search_input respond
                      (final (clear_search_context respond st)))
        ++ Called (SendKeys h (KeyText (keyword (self st)))) r :: rest.
Proof.
  intros W respond os_path_join fuel st cleared h Hc Hg.
  unfold search_and_download, try_except_Exception.
  match goal with
  | |- context [emitted (try_except ?c ?m ?f st)] =>
      destruct (try_emitted_prefix c m f st) as [r1 ->]
  end.
  match goal with
  | |- context [emitted (bind ?m ?f st)] =>
      destruct (bind_ret_step m f st Hc) as (_ & -> & _)
  end.
  cbv beta.
  match goal with
  | |- context [emitted (bind ?m ?f ?s)] =>
      destruct (bind_ret_step m f s Hg) as (_ & -> & _)
  end.
  cbv beta iota.
  rewrite bind_get_self, emitted_prepend.
  match goal with
  | |- context [emitted (bind ?m ?f ?s)] =>
      destruct (bind_emitted_prefix m f s) as [r2 ->]
  end.
  match goal with
  | |- context [emitted (do_call respond ?c ?s)] =>
      destruct (call_emitted respond c s) as [r ->]
  end.
  rewrite keeps_get_search_input, keeps_clear_search_context.
  exists r, (r2 ++ r1). rewrite <- !app_assoc. reflexivity.
Qed.

Lemma keyword_is_typed_whatever_the_clearing_returned_witness :
  exists r rest,
    emitted (search_and_download clear_fails join_backslash 31
                                 (start_state (lit "report_jan.cwa")))
    = emitted (clear_search_context clear_fails
                 (start_state (lit "report_jan.cwa")))
      ++ emitted (get_search_input clear_fails
                    (final (clear_search_context clear_fails
                              (start_state (lit "report_jan.cwa")))))
      ++ Called (SendKeys 1 (KeyText (keyword
                   (self (start_state (lit "report_jan.cwa")))))) r :: rest.
Proof.
  apply (@keyword_is_typed_whatever_the_clearing_returned Z clear_fails
           join_backslash 31 (start_state (lit "report_jan.cwa")) false
           1%nat).
  - vm_compute. reflexivity.
  - vm_compute. reflexivity.
Defined.

(* ================================================================== *)
(** * The function [run] (lines 409-423) *)

Lemma reports_log W (R : unit -> list event -> Prop) lvl t args :
  R tt [Logged lvl t args] -> reports R (@log W lvl t args).
Proof. intros H st [] _. exact H. Qed.

(** X17.  No exception leaves [run], not even an interrupt from the
    keyboard: it returns, or the polling loop it started has not ended.
    When it returns, its last record is one of four: the keyword was
    processed, the processing failed, the process was interrupted, or
    an unexpected error, with the exception.  Its first record is the
    starting line, into which no keyword is formatted: the braces are
    written as they stand. *)
Theorem run_lets_no_exception_out :
  forall W (respond : forall T, call T -> W -> reply T * W)
         (os_path_join : pystr -> pystr -> pystr) (fuel : nat)
         (st : state W),
    let r := run respond os_path_join fuel st in
    match res r with
    | Ret _ => last_is run_report (emitted r)
    | Raise _ => False
    | Diverge => True
    end
    /\ exists rest,
         emitted r
         = Logged INFO "Starting search for keyword: {self.keyword}" []
           :: rest.
Proof.
  intros W respond os_path_join fuel st r. subst r. split.
  - assert (H : hoare True (fun _ => False) (run respond os_path_join fuel)
                      (fun _ => True)).
    { unfold run. eapply hoare_try with (E1 := fun _ => True).
      - apply hoare_anyway.
      - intros e _. cbv beta. destruct e; apply hoare_log. }
    assert (E : reports (fun _ => last_is run_report)
                        (run respond os_path_join fuel)).
    { unfold run.
      apply reports_try; [intros; now apply last_is_after | | intro e].
      - do 2 ends_step. destruct a0.
        + apply reports_log. apply last_is_one. now left.
        + apply reports_log. apply last_is_one. right. now left.
      - destruct e; apply reports_log; apply last_is_one;
          first [ now (right; right; left)
                | right; right; right; eexists; reflexivity ]. }
    specialize (H st). specialize (E st).
    destruct (res (run respond os_path_join fuel st)) as [[]|e|];
      [now apply (E tt) | exact H | exact I].
  - unfold run.
    match goal with
    | |- context [emitted (try_except ?c ?m ?f st)] =>
        destruct (try_emitted_prefix c m f st) as [r1 ->]
    end.
    rewrite bind_log, emitted_prepend. eexists. reflexivity.
Qed.

(* ================================================================== *)
(** * The result rows (lines 314-322) *)

(** X18.  The result rows of a search come from one query: the loop
    over the five row selectors stops at the first whose query returns
    a list that is not empty, records that selector, and evaluates no
    later one; a query that raises and a query that returns no element
    both count as a miss.  When every selector misses, each has been
    queried once, in order, and the rows are the empty list.  The loop
    never raises. *)
Theorem rows_come_from_the_first_selector_with_rows :
  forall W (respond : forall T, call T -> W -> reply T * W) (st : state W),
    rows_located (res (find_files respond st))
                 (emitted (find_files respond st)).
Proof.
  intros W respond st. unfold find_files.
  assert (Hbody : forall selector st0,
    let body := try_except_all
                  (bind (do_call respond (FindElements CSS_SELECTOR selector))
                     (fun files_found =>
                        match files_found with
                        | [] => ret Next
                        | _ :: _ =>
                            bind (log INFO "Found files using selector: {}"
                                      [AText selector])
                                 (fun _ => ret (Stop files_found))
                        end))
                  (fun _ => ret Next) in
    (res (body st0) = Ret Next
     /\ rows_probe_missed selector (emitted (body st0)))
    \/ (exists found, res (body st0) = Ret (Stop found)
                      /\ rows_probe_hit selector found (emitted (body st0)))).
  { intros selector st0 body. subst body. unfold try_except_all, try_except.
    destruct (respond _ (FindElements CSS_SELECTOR selector) (world st0))
      as [[[|h found]|e] w] eqn:E.
    - rewrite (bind_returns respond _ _ E). cbn.
      left. split; [reflexivity|]. now right.
    - rewrite (bind_returns respond _ _ E). cbn.
      right. exists (h :: found). split; [reflexivity|].
      split; [discriminate | reflexivity].
    - rewrite (bind_raises respond _ _ E). cbn.
      left. split; [reflexivity|]. left. now exists e. }
  match goal with
  | |- context [bind (for_each ?xs ?body) ?k st] =>
      destruct (for_each_first_hit rows_probe_missed rows_probe_hit
                  body Hbody xs st)
        as [(pre & x & post & a & misses & last & E & Hf & Hh & R & Ev)
           | (misses & Hf & R & Ev)];
      destruct (bind_ret_step (for_each xs body) k st R) as (R' & Ev' & _)
  end.
  - left. exists pre, x, post, a, misses, last. rewrite R', Ev', Ev.
    repeat split; trivial; try apply Hh. cbn. now rewrite app_nil_r.
  - right. exists misses. rewrite R', Ev', Ev.
    repeat split; trivial. cbn. now rewrite app_nil_r.
Qed.

(* ================================================================== *)
(** * A failed login (lines 446-448) *)

Section FailedLogin.
Variable W : Type.
Variable respond : forall T, call T -> W -> reply T * W.

Lemma call_setup_driver st :
  call_method "setup_driver" (setup_driver respond) st
  = setup_driver respond st.
Proof.
  unfold call_method.
  change (@getattr W "setup_driver") with (@ret W unit tt).
  apply bind_ret.
Qed.

Lemma call_login_to_dropbox st :
  call_method "login_to_dropbox" (login_to_dropbox respond) st
  = login_to_dropbox respond st.
Proof.
  unfold call_method.
  change (@getattr W "login_to_dropbox") with (@ret W unit tt).
  apply bind_ret.
Qed.

Lemma bind_raise_step {A B} (m : M W A) (f : A -> M W B) st e :
  res (m st) = Raise e ->
  res (bind m f st) = Raise e /\ emitted (bind m f st) = emitted (m st).
Proof. intro H. unfold bind. now rewrite H. Qed.

End FailedLogin.

(** X19.  When the login returns [False] the run stops there: after
    the keywords are read, the folder is made and the driver is set up,
    the main block emits what the login emitted and then only the five
    lines of error advice.  No keyword is searched for.  The advice
    names the [AttributeError] of [cleanup]: the exception raised for
    the failed login is replaced in the [finally] block and is never
    printed. *)
Theorem failed_login_stops_the_run :
  forall W (respond : forall T, call T -> W -> reply T * W)
         (os_path_join : pystr -> pystr -> pystr)
         (os_path_abspath : pystr -> pystr) (fuel : nat) (st : state W)
         (first_keyword : pystr) (keywords : list pystr) (w1 w2 : W),
    respond _ (ReadCsvColumn csv_path "filename") (world st)
    = (Returns (first_keyword :: keywords), w1) ->
    respond _ (Makedirs (os_path_abspath DOWNLOAD_FOLDER)) w1
    = (Returns tt, w2) ->
    let ready :=
      {| world := w2;
         self := {| keyword := first_keyword;
                    download_folder := os_path_abspath DOWNLOAD_FOLDER;
                    delay := DELAY_BETWEEN_SEARCHES;
                    driver := false |} |} in
    res (setup_driver respond ready) = Ret tt ->
    res (login_to_dropbox respond (final (setup_driver respond ready)))
    = Ret false ->
    let r := main respond os_path_join os_path_abspath fuel st in
    res r = Ret tt
    /\ emitted r
       = [Called (ReadCsvColumn csv_path "filename")
                 (Returns (first_keyword :: keywords));
          Called (Makedirs (os_path_abspath DOWNLOAD_FOLDER)) (Returns tt);
          Logged INFO "Initialized with keyword: {}" [AStr first_keyword]]
         ++ emitted (setup_driver respond ready)
         ++ emitted (login_to_dropbox respond
                       (final (setup_driver respond ready)))
         ++ error_report (AttributeError "cleanup").
Proof.
  intros W respond os_path_join os_path_abspath fuel st first_keyword
         keywords w1 w2 E1 E2 ready Hsetup Hlogin.
  unfold main, try_except_Exception.
  match goal with
  | |- context [try_except _ ?m ?h st] => set (body := m); set (handler := h)
  end.
  assert (Hbody :
    res (body st) = Raise (AttributeError "cleanup")
    /\ emitted (body st)
       = [Called (ReadCsvColumn csv_path "filename")
                 (Returns (first_keyword :: keywords));
          Called (Makedirs (os_path_abspath DOWNLOAD_FOLDER)) (Returns tt);
          Logged INFO "Initialized with keyword: {}" [AStr first_keyword]]
         ++ emitted (setup_driver respond ready)
         ++ emitted (login_to_dropbox respond
                       (final (setup_driver respond ready)))).
  { subst body. rewrite (bind_returns respond _ st E1).
    rewrite res_prepend, emitted_prepend. cbv beta iota.
    set (st1 := {| world := w1; self := self st |}).
    assert (Hi : __init__ respond os_path_abspath first_keyword
                          DOWNLOAD_FOLDER DELAY_BETWEEN_SEARCHES st1
                 = prepend [] (prepend
                     [Called (Makedirs (os_path_abspath DOWNLOAD_FOLDER))
                             (Returns tt)]
                     (prepend [Logged INFO "Initialized with keyword: {}"
                                      [AStr first_keyword]]
                        {| res := Ret tt; final := ready; emitted := [] |}))).
    { unfold __init__. rewrite bind_set_self.
      match goal with
      | |- context [bind (do_call respond ?c) ?f ?s] =>
          rewrite (@bind_returns W respond _ _ c f s tt w2 E2)
      end.
      reflexivity. }
    match goal with
    | |- context [bind ?m ?f st1] =>
        assert (Ri : res (m st1) = Ret tt) by (rewrite Hi; reflexivity);
        destruct (bind_ret_step m f st1 Ri) as (R & Ev & _);
        rewrite R, Ev, Hi; clear R Ev
    end.
    rewrite !emitted_prepend. cbn [final prepend emitted app].
    match goal with
    | |- context [try_finally ?m ?fin ready] =>
        assert (Hm : res (m ready) = Raise (PyException
                                              "Failed to login to Dropbox")
                     /\ emitted (m ready)
                        = emitted (setup_driver respond ready)
                          ++ emitted (login_to_dropbox respond
                                        (final (setup_driver respond ready))));
        [| destruct Hm as [Rm Em];
           destruct (@finally_raising W unit m fin (AttributeError "cleanup")
                       ready (call_cleanup_raises respond)) as [Rf Ef];
           [rewrite Rm; discriminate|];
           rewrite Rf, Ef, Em ]
    end.
    - assert (Rs : res (call_method "setup_driver" (setup_driver respond)
                                    ready) = Ret tt)
        by (rewrite call_setup_driver; exact Hsetup).
      match goal with
      | |- context [bind ?m ?f ready] =>
          destruct (bind_ret_step m f ready Rs) as (R & Ev & _);
          rewrite R, Ev; clear R Ev
      end.
      rewrite call_setup_driver.
      assert (Rl : res (call_method "login_to_dropbox"
                          (login_to_dropbox respond)
                          (final (setup_driver respond ready))) = Ret false)
        by (rewrite call_login_to_dropbox; exact Hlogin).
      match goal with
      | |- context [bind ?m ?f (final (setup_driver respond ready))] =>
          destruct (bind_ret_step m f _ Rl) as (R & Ev & _);
          rewrite R, Ev; clear R Ev
      end.
      rewrite call_login_to_dropbox.
      split; [reflexivity|]. cbn [emitted bind raise res app].
      now rewrite app_nil_r.
    - split; reflexivity. }
  destruct Hbody as [Rb Eb].
  unfold try_except. cbv zeta. rewrite Rb. cbn [is_Exception].
  split; [reflexivity|]. cbn [emitted]. rewrite Eb.
  rewrite <- !app_assoc. reflexivity.
Qed.

Lemma failed_login_stops_the_run_witness :
  let ready :=
    {| world := 0%Z;
       self := {| keyword := lit "report_jan.cwa";
                  download_folder := DOWNLOAD_FOLDER;
                  delay := DELAY_BETWEEN_SEARCHES;
                  driver := false |} |} in
  let r := main login_times_out join_backslash (fun p => p) 31
                (start_state []) in
  res r = Ret tt
  /\ emitted r
     = [Called (ReadCsvColumn csv_path "filename")
               (Returns [lit "report_jan.cwa"]);
        Called (Makedirs DOWNLOAD_FOLDER) (Returns tt);
        Logged INFO "Initialized with keyword: {}"
               [AStr (lit "report_jan.cwa")]]
       ++ emitted (setup_driver login_times_out ready)
       ++ emitted (login_to_dropbox login_times_out
                     (final (setup_driver login_times_out ready)))
       ++ error_report (AttributeError "cleanup").
Proof.
  apply (@failed_login_stops_the_run Z login_times_out join_backslash
           (fun p => p) 31 (start_state []) (lit "report_jan.cwa") []
           0%Z 0%Z).
  - reflexivity.
  - reflexivity.
  - vm_compute. reflexivity.
  - vm_compute. reflexivity.
Defined.

(* ================================================================== *)
(** * Failures and faults of a download attempt (lines 199-282) *)

Section FailedAttempts.
Variable W : Type.
Variable respond : forall T, call T -> W -> reply T * W.
Variable os_path_join : pystr -> pystr -> pystr.

(** Some warning of a failed attempt was written. *)
Let warned (_ : instance) (evs : list event) : Prop :=
  existsb is_attempt_warning evs = true.

Lemma warned_after i pre evs : warned i evs -> warned i (pre ++ evs).
Proof. unfold warned. intro H. rewrite existsb_app, H. apply orb_true_r. Qed.

Lemma warned_before i evs post : warned i evs -> warned i (evs ++ post).
Proof. unfold warned. intro H. now rewrite existsb_app, H. Qed.

Lemma yields_warning {B} lvl t args (k : unit -> M W B) (S : B -> bool) :
  is_attempt_warning (Logged lvl t args) = true ->
  (forall a, keeps (k a)) ->
  yields warned S (bind (log lvl t args) k).
Proof.
  intros Hw Hk. apply yields_bind with (S1 := fun _ => true);
    [apply warned_after | apply warned_before | | exact Hk
    | intros a F; discriminate].
  intro st. split; [reflexivity|]. intros a _ _. unfold warned.
  change (existsb is_attempt_warning [Logged lvl t args] = true).
  cbn [existsb]. now rewrite Hw.
Qed.

Ltac pass_on :=
  apply yields_bind_keep;
  [apply warned_after | apply warned_before
  | solve [auto 30 with keeps] | intro].

Lemma failed_file_view_is_warned fuel h file_name sanitized index attempt :
  yields warned fell_through
         (file_view_step respond os_path_join fuel h file_name sanitized
                         index attempt).
Proof.
  unfold file_view_step.
  apply yields_try; [apply warned_after | |].
  - do 6 pass_on. destruct a4.
    + do 2 pass_on. now apply yields_ret.
    + apply yields_warning; [reflexivity | auto 30 with keeps].
  - intro e. apply yields_warning; [reflexivity | auto 30 with keeps].
Qed.

Lemma failed_attempt_is_warned fuel h file_name sanitized index attempt :
  yields warned fell_through
         (attempt_body respond os_path_join fuel h file_name sanitized
                       index attempt).
Proof.
  unfold attempt_body.
  apply yields_bind with (S1 := fell_through);
    [apply warned_after | apply warned_before | | |].
  - apply yields_try; [apply warned_after | |].
    + do 3 pass_on. destruct a1 as [|b].
      * apply failed_file_view_is_warned.
      * now apply yields_ret.
    + intro e. apply yields_warning; [reflexivity | auto 30 with keeps].
  - auto 30 with keeps.
  - intros [|b] F; [discriminate|]. now apply yields_ret.
Qed.

Section Faults.
Variable clock : W -> Z.
Hypothesis timed : well_timed respond clock.

(** The context click of an attempt raises an exception of class
    [Exception]: the handler of line 267 writes the record of line 268,
    and the attempt falls through to the next one. *)
Lemma attempt_body_records_the_fault fuel h file_name sanitized index
      attempt st e w :
  respond (ContextClick h) (world st) = (Raises e, w) ->
  is_Exception e = true ->
  res (attempt_body respond os_path_join fuel h file_name sanitized index
                    attempt st) = Ret Next
  /\ exists rest,
       emitted (attempt_body respond os_path_join fuel h file_name sanitized
                             index attempt st)
       = Called (ContextClick h) (Raises e)
         :: attempt_fault_record attempt index sanitized e :: rest.
Proof.
  intros E X. unfold attempt_body.
  match goal with
  | |- context [bind (try_except_Exception ?m ?hd) ?k st] =>
      set (opening := try_except_Exception m hd); set (closing := k)
  end.
  assert (Ho : opening st
               = {| res := Ret Next;
                    final := {| world := w; self := self st |};
                    emitted := [Called (ContextClick h) (Raises e);
                                attempt_fault_record attempt index sanitized
                                                     e] |}).
  { subst opening. unfold try_except_Exception, try_except.
    rewrite (bind_raises respond _ st E). cbv zeta. cbn [res final emitted].
    rewrite X. reflexivity. }
  assert (Ro : res (opening st) = Ret Next) by now rewrite Ho.
  destruct (bind_ret_step opening closing st Ro) as (R & Ev & _).
  rewrite R, Ev, Ho. clear R Ev. cbn [final emitted].
  assert (Tc : total (closing Next) (fun f => f = Next)).
  { subst closing. cbv beta iota.
    eapply hoare_bind.
    - apply total_try_all.
      + eapply hoare_bind; [apply hoare_call | intros body _].
        eapply hoare_bind; [apply hoare_call | intros _ _].
        apply hoare_call.
      + intro x. now apply hoare_ret.
    - intros _ _. eapply hoare_bind with (Q1 := fun _ => True).
      + destruct (attempt <? max_attempts)%Z; [|now apply hoare_ret].
        eapply hoare_bind; [apply hoare_log | intros _ _].
        now apply hoare_sleep with clock.
      + intros _ _. now apply hoare_ret. }
  destruct (total_returns {| world := w; self := self st |} Tc)
    as (f & Rf & ->).
  split; [exact Rf|]. eexists. reflexivity.
Qed.

Lemma attempt_download_records_the_fault fuel h file_name index st e w :
  respond (ContextClick h) (world st) = (Raises e, w) ->
  is_Exception e = true ->
  exists rest,
    emitted (attempt_download respond os_path_join fuel h file_name index st)
    = Called (ContextClick h) (Raises e)
      :: attempt_fault_record 1 index (sanitize_filename (Some file_name)) e
      :: rest.
Proof.
  intros E X. unfold attempt_download.
  change (py_range 1 (max_attempts + 1)) with [1; 2]%Z.
  match goal with
  | |- context [emitted (bind ?m ?f st)] =>
      destruct (bind_emitted_prefix m f st) as [r1 ->]
  end.
  cbn [for_each].
  match goal with
  | |- context [emitted (bind ?m ?f st)] =>
      destruct (bind_emitted_prefix m f st) as [r2 ->]
  end.
  destruct (attempt_body_records_the_fault fuel file_name
              (sanitize_filename (Some file_name)) index 1 st E X)
    as (_ & rest & ->).
  exists (rest ++ r2 ++ r1). cbn [app]. now rewrite <- app_assoc.
Qed.

End Faults.
End FailedAttempts.

Lemma context_click_faults_well_timed :
  well_timed context_click_faults (fun w => w).
Proof.
  repeat split.
  - intro w. exists w. split; [reflexivity | lia].
  - intros p w. eexists. exists w. split; [reflexivity | lia].
  - intros d w. exists (w + d)%Z. split; [reflexivity | lia].
Qed.

Lemma context_click_faults_no_interrupt : no_interrupt context_click_faults.
Proof.
  intros T c w.
  destruct c; try destruct sc; try destruct b; cbn;
    repeat match goal with
           | |- context [if ?x then _ else _] => destruct x
           end; discriminate.
Qed.

(** C8, as the code has it.  With a clock that advances while sleeping
    and more than thirty rounds of fuel, faults of the driver never
    leave the processing of a row: [attempt_download], the processing
    of a row and [search_and_download] return or are interrupted from
    the keyboard, and never raise an exception of class [Exception].
    A download that fails is a failure: [attempt_download] returns
    [True] only when the file was seen at the expected path, so when no
    poll of that path answers [True] it returns [False], and a [False]
    ends with the warning that the file could not be downloaded after
    the two attempts.  A fault is logged where the code has a record
    for it: a context click that raises an exception of class
    [Exception] is followed at once by the record of line 268, which
    names the attempt, the file and the exception, and the attempt
    falls through to the next one; and every attempt that falls
    through has written the record of line 268 or one of the two
    warnings of the file view.  The lookup of an item of the context
    menu has no record: when it raises, whatever the exception, that
    pass emits the failed lookup and nothing else and goes on to the
    next selector.  When nothing interrupts the run,
    [attempt_download] returns a boolean; processing a row returns the
    counter; processing the rows returns and has looked at every row of
    the list, whatever happened to the rows before it;
    [search_and_download] returns a boolean; and the step of the
    keyword loop falls through to the next keyword. *)
Theorem driver_faults_never_leave_a_row :
  forall W (respond : forall T, call T -> W -> reply T * W) join clock fuel,
    well_timed respond clock ->
    (30 < fuel)%nat ->
    ((forall h file_name index st,
         faultless (res (attempt_download respond join fuel h file_name
                                          index st)))
     /\ (forall i h n st,
            faultless (res (process_file respond join fuel i h n st)))
     /\ (forall st, faultless (res (search_and_download respond join fuel st)))
     /\ (forall h file_name index st,
            res (attempt_download respond join fuel h file_name index st)
            = Ret true ->
            verified join file_name (self st)
                     (emitted (attempt_download respond join fuel h file_name
                                                index st)))
     /\ (forall h file_name sanitized index attempt st e w,
            respond _ (ContextClick h) (world st) = (Raises e, w) ->
            is_Exception e = true ->
            res (attempt_body respond join fuel h file_name sanitized index
                              attempt st) = Ret Next
            /\ exists rest,
                 emitted (attempt_body respond join fuel h file_name
                                       sanitized index attempt st)
                 = Called (ContextClick h) (Raises e)
                   :: attempt_fault_record attempt index sanitized e :: rest)
     /\ (forall h file_name index st e w,
            respond _ (ContextClick h) (world st) = (Raises e, w) ->
            is_Exception e = true ->
            exists rest,
              emitted (attempt_download respond join fuel h file_name index
                                        st)
              = Called (ContextClick h) (Raises e)
                :: attempt_fault_record
                     1 index (sanitize_filename (Some file_name)) e
                :: rest)
     /\ (forall h file_name sanitized index attempt st,
            res (attempt_body respond join fuel h file_name sanitized index
                              attempt st) = Ret Next ->
            existsb is_attempt_warning
                    (emitted (attempt_body respond join fuel h file_name
                                           sanitized index attempt st))
            = true)
     /\ (forall file_name sanitized index attempt selector st e w,
            str_in "contains" selector = false ->
            respond _ (FindElement Page CSS_SELECTOR selector) (world st)
            = (Raises e, w) ->
            context_menu_step respond join fuel file_name sanitized index
                              attempt selector st
            = {| res := Ret Next;
                 final := {| world := w; self := self st |};
                 emitted := [Called (FindElement Page CSS_SELECTOR selector)
                                    (Raises e)] |}))
    /\ (no_interrupt respond ->
        (forall h file_name index st,
            exists b,
              res (attempt_download respond join fuel h file_name index st)
              = Ret b
              /\ (b = false ->
                  exists evs,
                    emitted (attempt_download respond join fuel h
                                              file_name index st)
                    = evs ++ [Logged WARNING
                                "Could not download .cwa file {} ({}) after {} attempts"
                                [AInt (index + 1);
                                 AName (sanitize_filename (Some file_name));
                                 AInt 2]])
              /\ (~ verified join file_name (self st)
                    (emitted (attempt_download respond join fuel h file_name
                                               index st)) ->
                  b = false))
        /\ (forall i h n st,
               exists n', res (process_file respond join fuel i h n st)
                          = Ret n')
        /\ (forall rows i n st,
               (exists n', res (process_files respond join fuel i rows n st)
                           = Ret n')
               /\ Forall (fun h =>
                            existsb (is_first_probe h)
                              (emitted (process_files respond join fuel
                                                      i rows n st)) = true)
                         rows)
        /\ (forall st,
               exists b, res (search_and_download respond join fuel st)
                         = Ret b)
        /\ (forall kw st,
               res (keyword_step respond join fuel kw st) = Ret Next)).
Proof.
  intros W respond join clock fuel timed enough.
  assert (Hseen : forall h file_name index st,
             res (attempt_download respond join fuel h file_name index st)
             = Ret true ->
             verified join file_name (self st)
                      (emitted (attempt_download respond join fuel h
                                                 file_name index st))).
  { intros h file_name index st H.
    destruct (yields_attempt_download respond join file_name fuel h index st)
      as [_ Hv].
    now apply (Hv true). }
  split.
  - assert (Hout : forall e, is_Exception e = false -> is_Exception e = false)
      by trivial.
    split; [|split; [|split; [|split; [|split; [|split; [|split]]]]]].
    + intros h file_name index st.
      apply (@safe_attempt_download W respond join clock timed fuel enough
               (fun e => is_Exception e = false)
               (calls_raise_anything respond) Hout h file_name index st).
    + intros i h n st.
      apply (@safe_process_file W respond join clock timed fuel enough
               (fun e => is_Exception e = false)
               (calls_raise_anything respond) Hout i h n st).
    + intro st.
      apply (@safe_search_and_download W respond join clock timed fuel enough
               (fun e => is_Exception e = false)
               (calls_raise_anything respond) Hout st).
    + exact Hseen.
    + intros h file_name sanitized index attempt st e w E X.
      now apply attempt_body_records_the_fault with clock w.
    + intros h file_name index st e w E X.
      now apply attempt_download_records_the_fault with clock w.
    + intros h file_name sanitized index attempt st H.
      destruct (failed_attempt_is_warned respond join fuel h file_name
                  sanitized index attempt st) as [_ Hw].
      now apply (Hw Next).
    + intros file_name sanitized index attempt selector st e w Hs E.
      unfold context_menu_step, try_except_all, try_except. rewrite Hs.
      rewrite (bind_raises respond _ st E). reflexivity.
  - intro quiet. split; [|split; [|split; [|split]]].
    + intros h file_name index st.
      destruct (total_returns st
                  (total_attempt_download join timed quiet enough
                                          h file_name index))
        as (b & R & _).
      exists b. split; [exact R|]. split.
      * intros ->. now apply attempt_download_failure_logged with clock.
      * intro NV. destruct b; [|reflexivity].
        contradiction NV. now apply Hseen.
    + intros i h n st.
      destruct (total_returns st
                  (total_process_file join timed quiet enough i h n))
        as (n' & R & _).
      now exists n'.
    + intros rows i n st. split.
      * destruct (total_returns st
                    (total_process_files join timed quiet enough rows i n))
          as (n' & R & _).
        now exists n'.
      * now apply process_files_visits_each with clock.
    + intro st.
      destruct (total_returns st
                  (total_search_and_download join timed quiet enough))
        as (b & R & _).
      now exists b.
    + intros kw st.
      destruct (total_returns st
                  (total_keyword_step join timed quiet enough kw))
        as (f & R & ->).
      exact R.
Qed.

Lemma driver_faults_never_leave_a_row_witness :
  let r := attempt_download context_click_faults join_backslash 31 10
                            (lit "report_jan.cwa") 0 (start_state []) in
  faultless (res r)
  /\ (exists rest,
         emitted r
         = Called (ContextClick 10) (Raises WebDriverException)
           :: attempt_fault_record
                1 0 (sanitize_filename (Some (lit "report_jan.cwa")))
                WebDriverException
           :: rest)
  /\ (exists b,
         res r = Ret b
         /\ (~ verified join_backslash (lit "report_jan.cwa")
               (self (start_state [])) (emitted r) ->
             b = false))
  /\ res (keyword_step context_click_faults join_backslash 31
                       (lit "report_jan.cwa") (start_state []))
     = Ret Next.
Proof.
  assert (Hfuel : (30 < 31)%nat) by lia.
  destruct (@driver_faults_never_leave_a_row Z context_click_faults
              join_backslash (fun w => w) 31
              context_click_faults_well_timed Hfuel)
    as ((Hf & _ & _ & _ & _ & Hr & _) & Hq).
  destruct (Hq context_click_faults_no_interrupt) as (Ha & _ & _ & _ & Hk).
  split; [apply Hf|]. split; [|split].
  - apply (Hr 10%nat (lit "report_jan.cwa") 0%Z (start_state [])
              WebDriverException 0%Z); reflexivity.
  - destruct (Ha 10%nat (lit "report_jan.cwa") 0%Z (start_state []))
      as (b & R & _ & Hb).
    exists b. split; [exact R | exact Hb].
  - apply Hk.
Defined.

(** C8, as stated, fails for a fault of the driver in the lookup of an
    item of the context menu: the lookup by the first download selector
    raises [WebDriverException], the bare [except] of line 240 goes on
    to the next selector without a record, the third selector finds the
    item and the download is verified.  The fault is not logged, no
    warning is written at all, and the attempt is not a failure:
    [attempt_download] returns [True]. *)
Lemma menu_lookup_fault_is_neither_logged_nor_a_failure :
  let r := attempt_download menu_lookup_faults join_backslash 31 10
                            (lit "report_jan.cwa") 0 (start_state []) in
  nth_error (emitted r) 2
  = Some (Called (FindElement Page CSS_SELECTOR
                              "[data-testid='download-menu-item']")
                 (Raises WebDriverException))
  /\ res r = Ret true
  /\ records (emitted r)
     = [(INFO, "Initiated download for .cwa file {} ({}) on attempt {}"%string);
        (INFO, "Download verified: {}"%string)]
  /\ existsb is_attempt_warning (emitted r) = false.
Proof. vm_compute. repeat split. Qed.

(** Where every context click fails, both attempts write the record of
    line 268 and [attempt_download] returns [False] after its closing
    warning. *)
Example failing_context_clicks_are_recorded :
  let r := attempt_download context_click_faults join_backslash 31 10
                            (lit "report_jan.cwa") 0 (start_state []) in
  res r = Ret false
  /\ records (emitted r)
     = [(WARNING, "Download attempt {} failed for file {} ({}): {}"%string);
        (INFO, "Retrying download for file {} ({})..."%string);
        (WARNING, "Download attempt {} failed for file {} ({}): {}"%string);
        (WARNING,
         "Could not download .cwa file {} ({}) after {} attempts"%string)].
Proof. vm_compute. repeat split. Qed.
